(** * sora2api: proxy pool health engine and token lifecycle

    A shallow embedding of [src/services/free_proxy_manager.py],
    [src/services/proxy_manager.py] and [src/services/token_manager.py].

    Conventions of the embedding.
    - Python [float]s (scores, response times, [time.time()] readings) and
      [datetime]s are exact rationals [Q]; a [datetime] is its number of
      seconds since the epoch.  The rounding errors of floating-point
      arithmetic are not modelled; [round(x, 2)] rounds the exact value.
    - Python [int] counters that start at 0 and are only incremented are [N];
      other [int]s (status codes, ports, ids) are [Z].
    - A Python [dict] whose iteration order is observable (the proxy pool) is
      an association list with unique keys in insertion order; the token table
      of the storage collaborator is a [gmap].
    - [async] functions are run to completion one after the other: the
      embedding is a state-and-exception monad over a [World]; the clock and
      the network are oracles indexed by the number of readings or requests
      made so far. *)

From Stdlib Require Import ZArith NArith QArith List String Ascii Bool Lia.
From Stdlib Require Import DecimalString Qround Permutation Sorted Lqa.
From stdpp Require Import base option gmap strings.

Import ListNotations.
Local Open Scope string_scope.

(** ** Python helpers *)

Module Py.

(** [str(n)] for an [int]. *)
Definition str_of_int (z : Z) : string := NilZero.string_of_int (Z.to_int z).

(** Boolean order on rationals. *)
Definition Qltb (a b : Q) : bool := (Qnum a * QDen b <? Qnum b * QDen a)%Z.
Definition Qeqb (a b : Q) : bool := (Qnum a * QDen b =? Qnum b * QDen a)%Z.

(** [min(a, b)]: Python returns [b] when [b < a] and [a] otherwise. *)
Definition min (a b : Q) : Q := if Qltb b a then b else a.

Definition N2Q (n : N) : Q := inject_Z (Z.of_N n).

(** Truthiness of an optional string ([None] and [""] are falsy). *)
Definition truthy_str (o : option string) : bool :=
  match o with
  | Some s => negb (String.eqb s "")
  | None => false
  end.

(** [needle in haystack] on [str]. *)
Fixpoint contains (needle hay : string) : bool :=
  if String.prefix needle hay then true
  else match hay with
       | EmptyString => false
       | String _ rest => contains needle rest
       end.

End Py.

(** ** Insertion-ordered dictionaries (Python [dict]) *)

Module Dict.
Section Dict.
Context {V : Type}.

Definition t := list (string * V).

Fixpoint get (k : string) (d : t) : option V :=
  match d with
  | [] => None
  | (k', v) :: rest => if String.eqb k k' then Some v else get k rest
  end.

Definition mem (k : string) (d : t) : bool :=
  match get k d with Some _ => true | None => false end.

(** [d[k] = v]: replaces in place when the key is present, appends
    otherwise. *)
Fixpoint set (k : string) (v : V) (d : t) : t :=
  match d with
  | [] => [(k, v)]
  | (k', v') :: rest =>
      if String.eqb k k' then (k', v) :: rest else (k', v') :: set k v rest
  end.

Definition keys (d : t) : list string := map fst d.
Definition values (d : t) : list V := map snd d.
End Dict.
Arguments t : clear implicits.
End Dict.

(** ** [ProxyInfo] (free_proxy_manager.py, lines 12-46) *)

Record ProxyInfo := mkProxyInfo {
  url : string;
  protocol : string;
  ip : string;
  port : Z;
  https : bool;
  anonymity : string;
  score : Q;
  country : string;
  success_count : N;
  failure_count : N;
  last_used : option Q;
  last_success : option Q;
  last_failure : option Q;
  avg_response_time : Q;
  is_healthy : bool
}.

Definition set_score (s : Q) (p : ProxyInfo) : ProxyInfo :=
  mkProxyInfo (url p) (protocol p) (ip p) (port p) (https p) (anonymity p) s
    (country p) (success_count p) (failure_count p) (last_used p)
    (last_success p) (last_failure p) (avg_response_time p) (is_healthy p).

(** The [health_score] property. *)
Definition health_score (p : ProxyInfo) : Q :=
  if (success_count p + failure_count p =? 0)%N then score p
  else
    let total := (success_count p + failure_count p)%N in
    let success_rate := (Py.N2Q (success_count p) / Py.N2Q total)%Q in
    let time_penalty := (Py.min 1 (avg_response_time p / 10) * (3 # 10))%Q in
    ((success_rate * (7 # 10) + (1 - time_penalty) * (3 # 10)) * 10)%Q.

(** The formula as the specification words it:
    [(0.7 * successRate + 0.3 * (1 - min(1, avg/10))) * 10]. *)
Definition spec_health_score (p : ProxyInfo) : Q :=
  if (success_count p + failure_count p =? 0)%N then score p
  else
    let success_rate :=
      (Py.N2Q (success_count p)
       / Py.N2Q (success_count p + failure_count p))%Q in
    (((7 # 10) * success_rate
      + (3 # 10) * (1 - Py.min 1 (avg_response_time p / 10))) * 10)%Q.

(** ** Exceptions *)

(** The classes the handlers of the source tell apart: [ValueError] (also
    raised by [response.json()], [jwt.decode] through [decode_jwt] and
    [dateutil.parser.parse]), [KeyError], [AttributeError], and any other
    subclass of [Exception] (plain [Exception], transport errors of the HTTP
    client).  [BaseException]s outside [Exception] are not modelled. *)
Inductive exn_class := ValueError | KeyError | AttributeError | OtherException.

Record exn := mkExn { exn_cls : exn_class; exn_msg : string }.

Definition is_ValueError (e : exn) : bool :=
  match exn_cls e with ValueError => true | _ => false end.
Definition is_ValueError_or_KeyError (e : exn) : bool :=
  match exn_cls e with ValueError | KeyError => true | _ => false end.
Definition is_Exception (e : exn) : bool := true.

(** ** Python values passed as the [proxy] option of a request *)

(** [None], a [str], or a 2-tuple of optional strings (the only tuples the
    code builds). *)
Inductive PyVal :=
| PyNone
| PyStr (s : string)
| PyTuple (first second : option string).

(** Python truthiness: a tuple of length two is never empty, hence truthy. *)
Definition truthy (v : PyVal) : bool :=
  match v with
  | PyNone => false
  | PyStr s => negb (String.eqb s "")
  | PyTuple _ _ => true
  end.


(** ** Remote collaborators: requests and responses *)

Inductive Endpoint :=
| EpProxyList          (* PROXY_LIST_URL *)
| EpHealthCheck        (* HEALTH_CHECK_URL *)
| EpMe                 (* {sora_base_url}/me *)
| EpSubscriptions      (* /backend/billing/subscriptions *)
| EpInviteMine         (* /backend/project_y/invite/mine *)
| EpBootstrap          (* /backend/m/bootstrap *)
| EpNfCheck            (* /backend/nf/check *)
| EpUsernameCheck (username : string)
| EpUsernameSet (username : string)
| EpAuthSession        (* /api/auth/session *)
| EpOAuthToken (client_id : string).

(** A request: the endpoint, the credential it presents (bearer token,
    session cookie or refresh token; empty when there is none) and the
    [proxy] keyword, absent when the code does not pass it. *)
Record Request := mkRequest {
  req_endpoint : Endpoint;
  req_credential : string;
  req_proxy : option PyVal
}.

(** One element of the proxy list document. A missing key is [None]. *)
Record ProxyData := mkProxyData {
  pd_score : option Q;
  pd_protocol : option string;
  pd_ip : option string;
  pd_port : option Z;
  pd_https : option bool;
  pd_anonymity : option string;
  pd_country : option string     (* geolocation.country *)
}.

Record ErrorInfo := mkErrorInfo {
  err_code : option string;
  err_message : option string;
  err_param : option string
}.

Definition no_error_info : ErrorInfo := mkErrorInfo None None None.

Record Subscription := mkSubscription {
  plan_id : option string;
  plan_title_of : option string;
  end_ts : option string
}.

Record RateLimitInfo := mkRateLimitInfo {
  estimated_num_videos_remaining : option Z;
  rate_limit_reached : option bool;
  access_resets_in_seconds : option Z
}.

(** A JSON object, seen through the keys the code reads.  A key that is
    missing (or null) is [None]; a key that is present is assumed to hold a
    value of the type the code expects. *)
Record JsonObj := mkJsonObj {
  j_error : option ErrorInfo;
  j_email : option string;
  j_name : option string;
  j_username : option string;
  j_is_phone_number_verified : option bool;     (* my_info.is_phone_number_verified *)
  j_data : option (list Subscription);
  j_invite_code : option string;
  j_redeemed_count : option Z;
  j_total_count : option Z;
  j_rate_limit_and_credit_balance : option RateLimitInfo;
  j_available : option bool;
  j_accessToken : option string;
  j_user_email : option string;                  (* user.email *)
  j_expires : option string;
  j_access_token : option string;
  j_refresh_token : option string;
  j_expires_in : option Z
}.

Definition empty_obj : JsonObj :=
  mkJsonObj None None None None None None None None None None None None None
    None None None None.

Inductive Body :=
| JArray (items : list ProxyData)
| JObject (o : JsonObj)
| JNull.

(** [json] is [None] when [response.json()] raises (a [ValueError]). *)
Record HttpResponse := mkHttpResponse {
  status_code : Z;
  text : string;
  json : option Body
}.

Inductive Outcome :=
| TransportError (msg : string)
| Response (r : HttpResponse).

(** The payload of the primary credential, as [jwt.decode] returns it. *)
Record Jwt := mkJwt {
  jwt_exp : option Q;              (* "exp", already as a timestamp *)
  jwt_profile_email : option string
}.

(** Everything outside the process. *)
Record Env := mkEnv {
  (** the n-th reading of [time.time()] / [datetime.now()] *)
  clock : nat -> Q;
  (** the outcome of a request, given the number of requests made before *)
  remote : nat -> Request -> Outcome;
  (** [jwt.decode(token, verify_signature=False)]; [inr msg] when it raises *)
  jwt_decode : string -> Jwt + string;
  (** [dateutil.parser.parse]; [inr msg] when it raises its [ParserError] *)
  parse_date : string -> Q + string;
  (** the n-th draw of [_generate_random_username]; [inr msg] when the
      generator raises (an empty cleaned name) *)
  random_username : nat -> string + string
}.

(** ** The storage collaborator *)

(** Modelled from the spec: the [Token] model ([core/models.py] is not among
    the sources), with the fields the three services read or write. *)
Module Token.
Record t := mk {
  id : Z;
  token : string;
  email : string;
  name : string;
  st : option string;
  rt : option string;
  client_id : option string;
  proxy_url : option string;
  expiry_time : option Q;
  is_active : bool;
  is_expired : bool;
  plan_type : option string;
  plan_title : option string;
  subscription_end : option Q;
  sora2_supported : option bool;
  sora2_invite_code : option string;
  sora2_redeemed_count : Z;
  sora2_total_count : Z;
  sora2_remaining_count : Z;
  sora2_cooldown_until : option Q;
  is_phone_verified : option bool
}.
End Token.

Record TokenStats := mkTokenStats {
  error_count : N;
  consecutive_error_count : N
}.

Record ProxyConfig := mkProxyConfig {
  proxy_enabled : bool;
  cfg_proxy_url : option string
}.

(** Modelled from the spec: the storage collaborator ([core/database.py] is
    not among the sources; section 6 of the specification lists its
    operations).  Tokens are rows keyed by id; an update of a row that does
    not exist changes nothing; in [update_token] an argument left at [None]
    leaves its column unchanged. *)
Module Database.

Record t := mk {
  tokens : gmap Z Token.t;
  stats : gmap Z TokenStats;
  proxy_config : ProxyConfig;
  error_ban_threshold : N
}.

Definition with_tokens (f : gmap Z Token.t -> gmap Z Token.t) (d : t) : t :=
  mk (f (tokens d)) (stats d) (proxy_config d) (error_ban_threshold d).

Definition with_stats (f : gmap Z TokenStats -> gmap Z TokenStats) (d : t) : t :=
  mk (tokens d) (f (stats d)) (proxy_config d) (error_ban_threshold d).

Definition get_token (token_id : Z) (d : t) : option Token.t :=
  tokens d !! token_id.

Definition get_all_tokens (d : t) : list Token.t :=
  map snd (map_to_list (tokens d)).

Definition get_token_by_value (v : string) (d : t) : option Token.t :=
  List.find (fun tk => String.eqb (Token.token tk) v) (get_all_tokens d).

Definition get_token_stats (token_id : Z) (d : t) : option TokenStats :=
  stats d !! token_id.

(** The columns [update_token] can set; [None] leaves a column as it is. *)
Record fields := mkFields {
  f_token : option string;
  f_st : option string;
  f_rt : option string;
  f_proxy_url : option string;
  f_expiry_time : option Q;
  f_plan_type : option string;
  f_plan_title : option string;
  f_subscription_end : option Q
}.

Definition keep {A} (new : option A) (old : option A) : option A :=
  match new with Some _ => new | None => old end.

Definition apply_fields (f : fields) (tk : Token.t) : Token.t :=
  Token.mk (Token.id tk)
    (default (Token.token tk) (f_token f))
    (Token.email tk) (Token.name tk)
    (keep (f_st f) (Token.st tk))
    (keep (f_rt f) (Token.rt tk))
    (Token.client_id tk)
    (keep (f_proxy_url f) (Token.proxy_url tk))
    (keep (f_expiry_time f) (Token.expiry_time tk))
    (Token.is_active tk) (Token.is_expired tk)
    (keep (f_plan_type f) (Token.plan_type tk))
    (keep (f_plan_title f) (Token.plan_title tk))
    (keep (f_subscription_end f) (Token.subscription_end tk))
    (Token.sora2_supported tk) (Token.sora2_invite_code tk)
    (Token.sora2_redeemed_count tk) (Token.sora2_total_count tk)
    (Token.sora2_remaining_count tk) (Token.sora2_cooldown_until tk)
    (Token.is_phone_verified tk).

Definition update_token (token_id : Z) (f : fields) : t -> t :=
  with_tokens (alter (apply_fields f) token_id).

Definition set_is_active (b : bool) (tk : Token.t) : Token.t :=
  Token.mk (Token.id tk) (Token.token tk) (Token.email tk) (Token.name tk)
    (Token.st tk) (Token.rt tk) (Token.client_id tk) (Token.proxy_url tk)
    (Token.expiry_time tk) b (Token.is_expired tk) (Token.plan_type tk)
    (Token.plan_title tk) (Token.subscription_end tk)
    (Token.sora2_supported tk) (Token.sora2_invite_code tk)
    (Token.sora2_redeemed_count tk) (Token.sora2_total_count tk)
    (Token.sora2_remaining_count tk) (Token.sora2_cooldown_until tk)
    (Token.is_phone_verified tk).

Definition update_token_status (token_id : Z) (is_active : bool) : t -> t :=
  with_tokens (alter (set_is_active is_active) token_id).

Definition set_is_expired (b : bool) (tk : Token.t) : Token.t :=
  Token.mk (Token.id tk) (Token.token tk) (Token.email tk) (Token.name tk)
    (Token.st tk) (Token.rt tk) (Token.client_id tk) (Token.proxy_url tk)
    (Token.expiry_time tk) (Token.is_active tk) b (Token.plan_type tk)
    (Token.plan_title tk) (Token.subscription_end tk)
    (Token.sora2_supported tk) (Token.sora2_invite_code tk)
    (Token.sora2_redeemed_count tk) (Token.sora2_total_count tk)
    (Token.sora2_remaining_count tk) (Token.sora2_cooldown_until tk)
    (Token.is_phone_verified tk).

Definition clear_token_expired (token_id : Z) : t -> t :=
  with_tokens (alter (set_is_expired false) token_id).

Definition mark_token_expired (token_id : Z) : t -> t :=
  with_tokens (alter (set_is_expired true) token_id).

Definition set_phone_verified (v : option bool) (tk : Token.t) : Token.t :=
  Token.mk (Token.id tk) (Token.token tk) (Token.email tk) (Token.name tk)
    (Token.st tk) (Token.rt tk) (Token.client_id tk) (Token.proxy_url tk)
    (Token.expiry_time tk) (Token.is_active tk) (Token.is_expired tk)
    (Token.plan_type tk) (Token.plan_title tk) (Token.subscription_end tk)
    (Token.sora2_supported tk) (Token.sora2_invite_code tk)
    (Token.sora2_redeemed_count tk) (Token.sora2_total_count tk)
    (Token.sora2_remaining_count tk) (Token.sora2_cooldown_until tk) v.

Definition update_token_phone_verified (token_id : Z) (v : option bool) : t -> t :=
  with_tokens (alter (set_phone_verified v) token_id).

Definition set_sora2 (supported : option bool) (invite_code : option string)
    (redeemed total remaining : Z) (tk : Token.t) : Token.t :=
  Token.mk (Token.id tk) (Token.token tk) (Token.email tk) (Token.name tk)
    (Token.st tk) (Token.rt tk) (Token.client_id tk) (Token.proxy_url tk)
    (Token.expiry_time tk) (Token.is_active tk) (Token.is_expired tk)
    (Token.plan_type tk) (Token.plan_title tk) (Token.subscription_end tk)
    supported invite_code redeemed total remaining
    (Token.sora2_cooldown_until tk) (Token.is_phone_verified tk).

Definition update_token_sora2 (token_id : Z) (supported : option bool)
    (invite_code : option string) (redeemed total remaining : Z) : t -> t :=
  with_tokens (alter (set_sora2 supported invite_code redeemed total remaining) token_id).

Definition set_sora2_remaining (n : Z) (tk : Token.t) : Token.t :=
  set_sora2 (Token.sora2_supported tk) (Token.sora2_invite_code tk)
    (Token.sora2_redeemed_count tk) (Token.sora2_total_count tk) n tk.

Definition update_token_sora2_remaining (token_id : Z) (n : Z) : t -> t :=
  with_tokens (alter (set_sora2_remaining n) token_id).

Definition set_sora2_cooldown (c : option Q) (tk : Token.t) : Token.t :=
  Token.mk (Token.id tk) (Token.token tk) (Token.email tk) (Token.name tk)
    (Token.st tk) (Token.rt tk) (Token.client_id tk) (Token.proxy_url tk)
    (Token.expiry_time tk) (Token.is_active tk) (Token.is_expired tk)
    (Token.plan_type tk) (Token.plan_title tk) (Token.subscription_end tk)
    (Token.sora2_supported tk) (Token.sora2_invite_code tk)
    (Token.sora2_redeemed_count tk) (Token.sora2_total_count tk)
    (Token.sora2_remaining_count tk) c (Token.is_phone_verified tk).

(** Unlike [update_token], this sets the column also to [None] (the caller
    clears a cooldown that way). *)
Definition update_token_sora2_cooldown (token_id : Z) (c : option Q) : t -> t :=
  with_tokens (alter (set_sora2_cooldown c) token_id).

Definition reset_error_count (token_id : Z) : t -> t :=
  with_stats (alter (fun s => mkTokenStats (error_count s) 0%N) token_id).

(** A fresh id: one more than the largest id in use. *)
Definition next_id (d : t) : Z :=
  (1 + fold_right Z.max 0 (map Token.id (get_all_tokens d)))%Z.

Definition set_id (i : Z) (tk : Token.t) : Token.t :=
  Token.mk i (Token.token tk) (Token.email tk) (Token.name tk)
    (Token.st tk) (Token.rt tk) (Token.client_id tk) (Token.proxy_url tk)
    (Token.expiry_time tk) (Token.is_active tk) (Token.is_expired tk)
    (Token.plan_type tk) (Token.plan_title tk) (Token.subscription_end tk)
    (Token.sora2_supported tk) (Token.sora2_invite_code tk)
    (Token.sora2_redeemed_count tk) (Token.sora2_total_count tk)
    (Token.sora2_remaining_count tk) (Token.sora2_cooldown_until tk)
    (Token.is_phone_verified tk).

Definition add_token (tk : Token.t) (d : t) : Z * t :=
  let i := next_id d in
  (i, with_stats (insert i (mkTokenStats 0%N 0%N))
        (with_tokens (insert i (set_id i tk)) d)).

(** Modelled from the spec: [increment_error_count] adds one to the total
    error count and, when [increment_consecutive] holds, to the consecutive
    error count. *)
Definition increment_error_count (token_id : Z) (increment_consecutive : bool)
    : t -> t :=
  with_stats
    (alter (fun s =>
              mkTokenStats (error_count s + 1)%N
                (if increment_consecutive then (consecutive_error_count s + 1)%N
                 else consecutive_error_count s))
       token_id).

(** Modelled from the spec: [update_proxy_config(enabled, url)] replaces the
    global fallback proxy. *)
Definition update_proxy_config (enabled : bool) (proxy_url : option string)
    (d : t) : t :=
  mk (tokens d) (stats d) (mkProxyConfig enabled proxy_url) (error_ban_threshold d).

End Database.

(** ** The process state *)

Record World := mkWorld {
  w_proxies : Dict.t ProxyInfo;          (* FreeProxyManager._proxies *)
  w_last_refresh : option Q;             (* FreeProxyManager._last_refresh *)
  w_initialized : bool;                  (* FreeProxyManager._initialized *)
  w_free_proxy_manager : bool;           (* ProxyManager._free_proxy_manager is set *)
  w_free_proxy_enabled : bool;           (* ProxyManager._free_proxy_enabled *)
  w_db : Database.t;
  w_ticks : nat;                         (* clock readings made so far *)
  w_draws : nat;                         (* usernames drawn so far *)
  w_log : list (Request * Outcome)       (* requests made so far, newest first *)
}.

Definition with_proxies (f : Dict.t ProxyInfo -> Dict.t ProxyInfo) (w : World) : World :=
  mkWorld (f (w_proxies w)) (w_last_refresh w) (w_initialized w)
    (w_free_proxy_manager w) (w_free_proxy_enabled w) (w_db w) (w_ticks w)
    (w_draws w) (w_log w).

Definition with_last_refresh (t : option Q) (w : World) : World :=
  mkWorld (w_proxies w) t (w_initialized w)
    (w_free_proxy_manager w) (w_free_proxy_enabled w) (w_db w) (w_ticks w)
    (w_draws w) (w_log w).

Definition with_initialized (b : bool) (w : World) : World :=
  mkWorld (w_proxies w) (w_last_refresh w) b
    (w_free_proxy_manager w) (w_free_proxy_enabled w) (w_db w) (w_ticks w)
    (w_draws w) (w_log w).

Definition with_db (f : Database.t -> Database.t) (w : World) : World :=
  mkWorld (w_proxies w) (w_last_refresh w) (w_initialized w)
    (w_free_proxy_manager w) (w_free_proxy_enabled w) (f (w_db w)) (w_ticks w)
    (w_draws w) (w_log w).

Definition with_tick (w : World) : World :=
  mkWorld (w_proxies w) (w_last_refresh w) (w_initialized w)
    (w_free_proxy_manager w) (w_free_proxy_enabled w) (w_db w) (S (w_ticks w))
    (w_draws w) (w_log w).

Definition with_draw (w : World) : World :=
  mkWorld (w_proxies w) (w_last_refresh w) (w_initialized w)
    (w_free_proxy_manager w) (w_free_proxy_enabled w) (w_db w) (w_ticks w)
    (S (w_draws w)) (w_log w).

Definition with_logged (r : Request) (o : Outcome) (w : World) : World :=
  mkWorld (w_proxies w) (w_last_refresh w) (w_initialized w)
    (w_free_proxy_manager w) (w_free_proxy_enabled w) (w_db w) (w_ticks w)
    (w_draws w) ((r, o) :: w_log w).

Definition with_free_proxy (manager enabled : bool) (w : World) : World :=
  mkWorld (w_proxies w) (w_last_refresh w) (w_initialized w)
    manager enabled (w_db w) (w_ticks w) (w_draws w) (w_log w).

(** ** State and exceptions *)

Inductive result (A : Type) : Type :=
| Ok (a : A)
| Raise (e : exn).
Arguments Ok {A} a.
Arguments Raise {A} e.

Definition M (A : Type) : Type := World -> result A * World.

Definition ret {A} (a : A) : M A := fun w => (Ok a, w).

Definition bind {A B} (m : M A) (k : A -> M B) : M B :=
  fun w => match m w with
           | (Ok a, w') => k a w'
           | (Raise e, w') => (Raise e, w')
           end.

Definition raise {A} (e : exn) : M A := fun w => (Raise e, w).

(** [try: body except <classes> as e: handler e]. *)
Definition try_except {A} (body : M A) (catches : exn -> bool)
    (handler : exn -> M A) : M A :=
  fun w => match body w with
           | (Raise e, w') => if catches e then handler e w' else (Raise e, w')
           | r => r
           end.

Definition get_world : M World := fun w => (Ok w, w).
Definition modify (f : World -> World) : M unit := fun w => (Ok tt, f w).

Declare Scope py_scope.
Delimit Scope py_scope with py.
Notation "'let*' x ':=' m 'in' k" := (bind m (fun x => k))
  (at level 10, x pattern, m at level 100, k at level 200) : py_scope.
Notation "m ';;' k" := (bind m (fun _ => k))
  (at level 100, k at level 200, right associativity) : py_scope.
Local Open Scope py_scope.

(** [asyncio.gather] with [return_exceptions=True], the tasks run one after the
    other in list order: an exception of a task is a value of the result
    list. *)
Fixpoint gather {A} (tasks : list (M A)) : M (list (result A)) :=
  match tasks with
  | [] => ret []
  | task :: rest =>
      fun w => let '(r, w') := task w in
               (let* x := gather rest in ret (r :: x)) w'
  end.

(** ** Constants of [FreeProxyManager] *)

Definition REFRESH_INTERVAL : Q := 300.
Definition MIN_SCORE : Q := 1 # 2.
Definition PREFERRED_ANONYMITY : list string := ["anonymous"; "elite"].
Definition ALLOWED_PROTOCOLS : list string := ["socks5"].
Definition FAILURE_THRESHOLD : N := 3.

Definition str_in (s : string) (l : list string) : bool :=
  existsb (String.eqb s) l.

(** [s[:n]] *)
Definition slice_to {A} (n : Z) (l : list A) : list A :=
  if (0 <=? n)%Z then firstn (Z.to_nat n) l
  else firstn (length l - Z.to_nat (- n)) l.

(** ** Pure parts of [FreeProxyManager] *)

(** One iteration of the loop of [_refresh_proxy_list].  The first component
    is [self._proxies], whose records the loop mutates in place
    ([existing.score = score]); the second is [new_proxies]. *)
Definition refresh_entry (st : Dict.t ProxyInfo * Dict.t ProxyInfo)
    (proxy_data : ProxyData) : Dict.t ProxyInfo * Dict.t ProxyInfo :=
  let '(old, new_proxies) := st in
  let score := default 0%Q (pd_score proxy_data) in
  if Py.Qltb score MIN_SCORE then st
  else
    let protocol := default "http" (pd_protocol proxy_data) in
    let ip := default "" (pd_ip proxy_data) in
    let port := default 0%Z (pd_port proxy_data) in
    if String.eqb ip "" || (port =? 0)%Z then st
    else if negb (str_in protocol ALLOWED_PROTOCOLS) then st
    else
      let proxy_url := protocol ++ "://" ++ ip ++ ":" ++ Py.str_of_int port in
      match Dict.get proxy_url old with
      | Some existing =>
          let existing' := set_score score existing in
          (Dict.set proxy_url existing' old,
           Dict.set proxy_url existing' new_proxies)
      | None =>
          (old,
           Dict.set proxy_url
             (mkProxyInfo proxy_url protocol ip port
                (default false (pd_https proxy_data))
                (default "unknown" (pd_anonymity proxy_data))
                score
                (default "Unknown" (pd_country proxy_data))
                0%N 0%N None None None 0%Q true)
             new_proxies)
      end.

Definition refresh_entries (old : Dict.t ProxyInfo) (proxies_data : list ProxyData)
    : Dict.t ProxyInfo * Dict.t ProxyInfo :=
  fold_left refresh_entry proxies_data (old, []).

(** The sort key of [_get_healthy_proxies] and Python's order on it. *)
Definition sort_key (p : ProxyInfo) : bool * Q :=
  (str_in (anonymity p) PREFERRED_ANONYMITY, health_score p).

Definition key_lt (a b : bool * Q) : bool :=
  if Bool.eqb (fst a) (fst b) then
    (if Py.Qeqb (snd a) (snd b) then false else Py.Qltb (snd a) (snd b))
  else negb (fst a) && fst b.

(** [list.sort(key=..., reverse=True)]: descending and stable. *)
Fixpoint insert_desc (x : ProxyInfo) (l : list ProxyInfo) : list ProxyInfo :=
  match l with
  | [] => [x]
  | y :: rest =>
      if key_lt (sort_key x) (sort_key y) then y :: insert_desc x rest
      else x :: l
  end.

Definition sort_desc (l : list ProxyInfo) : list ProxyInfo :=
  fold_right insert_desc [] l.

Definition _get_healthy_proxies (pool : Dict.t ProxyInfo) : list ProxyInfo :=
  sort_desc (List.filter is_healthy (Dict.values pool)).

(** [results.sort(key=lambda x: x[1])]: ascending and stable. *)
Fixpoint insert_by_time (x : string * Q) (l : list (string * Q)) : list (string * Q) :=
  match l with
  | [] => [x]
  | y :: rest =>
      if Py.Qltb (snd y) (snd x) then y :: insert_by_time x rest else x :: l
  end.

Definition sort_by_time (l : list (string * Q)) : list (string * Q) :=
  fold_right insert_by_time [] l.

(** The [success] branch of [report_success] on one record. *)
Definition record_success_on (proxy : ProxyInfo) (t_used t_success response_time : Q)
    : ProxyInfo :=
  mkProxyInfo (url proxy) (protocol proxy) (ip proxy) (port proxy) (https proxy)
    (anonymity proxy) (score proxy) (country proxy)
    (success_count proxy + 1)%N (failure_count proxy)
    (Some t_used) (Some t_success) (last_failure proxy)
    (if Py.Qeqb (avg_response_time proxy) 0 then response_time
     else (avg_response_time proxy * (7 # 10) + response_time * (3 # 10))%Q)
    true.

(** The test of [report_failure] after the counter was incremented. *)
Definition too_many_failures (success_count failure_count : N) : bool :=
  (FAILURE_THRESHOLD <=? failure_count)%N
  && ((success_count =? 0)%N
      || Py.Qltb (1 # 2)
           (Py.N2Q failure_count / Py.N2Q (success_count + failure_count))).

Definition record_failure_on (proxy : ProxyInfo) (t_used t_failure : Q) : ProxyInfo :=
  let failure_count' := (failure_count proxy + 1)%N in
  mkProxyInfo (url proxy) (protocol proxy) (ip proxy) (port proxy) (https proxy)
    (anonymity proxy) (score proxy) (country proxy)
    (success_count proxy) failure_count'
    (Some t_used) (last_success proxy) (Some t_failure)
    (avg_response_time proxy)
    (if too_many_failures (success_count proxy) failure_count' then false
     else is_healthy proxy).

(** The set [used_proxies] of [bind_proxy_to_token]. *)
Definition used_proxies (all_tokens : list Token.t) (token_id : Z) : gset string :=
  fold_left
    (fun acc tk =>
       match Token.proxy_url tk with
       | Some u =>
           if negb (String.eqb u "") && negb (Token.id tk =? token_id)%Z
           then {[ u ]} ∪ acc else acc
       | None => acc
       end)
    all_tokens ∅.

(** [round(x, 2)] on an exact value: the nearest multiple of 1/100, a tie
    going to the even one. *)
Definition round_half_even (q : Q) : Z :=
  let f := Qfloor q in
  let r := (q - inject_Z f)%Q in
  if Py.Qltb r (1 # 2) then f
  else if Py.Qltb (1 # 2) r then (f + 1)%Z
  else if Z.even f then f else (f + 1)%Z.

Definition round2 (q : Q) : Q := (inject_Z (round_half_even (q * 100)) / 100)%Q.

(** [d[k] = d.get(k, 0) + 1] *)
Definition count_up (k : string) (d : Dict.t Z) : Dict.t Z :=
  Dict.set k (default 0%Z (Dict.get k d) + 1)%Z d.

(** The dictionary [get_stats] returns; [last_refresh] is the timestamp
    whose ISO text the source returns. *)
Record PoolStats := mkPoolStats {
  total_proxies : Z;
  healthy_proxies : Z;
  unhealthy_proxies : Z;
  last_refresh : option Q;
  by_country : Dict.t Z;
  by_anonymity : Dict.t Z
}.

(** [sorted(values, key=lambda x: x.health_score, reverse=True)]: descending
    and stable. *)
Fixpoint insert_by_health (x : ProxyInfo) (l : list ProxyInfo) : list ProxyInfo :=
  match l with
  | [] => [x]
  | y :: rest =>
      if Py.Qltb (health_score x) (health_score y) then y :: insert_by_health x rest
      else x :: l
  end.

Definition sort_by_health (l : list ProxyInfo) : list ProxyInfo :=
  fold_right insert_by_health [] l.

(** One dictionary of the list [get_proxy_list] returns. *)
Record ProxyRow := mkProxyRow {
  row_url : string;
  row_protocol : string;
  row_ip : string;
  row_port : Z;
  row_https : bool;
  row_anonymity : string;
  row_country : string;
  row_score : Q;
  row_health_score : Q;
  row_is_healthy : bool;
  row_success_count : N;
  row_failure_count : N;
  row_avg_response_time : Q
}.

Definition row_of (p : ProxyInfo) : ProxyRow :=
  mkProxyRow (url p) (protocol p) (ip p) (port p) (https p) (anonymity p)
    (country p) (score p) (health_score p) (is_healthy p) (success_count p)
    (failure_count p) (round2 (avg_response_time p)).

(** The results [batch_health_check] keeps from [completed]: the tuples, in
    order, a later one replacing an earlier one for the same URL. *)
Fixpoint collect_checks (completed : list (result (string * bool)))
    (results : Dict.t bool) : Dict.t bool :=
  match completed with
  | [] => results
  | Ok (url, is_healthy) :: rest =>
      collect_checks rest (Dict.set url is_healthy results)
  | Raise _ :: rest => collect_checks rest results
  end.

(** The list [used_proxies] of [bind_fastest_proxy_to_token]. *)
Definition used_proxy_list (all_tokens : list Token.t) (token_id : Z) : list string :=
  flat_map
    (fun t =>
       if Py.truthy_str (Token.proxy_url t) && negb (Token.id t =? token_id)%Z
       then [default "" (Token.proxy_url t)] else [])
    all_tokens.

(** [not token_id]: [None] and 0 are falsy. *)
Definition truthy_id (token_id : option Z) : bool :=
  match token_id with
  | Some i => negb (i =? 0)%Z
  | None => false
  end.

(** ** The services *)

Section Services.

Variable env : Env.

(** *** Primitive effects *)

(** [time.time()] and [datetime.now()]. *)
Definition time_time : M Q :=
  fun w => (Ok (clock env (w_ticks w)), with_tick w).

(** [session.get] / [session.post]: the request is logged with its outcome;
    a transport error is raised as an exception. *)
Definition session_request (r : Request) : M HttpResponse :=
  fun w =>
    let o := remote env (length (w_log w)) r in
    match o with
    | TransportError msg => (Raise (mkExn OtherException msg), with_logged r o w)
    | Response resp => (Ok resp, with_logged r o w)
    end.

(** [response.json()] *)
Definition response_json (response : HttpResponse) : M Body :=
  match json response with
  | Some b => ret b
  | None => raise (mkExn ValueError "Expecting value")
  end.

(** [data.get(...)] needs a [dict]: a list or [None] has no [get]. *)
Definition as_dict (data : Body) : M JsonObj :=
  match data with
  | JObject o => ret o
  | JArray _ => raise (mkExn AttributeError "'list' object has no attribute 'get'")
  | JNull => raise (mkExn AttributeError "'NoneType' object has no attribute 'get'")
  end.

(** *** [FreeProxyManager] *)

(** [_refresh_proxy_list] (lines 89-151).  Iterating a body that is not a
    list of objects raises inside the [try] (an object body is taken to be
    non-empty). *)
Definition _refresh_proxy_list : M unit :=
  try_except
    (let* response := session_request (mkRequest EpProxyList "" None) in
     if negb (status_code response =? 200)%Z then ret tt
     else
       let* proxies_data := response_json response in
       let* items :=
         match proxies_data with
         | JArray items => ret items
         | JObject _ => raise (mkExn AttributeError "'str' object has no attribute 'get'")
         | JNull => raise (mkExn OtherException "'NoneType' object is not iterable")
         end in
       let* w := get_world in
       let '(_, new_proxies) := refresh_entries (w_proxies w) items in
       modify (with_proxies (fun _ => new_proxies)) ;;
       let* now := time_time in
       modify (with_last_refresh (Some now)))
    is_Exception
    (fun _ => ret tt).

(** [initialize] (lines 76-87); the lock is not modelled. *)
Definition initialize : M unit :=
  let* w := get_world in
  if w_initialized w then ret tt
  else _refresh_proxy_list ;; modify (with_initialized true).

(** [_ensure_fresh_proxies] (lines 153-160) *)
Definition _ensure_fresh_proxies : M unit :=
  let* w := get_world in
  match w_last_refresh w with
  | None => _refresh_proxy_list
  | Some last =>
      let* now := time_time in
      if Py.Qltb REFRESH_INTERVAL (now - last) then _refresh_proxy_list
      else ret tt
  end.

(** [get_best_proxy] (lines 172-195) *)
Definition get_best_proxy (exclude_urls : option (list string)) : M (option string) :=
  _ensure_fresh_proxies ;;
  let exclude_set : gset string := list_to_set (default [] exclude_urls) in
  let* w := get_world in
  let healthy := _get_healthy_proxies (w_proxies w) in
  let not_excluded (p : ProxyInfo) := negb (bool_decide (url p ∈ exclude_set)) in
  match List.find not_excluded healthy with
  | Some proxy => ret (Some (url proxy))
  | None =>
      match List.find not_excluded (Dict.values (w_proxies w)) with
      | Some proxy => ret (Some (url proxy))
      | None => ret None
      end
  end.

(** [report_success] (lines 251-271) *)
Definition report_success (proxy_url : string) (response_time : Q) : M unit :=
  let* w := get_world in
  match Dict.get proxy_url (w_proxies w) with
  | None => ret tt
  | Some proxy =>
      let* t_used := time_time in
      let* t_success := time_time in
      modify (with_proxies
                (Dict.set proxy_url
                   (record_success_on proxy t_used t_success response_time)))
  end.

(** [report_failure] (lines 273-292) *)
Definition report_failure (proxy_url : string) : M unit :=
  let* w := get_world in
  match Dict.get proxy_url (w_proxies w) with
  | None => ret tt
  | Some proxy =>
      let* t_used := time_time in
      let* t_failure := time_time in
      modify (with_proxies
                (Dict.set proxy_url (record_failure_on proxy t_used t_failure)))
  end.

Definition health_check_request (proxy_url : string) : Request :=
  mkRequest EpHealthCheck "" (Some (PyStr proxy_url)).

(** [health_check_proxy] (lines 310-341) *)
Definition health_check_proxy (proxy_url : string) : M bool :=
  try_except
    (let* start_time := time_time in
     let* response := session_request (health_check_request proxy_url) in
     let* now := time_time in
     let response_time := (now - start_time)%Q in
     if (status_code response =? 200)%Z then
       report_success proxy_url response_time ;; ret true
     else
       report_failure proxy_url ;; ret false)
    is_Exception
    (fun _ => report_failure proxy_url ;; ret false).

(** The loop of [bind_proxy_to_token]: [remaining] is
    [max_attempts - attempts]. *)
Fixpoint bind_loop (remaining : nat) (token_id : Z) (tried_proxies : gset string)
    : M (option string) :=
  match remaining with
  | O => ret None
  | S remaining' =>
      let* proxy_url :=
        get_best_proxy
          (if bool_decide (tried_proxies = ∅) then None
           else Some (elements tried_proxies)) in
      match proxy_url with
      | None => ret None
      | Some u =>
          if String.eqb u "" then ret None
          else
            let tried_proxies' := {[ u ]} ∪ tried_proxies in
            let* is_working := health_check_proxy u in
            if is_working then
              modify (with_db
                        (Database.update_token token_id
                           (Database.mkFields None None None (Some u)
                              None None None None))) ;;
              ret (Some u)
            else bind_loop remaining' token_id tried_proxies'
      end
  end.

(** [bind_proxy_to_token] (lines 197-249) *)
Definition bind_proxy_to_token (token_id : Z) (exclude_urls : option (list string))
    (max_attempts : Z) : M (option string) :=
  let* w := get_world in
  let all_tokens := Database.get_all_tokens (w_db w) in
  let used := used_proxies all_tokens token_id in
  let all_excluded :=
    (elements used
     ++ match exclude_urls with
        | Some (x :: l) => x :: l
        | _ => []
        end)%list in
  let tried_proxies : gset string := list_to_set all_excluded in
  bind_loop (Z.to_nat max_attempts) token_id tried_proxies.

(** The inner task [test_proxy] of [find_fastest_working_proxy]. *)
Definition test_proxy (proxy_url : string) : M (option (string * Q)) :=
  try_except
    (let* start_time := time_time in
     let* response := session_request (health_check_request proxy_url) in
     let* now := time_time in
     let response_time := (now - start_time)%Q in
     if (status_code response =? 200)%Z then
       report_success proxy_url response_time ;;
       ret (Some (proxy_url, response_time))
     else
       report_failure proxy_url ;; ret None)
    is_Exception
    (fun _ => report_failure proxy_url ;; ret None).

(** The results kept from [completed]: tuples, not exceptions, not [None]. *)
Fixpoint collect_results (completed : list (result (option (string * Q))))
    : list (string * Q) :=
  match completed with
  | [] => []
  | Ok (Some r) :: rest => r :: collect_results rest
  | _ :: rest => collect_results rest
  end.

Definition proxies_to_test (exclude_urls : option (list string)) (max_test : Z)
    (pool : Dict.t ProxyInfo) : list string :=
  let exclude_set : gset string := list_to_set (default [] exclude_urls) in
  slice_to max_test
    (map url
       (List.filter (fun p => negb (bool_decide (url p ∈ exclude_set)))
          (_get_healthy_proxies pool))).

(** [find_fastest_working_proxy] (lines 375-445); [max_concurrent] only
    bounds the parallelism. *)
Definition find_fastest_working_proxy (exclude_urls : option (list string))
    (max_test : Z) (max_concurrent : Z) : M (option (string * Q)) :=
  _ensure_fresh_proxies ;;
  let* w := get_world in
  let to_test := proxies_to_test exclude_urls max_test (w_proxies w) in
  match to_test with
  | [] => ret None
  | _ =>
      let* completed := gather (map test_proxy to_test) in
      let results := collect_results completed in
      match sort_by_time results with
      | [] => ret None
      | fastest :: _ => ret (Some fastest)
      end
  end.

(** *** [ProxyManager] *)

(** [get_proxy_url] (proxy_manager.py, lines 29-72): the pair
    [(proxy_url, bind_action)]. *)
Definition global_fallback : M (option string * option string) :=
  let* w := get_world in
  let config := Database.proxy_config (w_db w) in
  if proxy_enabled config && Py.truthy_str (cfg_proxy_url config)
  then ret (cfg_proxy_url config, Some "global")
  else ret (None, None).

Definition get_proxy_url (token_id : option Z) (proxy_url : option string)
    : M (option string * option string) :=
  if Py.truthy_str proxy_url then ret (proxy_url, None)
  else
    match token_id with
    | Some tid =>
        let* w := get_world in
        let token := Database.get_token tid (w_db w) in
        match token with
        | Some tk =>
            if Py.truthy_str (Token.proxy_url tk) then ret (Token.proxy_url tk, None)
            else if w_free_proxy_enabled w && w_free_proxy_manager w then
              initialize ;;
              let* new_proxy := bind_proxy_to_token tid None 10 in
              if Py.truthy_str new_proxy then ret (new_proxy, Some "bound")
              else global_fallback
            else global_fallback
        | None => global_fallback
        end
    | None => global_fallback
    end.

(** *** [TokenManager]: remote calls *)

(** The value a caller holds after
    [proxy_url = await self.proxy_manager.get_proxy_url(...)]: the tuple
    object itself. *)
Definition py_of_pair (p : option string * option string) : PyVal :=
  PyTuple (fst p) (snd p).

(** [if proxy_url: kwargs["proxy"] = proxy_url] *)
Definition proxy_kwarg (proxy_url : PyVal) : option PyVal :=
  if truthy proxy_url then Some proxy_url else None.

(** [decode_jwt] (lines 24-30) *)
Definition decode_jwt (token : string) : M Jwt :=
  match jwt_decode env token with
  | inl decoded => ret decoded
  | inr msg => raise (mkExn ValueError ("Invalid JWT token: " ++ msg))
  end.

(** [_generate_random_username] (lines 32-60): the name source and the
    random choices are outside the process. *)
Definition _generate_random_username : M string :=
  fun w => match random_username env (w_draws w) with
           | inl u => (Ok u, with_draw w)
           | inr msg => (Raise (mkExn OtherException msg), with_draw w)
           end.

(** [get_user_info] (lines 62-117) *)
Definition get_user_info (access_token : string) (token_id : option Z)
    (proxy_url : option string) : M Body :=
  let* proxy_url := get_proxy_url token_id proxy_url in
  let* response :=
    session_request
      (mkRequest EpMe access_token (proxy_kwarg (py_of_pair proxy_url))) in
  if negb (status_code response =? 200)%Z then
    (if (status_code response =? 401)%Z then
       try_except
         (let* error_data := response_json response in
          let* d := as_dict error_data in
          let error_code :=
            default "" (err_code (default no_error_info (j_error d))) in
          if String.eqb error_code "token_invalidated" then
            raise (mkExn ValueError
                     "401 token_invalidated: Token has been invalidated")
          else ret tt)
         is_ValueError_or_KeyError
         (fun _ => ret tt)
     else ret tt) ;;
    raise (mkExn ValueError
             ("Failed to get user info: "
              ++ Py.str_of_int (status_code response)))
  else response_json response.

Record SubInfo := mkSubInfo {
  si_plan_type : string;
  si_plan_title : string;
  si_subscription_end : string
}.

(** [get_subscription_info] (lines 119-190) *)
Definition get_subscription_info (token : string) (token_id : option Z)
    (proxy_url : option string) : M SubInfo :=
  let* proxy_url := get_proxy_url token_id proxy_url in
  let* response :=
    session_request
      (mkRequest EpSubscriptions token (proxy_kwarg (py_of_pair proxy_url))) in
  if (status_code response =? 200)%Z then
    let* data := response_json response in
    let* d := as_dict data in
    match j_data d with
    | Some (subscription :: _) =>
        ret (mkSubInfo (default "" (plan_id subscription))
               (default "" (plan_title_of subscription))
               (default "" (end_ts subscription)))
    | _ => ret (mkSubInfo "" "" "")
    end
  else
    try_except
      (let* error_data := response_json response in
       let* d := as_dict error_data in
       let error_info := default no_error_info (j_error d) in
       if bool_decide (err_code error_info = Some "token_expired") then
         raise (mkExn OtherException
                  ("Token已过期: "
                   ++ default "Token expired" (err_message error_info)))
       else ret tt)
      is_ValueError
      (fun _ => ret tt) ;;
    raise (mkExn OtherException
             ("Failed to get subscription info: "
              ++ Py.str_of_int (status_code response))).

(** The dictionary [get_sora2_invite_code] returns; the two counts are
    absent from its failure results. *)
Record Sora2Info := mkSora2Info {
  s2_supported : bool;
  s2_invite_code : option string;
  s2_redeemed_count : option Z;
  s2_total_count : option Z
}.

Definition sora2_unsupported : Sora2Info := mkSora2Info false None None None.

Definition sora2_of (d : JsonObj) : Sora2Info :=
  mkSora2Info true (j_invite_code d)
    (Some (default 0%Z (j_redeemed_count d)))
    (Some (default 0%Z (j_total_count d))).

(** [get_sora2_invite_code] (lines 192-303).  A computation that yields
    [Some r] has executed [return r]. *)
Definition get_sora2_invite_code (access_token : string) (token_id : option Z)
    (proxy_url : option string) : M Sora2Info :=
  let* proxy_url := get_proxy_url token_id proxy_url in
  let kwargs_proxy := proxy_kwarg (py_of_pair proxy_url) in
  let* response :=
    session_request (mkRequest EpInviteMine access_token kwargs_proxy) in
  if (status_code response =? 200)%Z then
    let* data := response_json response in
    let* d := as_dict data in
    ret (sora2_of d)
  else
    let* returned :=
      try_except
        (let* error_data := response_json response in
         let* d := as_dict error_data in
         let error_info := default no_error_info (j_error d) in
         if bool_decide (err_code error_info = Some "unsupported_country_code") then
           raise (mkExn OtherException
                    ("Sora在您的国家/地区不可用 ("
                     ++ default "未知" (err_param error_info) ++ "): "
                     ++ default "" (err_message error_info)))
         else if (status_code response =? 401)%Z
                 && Py.contains "Unauthorized"
                      (default "" (err_message error_info)) then
           let* activated :=
             try_except
               (let* activate_response :=
                  session_request
                    (mkRequest EpBootstrap access_token kwargs_proxy) in
                if (status_code activate_response =? 200)%Z then
                  let* retry_response :=
                    session_request
                      (mkRequest EpInviteMine access_token kwargs_proxy) in
                  if (status_code retry_response =? 200)%Z then
                    let* retry_data := response_json retry_response in
                    let* rd := as_dict retry_data in
                    ret (Some (sora2_of rd))
                  else ret None
                else ret None)
               is_Exception
               (fun _ => ret None) in
           match activated with
           | Some r => ret (Some r)
           | None => ret (Some sora2_unsupported)
           end
         else ret None)
        is_ValueError
        (fun _ => ret None) in
    match returned with
    | Some r => ret r
    | None => ret sora2_unsupported
    end.

(** The dictionary [get_sora2_remaining_count] returns;
    [access_resets_in_seconds] is absent from its failure result. *)
Record RemainingInfo := mkRemainingInfo {
  ri_success : bool;
  ri_remaining_count : Z;
  ri_access_resets_in_seconds : option Z
}.

(** [get_sora2_remaining_count] (lines 305-373) *)
Definition get_sora2_remaining_count (access_token : string) (token_id : option Z)
    (proxy_url : option string) : M RemainingInfo :=
  let* proxy_url := get_proxy_url token_id proxy_url in
  let* response :=
    session_request
      (mkRequest EpNfCheck access_token (proxy_kwarg (py_of_pair proxy_url))) in
  if (status_code response =? 200)%Z then
    let* data := response_json response in
    let* d := as_dict data in
    let rate_limit_info :=
      default (mkRateLimitInfo None None None)
        (j_rate_limit_and_credit_balance d) in
    ret (mkRemainingInfo true
           (default 0%Z (estimated_num_videos_remaining rate_limit_info))
           (Some (default 0%Z (access_resets_in_seconds rate_limit_info))))
  else ret (mkRemainingInfo false 0%Z None).

(** [check_username_available] (lines 375-421) *)
Definition check_username_available (access_token username : string) : M bool :=
  let* proxy_url := get_proxy_url None None in
  let* response :=
    session_request
      (mkRequest (EpUsernameCheck username) access_token
         (proxy_kwarg (py_of_pair proxy_url))) in
  if (status_code response =? 200)%Z then
    let* data := response_json response in
    let* d := as_dict data in
    ret (default false (j_available d))
  else ret false.

(** [set_username] (lines 423-468) *)
Definition set_username (access_token username : string) : M Body :=
  let* proxy_url := get_proxy_url None None in
  let* response :=
    session_request
      (mkRequest (EpUsernameSet username) access_token
         (proxy_kwarg (py_of_pair proxy_url))) in
  if (status_code response =? 200)%Z then
    let* data := response_json response in
    let* _ := as_dict data in
    ret data
  else
    raise (mkExn OtherException
             ("Failed to set username: "
              ++ Py.str_of_int (status_code response))).

(** [not response_text or response_text.strip() == ""] *)
Definition is_space (c : ascii) : bool :=
  let n := nat_of_ascii c in
  ((9 <=? n) && (n <=? 13) || (28 <=? n) && (n <=? 32))%nat.

Fixpoint is_blank (s : string) : bool :=
  match s with
  | EmptyString => true
  | String c rest => is_space c && is_blank rest
  end.

Record StResult := mkStResult {
  st_access_token : string;
  st_email : option string;
  st_expires : option string
}.

(** [st_to_at] (lines 521-610) *)
Definition st_to_at (session_token : string) (proxy_url : option string)
    : M StResult :=
  let* proxy_url := get_proxy_url None proxy_url in
  try_except
    (let* response :=
       session_request
         (mkRequest EpAuthSession session_token
            (proxy_kwarg (py_of_pair proxy_url))) in
     if negb (status_code response =? 200)%Z then
       raise (mkExn ValueError
                ("Failed to convert ST to AT: "
                 ++ Py.str_of_int (status_code response)))
     else if is_blank (text response) then
       raise (mkExn ValueError "Response body is empty")
     else
       let* data :=
         try_except (response_json response) is_Exception
           (fun json_err =>
              raise (mkExn ValueError
                       ("Failed to parse JSON response: " ++ exn_msg json_err))) in
       match data with
       | JNull => raise (mkExn ValueError "Response JSON is empty")
       | _ =>
           let* d := as_dict data in
           match j_accessToken d with
           | Some access_token =>
               if String.eqb access_token "" then
                 raise (mkExn ValueError "Missing accessToken in response")
               else ret (mkStResult access_token (j_user_email d) (j_expires d))
           | None => raise (mkExn ValueError "Missing accessToken in response")
           end
       end)
    is_Exception
    (fun e => raise e).

Record RtResult := mkRtResult {
  rt_access_token : string;
  rt_refresh_token : option string;
  rt_expires_in : option Z
}.

Definition DEFAULT_CLIENT_ID : string := "app_LlGpXReQgckcGGUo2JrYvtJK".

(** [rt_to_at] (lines 612-704) *)
Definition rt_to_at (refresh_token : string) (client_id proxy_url : option string)
    : M RtResult :=
  let effective_client_id :=
    if Py.truthy_str client_id then default "" client_id else DEFAULT_CLIENT_ID in
  let* proxy_url := get_proxy_url None proxy_url in
  try_except
    (let* response :=
       session_request
         (mkRequest (EpOAuthToken effective_client_id) refresh_token
            (proxy_kwarg (py_of_pair proxy_url))) in
     if negb (status_code response =? 200)%Z then
       raise (mkExn ValueError
                ("Failed to convert RT to AT: "
                 ++ Py.str_of_int (status_code response)
                 ++ " - " ++ text response))
     else if is_blank (text response) then
       raise (mkExn ValueError "Response body is empty")
     else
       let* data :=
         try_except (response_json response) is_Exception
           (fun json_err =>
              raise (mkExn ValueError
                       ("Failed to parse JSON response: " ++ exn_msg json_err))) in
       match data with
       | JNull => raise (mkExn ValueError "Response JSON is empty")
       | _ =>
           let* d := as_dict data in
           match j_access_token d with
           | Some access_token =>
               if String.eqb access_token "" then
                 raise (mkExn ValueError "Missing access_token in response")
               else ret (mkRtResult access_token (j_refresh_token d) (j_expires_in d))
           | None => raise (mkExn ValueError "Missing access_token in response")
           end
       end)
    is_Exception
    (fun e => raise e).

(** *** [TokenManager]: lifecycle *)

(** [email.split("@")[0]] *)
Fixpoint before_at (s : string) : string :=
  match s with
  | EmptyString => EmptyString
  | String c rest =>
      if Ascii.eqb c "@"%char then EmptyString else String c (before_at rest)
  end.

Definition name_of_email (email : string) : string :=
  if String.eqb email "" then "" else before_at email.

(** [x or ""] for an optional string *)
Definition or_empty (o : option string) : string :=
  if Py.truthy_str o then default "" o else "".

(** [parser.parse(s)] of [dateutil]; its [ParserError] is a [ValueError]. *)
Definition parser_parse (s : string) : M Q :=
  match parse_date env s with
  | inl d => ret d
  | inr msg => raise (mkExn ValueError msg)
  end.

Definition TOKEN_EXPIRED_MARK : string := "Token已过期".
Definition UNSUPPORTED_COUNTRY_MARK : string := "Sora在您的国家/地区不可用".

(** The [try] block around [get_subscription_info] that all three callers
    share; [critical] is the test of the handler that re-raises (no test:
    nothing is re-raised).  [plan_type] and [plan_title] stay assigned when
    only the date fails to parse. *)
Definition fetch_subscription (token : string) (token_id : option Z)
    (proxy_url : option string) (critical : exn -> bool)
    : M (option string * option string * option Q) :=
  let handler (partial : option string * option string * option Q) (e : exn) :=
    if critical e then raise e else ret partial in
  try_except
    (let* sub_info := get_subscription_info token token_id proxy_url in
     let plan_type := Some (si_plan_type sub_info) in
     let plan_title := Some (si_plan_title sub_info) in
     if negb (String.eqb (si_subscription_end sub_info) "") then
       try_except
         (let* subscription_end := parser_parse (si_subscription_end sub_info) in
          ret (plan_type, plan_title, Some subscription_end))
         is_Exception
         (handler (plan_type, plan_title, None))
     else ret (plan_type, plan_title, None))
    is_Exception
    (handler (None, None, None)).

(** The [for attempt in range(max_attempts)] loop of [add_token]
    (lines 844-862). *)
Fixpoint claim_username (attempts : nat) (token_value : string) : M unit :=
  match attempts with
  | O => ret tt
  | S attempts' =>
      let* generated_username := _generate_random_username in
      let* available := check_username_available token_value generated_username in
      if available then
        let* was_set :=
          try_except
            (set_username token_value generated_username ;; ret true)
            is_Exception
            (fun _ => ret false) in
        if was_set then ret tt else claim_username attempts' token_value
      else claim_username attempts' token_value
  end.

(** [update_existing_token] (lines 901-952) *)
Definition update_existing_token (token_id : Z) (token_value : string)
    (st rt : option string) : M (option Token.t) :=
  let* decoded := decode_jwt token_value in
  let expiry_time := jwt_exp decoded in
  let jwt_email := jwt_profile_email decoded in
  try_except
    (let* user_info := get_user_info token_value None None in
     let* _ := as_dict user_info in
     ret tt)
    is_Exception
    (fun _ => ret tt) ;;
  let* (plan_type, plan_title, subscription_end) :=
    fetch_subscription token_value None None (fun _ => false) in
  modify (with_db
            (Database.update_token token_id
               (Database.mkFields (Some token_value) st rt None expiry_time
                  plan_type plan_title subscription_end))) ;;
  let* w := get_world in
  ret (Database.get_token token_id (w_db w)).

(** [add_token] (lines 706-899).  Arguments that are only copied into the
    new row (password, remark, the image and video switches) are left
    out. *)
Definition add_token (token_value : string) (st rt client_id proxy_url : option string)
    (update_if_exists skip_status_update : bool) (email : option string)
    : M (option Token.t) :=
  let* w := get_world in
  match Database.get_token_by_value token_value (w_db w) with
  | Some existing_token =>
      if negb update_if_exists then
        raise (mkExn ValueError
                 ("Token 已存在（邮箱: " ++ Token.email existing_token
                  ++ "）。如需更新，请先删除旧 Token 或使用更新功能。"))
      else update_existing_token (Token.id existing_token) token_value st rt
  | None =>
      let* decoded := decode_jwt token_value in
      let expiry_time := jwt_exp decoded in
      let jwt_email := jwt_profile_email decoded in
      let* (email, name, plan, sora2) :=
        if skip_status_update then
          let email :=
            if Py.truthy_str email then default "" email else or_empty jwt_email in
          ret (email, name_of_email email, (None, None, None),
               (None, None, (-1)%Z, (-1)%Z, (-1)%Z))
        else
          let* (email, name) :=
            try_except
              (let* user_info := get_user_info token_value None proxy_url in
               let* d := as_dict user_info in
               ret (default (or_empty jwt_email) (j_email d), or_empty (j_name d)))
              is_Exception
              (fun _ =>
                 let email := or_empty jwt_email in
                 ret (email, name_of_email email)) in
          let* plan :=
            fetch_subscription token_value None proxy_url
              (fun e => Py.contains TOKEN_EXPIRED_MARK (exn_msg e)) in
          let* sora2 :=
            try_except
              (let* sora2_info := get_sora2_invite_code token_value None proxy_url in
               let* sora2_remaining_count :=
                 if s2_supported sora2_info then
                   try_except
                     (let* remaining_info :=
                        get_sora2_remaining_count token_value None proxy_url in
                      if ri_success remaining_info
                      then ret (ri_remaining_count remaining_info)
                      else ret 0%Z)
                     is_Exception
                     (fun _ => ret 0%Z)
                 else ret 0%Z in
               ret (Some (s2_supported sora2_info), s2_invite_code sora2_info,
                    default 0%Z (s2_redeemed_count sora2_info),
                    default 0%Z (s2_total_count sora2_info),
                    sora2_remaining_count))
              is_Exception
              (fun e =>
                 if Py.contains UNSUPPORTED_COUNTRY_MARK (exn_msg e) then raise e
                 else ret (None, None, 0%Z, 0%Z, 0%Z)) in
          try_except
            (let* user_info := get_user_info token_value None proxy_url in
             let* d := as_dict user_info in
             match j_username d with
             | None => claim_username 5 token_value
             | Some _ => ret tt
             end)
            is_Exception
            (fun _ => ret tt) ;;
          ret (email, name, plan, sora2) in
      let '(plan_type, plan_title, subscription_end) := plan in
      let '(sora2_supported, sora2_invite_code, sora2_redeemed_count,
            sora2_total_count, sora2_remaining_count) := sora2 in
      let token :=
        Token.mk 0%Z token_value email name st rt client_id proxy_url
          expiry_time true false plan_type plan_title subscription_end
          sora2_supported sora2_invite_code sora2_redeemed_count
          sora2_total_count sora2_remaining_count None None in
      let* w := get_world in
      let '(token_id, db') := Database.add_token token (w_db w) in
      modify (with_db (fun _ => db')) ;;
      ret (Some (Database.set_id token_id token))
  end.

(** [disable_token] (lines 1016-1018) *)
Definition disable_token (token_id : Z) : M unit :=
  modify (with_db (Database.update_token_status token_id false)).

Record TestResult := mkTestResult {
  valid : bool;
  message : string
}.

(** [s.lower()] on the ASCII letters *)
Definition lower_char (c : ascii) : ascii :=
  let n := nat_of_ascii c in
  if ((65 <=? n) && (n <=? 90))%nat then ascii_of_nat (n + 32) else c.

Fixpoint lower (s : string) : string :=
  match s with
  | EmptyString => EmptyString
  | String c rest => String (lower_char c) (lower rest)
  end.

(** [test_token] (lines 1020-1159); of the result only [valid] and
    [message] are kept. *)
Definition test_token (token_id : Z) : M TestResult :=
  let* w := get_world in
  match Database.get_token token_id (w_db w) with
  | None => ret (mkTestResult false "Token not found")
  | Some token_data =>
      let refresh_with (access_token : string) (rt : option string) : M unit :=
        let* decoded := decode_jwt access_token in
        modify (with_db
                  (Database.update_token token_id
                     (Database.mkFields (Some access_token) None rt None
                        (jwt_exp decoded) None None None))) in
      let* (access_token, at_refreshed) :=
        if Py.truthy_str (Token.st token_data) then
          try_except
            (let* st_result :=
               st_to_at (default "" (Token.st token_data))
                 (Token.proxy_url token_data) in
             let access_token := st_access_token st_result in
             try_except
               (refresh_with access_token None ;; ret (access_token, true))
               is_Exception
               (fun _ => ret (access_token, false)))
            is_Exception
            (fun _ => ret (Token.token token_data, false))
        else ret (Token.token token_data, false) in
      let* (access_token, at_refreshed) :=
        if negb at_refreshed && Py.truthy_str (Token.rt token_data) then
          try_except
            (let* rt_result :=
               rt_to_at (default "" (Token.rt token_data))
                 (Token.client_id token_data) (Token.proxy_url token_data) in
             let access_token' := rt_access_token rt_result in
             let new_rt := rt_refresh_token rt_result in
             try_except
               (refresh_with access_token'
                  (if Py.truthy_str new_rt then new_rt else Token.rt token_data) ;;
                ret (access_token', true))
               is_Exception
               (fun _ => ret (access_token', at_refreshed)))
            is_Exception
            (fun _ => ret (access_token, at_refreshed))
        else ret (access_token, at_refreshed) in
      try_except
        (let* user_info := get_user_info access_token (Some token_id) None in
         let* d := as_dict user_info in
         modify (with_db
                   (Database.update_token_phone_verified token_id
                      (j_is_phone_number_verified d))) ;;
         let* (plan_type, plan_title, subscription_end) :=
           fetch_subscription access_token (Some token_id) None (fun _ => false) in
         let* sora2_info := get_sora2_invite_code access_token (Some token_id) None in
         let* sora2_remaining_count :=
           if s2_supported sora2_info then
             try_except
               (let* remaining_info :=
                  get_sora2_remaining_count access_token (Some token_id) None in
                if ri_success remaining_info
                then ret (ri_remaining_count remaining_info)
                else ret 0%Z)
               is_Exception
               (fun _ => ret 0%Z)
           else ret 0%Z in
         modify (with_db
                   (Database.update_token token_id
                      (Database.mkFields None None None None None
                         plan_type plan_title subscription_end))) ;;
         modify (with_db
                   (Database.update_token_sora2 token_id
                      (Some (s2_supported sora2_info))
                      (s2_invite_code sora2_info)
                      (default 0%Z (s2_redeemed_count sora2_info))
                      (default 0%Z (s2_total_count sora2_info))
                      sora2_remaining_count)) ;;
         modify (with_db (Database.clear_token_expired token_id)) ;;
         ret (mkTestResult true "Token is valid and account info updated"))
        is_Exception
        (fun e =>
           let error_msg := exn_msg e in
           if Py.contains "401" error_msg
              && Py.contains "token_invalidated" (lower error_msg) then
             modify (with_db (Database.mark_token_expired token_id)) ;;
             ret (mkTestResult false "Token已过期（token_invalidated）")
           else ret (mkTestResult false ("Token is invalid: " ++ error_msg)))
  end.

(** [update_token] (lines 958-994), with the arguments its callers in this
    file pass. *)
Definition update_token (token_id : Z) (token st rt : option string)
    (skip_status_update : bool) : M unit :=
  let* expiry_time :=
    if Py.truthy_str token then
      try_except
        (let* decoded := decode_jwt (default "" token) in ret (jwt_exp decoded))
        is_Exception
        (fun _ => ret None)
    else ret None in
  modify (with_db
            (Database.update_token token_id
               (Database.mkFields token st rt None expiry_time None None None))) ;;
  if Py.truthy_str token && negb skip_status_update then
    try_except
      (let* test_result := test_token token_id in
       if valid test_result then
         modify (with_db (Database.update_token_status token_id true)) ;;
         modify (with_db (Database.clear_token_expired token_id))
       else ret tt)
      is_Exception
      (fun _ => ret tt)
  else ret tt.

(** [record_success] (lines 1187-1213) *)
Definition record_success (token_id : Z) (is_video : bool) : M unit :=
  modify (with_db (Database.reset_error_count token_id)) ;;
  if is_video then
    try_except
      (let* w := get_world in
       match Database.get_token token_id (w_db w) with
       | Some token_data =>
           if bool_decide (Token.sora2_supported token_data = Some true) then
             let* remaining_info :=
               get_sora2_remaining_count (Token.token token_data)
                 (Some token_id) None in
             if ri_success remaining_info then
               let remaining_count := ri_remaining_count remaining_info in
               modify (with_db
                         (Database.update_token_sora2_remaining token_id
                            remaining_count)) ;;
               if (remaining_count <=? 1)%Z then
                 let reset_seconds :=
                   default 0%Z (ri_access_resets_in_seconds remaining_info) in
                 (if (0 <? reset_seconds)%Z then
                    let* now := time_time in
                    let cooldown_until := (now + inject_Z reset_seconds)%Q in
                    modify (with_db
                              (Database.update_token_sora2_cooldown token_id
                                 (Some cooldown_until)))
                  else ret tt) ;;
                 disable_token token_id
               else ret tt
             else ret tt
           else ret tt
       | None => ret tt
       end)
      is_Exception
      (fun _ => ret tt)
  else ret tt.

(** Seconds in 24 hours: [hours_until_expiry > 24] is
    [total_seconds() / 3600 > 24]. *)
Definition hours (seconds : Q) : Q := (seconds / 3600)%Q.

(** [auto_refresh_expiring_token] (lines 1239-1346).  The result is
    [Some True], [Some False], or [None] when the outer handler swallows an
    exception and the function ends without [return]. *)
Definition auto_refresh_expiring_token (token_id : Z) : M (option bool) :=
  try_except
    (let* w := get_world in
     match Database.get_token token_id (w_db w) with
     | None => ret (Some false)
     | Some token_data =>
         match Token.expiry_time token_data with
         | None => ret (Some false)
         | Some expiry_time =>
             let* now := time_time in
             let hours_until_expiry := hours (expiry_time - now) in
             if Py.Qltb 24 hours_until_expiry then ret (Some false)
             else
               let* (new_at, new_st) :=
                 if Py.truthy_str (Token.st token_data) then
                   try_except
                     (let* result := st_to_at (default "" (Token.st token_data)) None in
                      ret (Some (st_access_token result), Token.st token_data))
                     is_Exception
                     (fun _ => ret (None, None))
                 else ret (None, None) in
               let* (new_at, new_rt) :=
                 if negb (Py.truthy_str new_at) && Py.truthy_str (Token.rt token_data) then
                   try_except
                     (let* result :=
                        rt_to_at (default "" (Token.rt token_data))
                          (Token.client_id token_data) None in
                      ret (Some (rt_access_token result), rt_refresh_token result))
                     is_Exception
                     (fun _ => ret (None, None))
                 else ret (new_at, None) in
               if Py.truthy_str new_at then
                 update_token token_id new_at new_st new_rt false ;;
                 let* w' := get_world in
                 match Database.get_token token_id (w_db w') with
                 | None =>
                     raise (mkExn AttributeError
                              "'NoneType' object has no attribute 'expiry_time'")
                 | Some updated_token =>
                     let* new_hours_until_expiry :=
                       match Token.expiry_time updated_token with
                       | Some new_expiry_time =>
                           let* now' := time_time in
                           ret (hours (new_expiry_time - now'))
                       | None => ret (-1)%Q
                       end in
                     if Py.Qltb new_hours_until_expiry 0 then
                       disable_token token_id ;; ret (Some false)
                     else ret (Some true)
                 end
               else
                 disable_token token_id ;; ret (Some false)
         end
     end)
    is_Exception
    (fun _ => ret None).

(** *** Further operations of [FreeProxyManager] *)

(** [rebind_proxy_on_failure] (lines 294-308) *)
Definition rebind_proxy_on_failure (token_id : Z) (failed_proxy_url : string)
    : M (option string) :=
  report_failure failed_proxy_url ;;
  bind_proxy_to_token token_id (Some [failed_proxy_url]) 10.

(** The inner task [check_with_semaphore] of [batch_health_check]. *)
Definition check_with_semaphore (proxy_url : string) : M (string * bool) :=
  let* is_healthy := health_check_proxy proxy_url in
  ret (proxy_url, is_healthy).

(** [batch_health_check] (lines 343-373); [max_concurrent] only bounds the
    parallelism. *)
Definition batch_health_check (max_concurrent : Z) : M (Dict.t bool) :=
  _ensure_fresh_proxies ;;
  let* w := get_world in
  let* completed :=
    gather (map check_with_semaphore (Dict.keys (w_proxies w))) in
  ret (collect_checks completed []).

Record FastestResult := mkFastestResult {
  fr_proxy_url : string;
  fr_response_time : Q
}.

(** [bind_fastest_proxy_to_token] (lines 447-471) *)
Definition bind_fastest_proxy_to_token (token_id : Z) : M (option FastestResult) :=
  let* w := get_world in
  let all_tokens := Database.get_all_tokens (w_db w) in
  let used_proxies := used_proxy_list all_tokens token_id in
  let* result := find_fastest_working_proxy (Some used_proxies) 100 20 in
  match result with
  | Some (proxy_url, response_time) =>
      modify (with_db
                (Database.update_token token_id
                   (Database.mkFields None None None (Some proxy_url)
                      None None None None))) ;;
      ret (Some (mkFastestResult proxy_url (round2 response_time)))
  | None => ret None
  end.

(** [get_stats] (lines 473-496) *)
Definition get_stats : M PoolStats :=
  let* w := get_world in
  let total := Z.of_nat (length (w_proxies w)) in
  let healthy :=
    Z.of_nat (length (List.filter is_healthy (Dict.values (w_proxies w)))) in
  let '(by_country, by_anonymity) :=
    fold_left
      (fun '(by_country, by_anonymity) proxy =>
         (count_up (country proxy) by_country,
          count_up (anonymity proxy) by_anonymity))
      (Dict.values (w_proxies w)) ([], []) in
  ret (mkPoolStats total healthy (total - healthy)
         (match w_last_refresh w with
          | Some t => if Py.Qeqb t 0 then None else Some t
          | None => None
          end)
         by_country by_anonymity).

(** [get_proxy_list] (lines 498-521) *)
Definition get_proxy_list : M (list ProxyRow) :=
  let* w := get_world in
  ret (map row_of (sort_by_health (Dict.values (w_proxies w)))).

(** *** Further operations of [ProxyManager] *)

(** [set_free_proxy_manager] (proxy_manager.py, lines 19-27), called with
    the manager of this process. *)
Definition set_free_proxy_manager (enabled : bool) : M unit :=
  modify (with_free_proxy true enabled).

(** [report_proxy_success] (lines 74-86) *)
Definition report_proxy_success (token_id : option Z) (response_time : Q) : M unit :=
  let* w := get_world in
  if negb (w_free_proxy_manager w) || negb (truthy_id token_id) then ret tt
  else
    match Database.get_token (default 0%Z token_id) (w_db w) with
    | Some token =>
        if Py.truthy_str (Token.proxy_url token) then
          report_success (default "" (Token.proxy_url token)) response_time
        else ret tt
    | None => ret tt
    end.

(** [report_proxy_failure] (lines 88-109) *)
Definition report_proxy_failure (token_id : option Z) : M (option string) :=
  let* w := get_world in
  if negb (w_free_proxy_manager w) || negb (truthy_id token_id) then ret None
  else
    match Database.get_token (default 0%Z token_id) (w_db w) with
    | None => ret None
    | Some token =>
        if negb (Py.truthy_str (Token.proxy_url token)) then ret None
        else
          let proxy_url := default "" (Token.proxy_url token) in
          if str_in proxy_url (map url (Dict.values (w_proxies w))) then
            rebind_proxy_on_failure (default 0%Z token_id) proxy_url
          else ret None
    end.

(** [update_proxy_config] and [get_proxy_config] (lines 111-117) *)
Definition update_proxy_config (enabled : bool) (proxy_url : option string) : M unit :=
  modify (with_db (Database.update_proxy_config enabled proxy_url)).

Definition get_proxy_config : M ProxyConfig :=
  let* w := get_world in
  ret (Database.proxy_config (w_db w)).

(** *** Further operations of [TokenManager] *)

(** [enable_token] (token_manager.py, lines 1008-1014) *)
Definition enable_token (token_id : Z) : M unit :=
  modify (with_db (Database.update_token_status token_id true)) ;;
  modify (with_db (Database.reset_error_count token_id)) ;;
  modify (with_db (Database.clear_token_expired token_id)).

(** [record_error] (lines 1170-1185) *)
Definition record_error (token_id : Z) (is_overload : bool) : M unit :=
  modify (with_db (Database.increment_error_count token_id (negb is_overload))) ;;
  if negb is_overload then
    let* w := get_world in
    let stats := Database.get_token_stats token_id (w_db w) in
    let error_ban_threshold := Database.error_ban_threshold (w_db w) in
    match stats with
    | Some s =>
        if (error_ban_threshold <=? consecutive_error_count s)%N then
          modify (with_db (Database.update_token_status token_id false))
        else ret tt
    | None => ret tt
    end
  else ret tt.

(** [refresh_sora2_remaining_if_cooldown_expired] (lines 1215-1237) *)
Definition refresh_sora2_remaining_if_cooldown_expired (token_id : Z) : M unit :=
  try_except
    (let* w := get_world in
     match Database.get_token token_id (w_db w) with
     | None => ret tt
     | Some token_data =>
         if negb (bool_decide (Token.sora2_supported token_data = Some true))
         then ret tt
         else
           match Token.sora2_cooldown_until token_data with
           | None => ret tt
           | Some sora2_cooldown_until =>
               let* now := time_time in
               if negb (Py.Qltb now sora2_cooldown_until) then
                 try_except
                   (let* remaining_info :=
                      get_sora2_remaining_count (Token.token token_data)
                        (Some token_id) None in
                    if ri_success remaining_info then
                      let remaining_count := ri_remaining_count remaining_info in
                      modify (with_db
                                (Database.update_token_sora2_remaining token_id
                                   remaining_count)) ;;
                      modify (with_db
                                (Database.update_token_sora2_cooldown token_id
                                   None))
                    else ret tt)
                   is_Exception
                   (fun _ => ret tt)
               else ret tt
           end
     end)
    is_Exception
    (fun _ => ret tt).

End Services.


(** ** Vocabulary of the statements *)

(** A computation that cannot raise. *)
Definition total {A} (m : M A) : Prop :=
  forall w, exists a w', m w = (Ok a, w').

(** The origin score of a fetched element, 0 when it has none. *)
Definition score_of (pd : ProxyData) : Q := default 0%Q (pd_score pd).

(** The filter of a pool refresh in the words of the specification: minimum
    origin score, non-empty address and port, protocol in the allow-list. *)
Definition passes_filter (pd : ProxyData) : bool :=
  negb (Py.Qltb (score_of pd) MIN_SCORE)
  && negb (String.eqb (default "" (pd_ip pd)) "")
  && negb (default 0 (pd_port pd) =? 0)%Z
  && str_in (default "http" (pd_protocol pd)) ALLOWED_PROTOCOLS.

(** The unique key [protocol://ip:port]. *)
Definition key_of (pd : ProxyData) : string :=
  default "http" (pd_protocol pd) ++ "://" ++ default "" (pd_ip pd) ++ ":"
  ++ Py.str_of_int (default 0%Z (pd_port pd)).

(** Zeroed health state, healthy. *)
Definition fresh_health (r : ProxyInfo) : Prop :=
  success_count r = 0%N /\ failure_count r = 0%N /\ last_used r = None
  /\ last_success r = None /\ last_failure r = None
  /\ avg_response_time r = 0%Q /\ is_healthy r = true.

(** The same health fields. *)
Definition same_health (e r : ProxyInfo) : Prop :=
  success_count r = success_count e /\ failure_count r = failure_count e
  /\ last_used r = last_used e /\ last_success r = last_success e
  /\ last_failure r = last_failure e
  /\ avg_response_time r = avg_response_time e
  /\ is_healthy r = is_healthy e.

Definition proxy_list_request : Request := mkRequest EpProxyList "" None.

(** The world after [_refresh_proxy_list]. *)
Definition refreshed (env : Env) (w : World) : World :=
  let o := remote env (length (w_log w)) proxy_list_request in
  let w1 := with_logged proxy_list_request o w in
  match o with
  | Response r =>
      if (status_code r =? 200)%Z then
        match json r with
        | Some (JArray items) =>
            with_last_refresh (Some (clock env (w_ticks w)))
              (with_tick
                 (with_proxies
                    (fun _ => snd (refresh_entries (w_proxies w) items)) w1))
        | _ => w1
        end
      else w1
  | TransportError _ => w1
  end.

(** The operations that write the pool. *)
Inductive pool_op :=
| OpReportSuccess (proxy_url : string) (response_time : Q)
| OpReportFailure (proxy_url : string)
| OpRefresh.

Definition run_op (env : Env) (op : pool_op) : M unit :=
  match op with
  | OpReportSuccess u rt => report_success env u rt
  | OpReportFailure u => report_failure env u
  | OpRefresh => _refresh_proxy_list env
  end.

Definition is_report_success_of (u : string) (op : pool_op) : bool :=
  match op with
  | OpReportSuccess u' _ => String.eqb u u'
  | _ => false
  end.

(** The record under [u], if the pool still has one, is unhealthy. *)
Definition absent_or_unhealthy (u : string) (w : World) : Prop :=
  match Dict.get u (w_proxies w) with
  | Some p => is_healthy p = false
  | None => True
  end.

(** Health checks in a request log. *)
Definition is_probe (e : Request * Outcome) : bool :=
  match req_endpoint (fst e) with
  | EpHealthCheck => true
  | _ => false
  end.

Definition probe_count (l : list (Request * Outcome)) : nat :=
  length (List.filter is_probe l).

(** The log holds a health check through [u] that was answered 200. *)
Definition probed_ok (u : string) (l : list (Request * Outcome)) : Prop :=
  exists r, In (health_check_request u, Response r) l /\ status_code r = 200%Z.

(** A stretch of log without health checks: only fetches of the list. *)
Definition quiet (l : list (Request * Outcome)) : Prop :=
  Forall (fun e => req_endpoint (fst e) = EpProxyList) l.

(** The columns [bind_proxy_to_token] writes. *)
Definition bind_fields (u : string) : Database.fields :=
  Database.mkFields None None None (Some u) None None None None.

(** The first element is a lower bound of the list. *)
Definition head_least (l : list (string * Q)) : Prop :=
  match l with
  | [] => True
  | h :: _ => forall y, In y l -> (snd h <= snd y)%Q
  end.

(** The storage after a call that may have bound a free proxy to
    [token_id]. *)
Definition maybe_bound (token_id : option Z) (db db' : Database.t) : Prop :=
  db' = db
  \/ exists tid u, token_id = Some tid
       /\ db' = Database.update_token tid (bind_fields u) db.

(** A computation that leaves the world as it is. *)
Definition stateless {A} (m : M A) : Prop := forall w, snd (m w) = w.

(** What [get_sora2_remaining_count] makes of the outcome of its request. *)
Definition quota_answer (o : Outcome) : result RemainingInfo :=
  match o with
  | TransportError msg => Raise (mkExn OtherException msg)
  | Response r =>
      if (status_code r =? 200)%Z then
        match json r with
        | Some (JObject d) =>
            let info :=
              default (mkRateLimitInfo None None None)
                (j_rate_limit_and_credit_balance d) in
            Ok (mkRemainingInfo true
                  (default 0%Z (estimated_num_videos_remaining info))
                  (Some (default 0%Z (access_resets_in_seconds info))))
        | Some (JArray _) =>
            Raise (mkExn AttributeError "'list' object has no attribute 'get'")
        | Some JNull =>
            Raise (mkExn AttributeError
                     "'NoneType' object has no attribute 'get'")
        | None => Raise (mkExn ValueError "Expecting value")
        end
      else Ok (mkRemainingInfo false 0%Z None)
  end.

(** A computation that leaves the storage as it is. *)
Definition keeps_db {A} (m : M A) : Prop := forall w, w_db (snd (m w)) = w_db w.

(** The string has no occurrence of the character. *)
Fixpoint lacks (c : ascii) (s : string) : bool :=
  match s with
  | EmptyString => true
  | String a rest => negb (Ascii.eqb c a) && lacks c rest
  end.

(** [get_proxy_url] without a credential id: the explicit proxy, or the
    global fallback. *)
Definition resolve_direct (proxy_url : option string) (db : Database.t)
    : option string * option string :=
  if Py.truthy_str proxy_url then (proxy_url, None)
  else
    let config := Database.proxy_config db in
    if proxy_enabled config && Py.truthy_str (cfg_proxy_url config)
    then (cfg_proxy_url config, Some "global")
    else (None, None).

(** The error code of a JSON error body. *)
Definition error_code_of (r : HttpResponse) : option string :=
  match json r with
  | Some (JObject d) => err_code (default no_error_info (j_error d))
  | _ => None
  end.

(** The subscription endpoint reports the credential as expired. *)
Definition token_expired_answer (o : Outcome) : bool :=
  match o with
  | Response r =>
      negb (status_code r =? 200)%Z
      && bool_decide (error_code_of r = Some "token_expired")
  | TransportError _ => false
  end.

(** The invite endpoint reports the account region as unsupported. *)
Definition unsupported_country_answer (o : Outcome) : bool :=
  match o with
  | Response r =>
      negb (status_code r =? 200)%Z
      && bool_decide (error_code_of r = Some "unsupported_country_code")
  | TransportError _ => false
  end.

(** The messages of the HTTP client and of the date parser do not happen to
    contain the texts the handlers of [add_token] look for. *)
Definition benign (env : Env) : Prop :=
  (forall n rq msg,
     remote env n rq = TransportError msg ->
     Py.contains TOKEN_EXPIRED_MARK msg = false
     /\ Py.contains UNSUPPORTED_COUNTRY_MARK msg = false)
  /\ (forall s msg,
        parse_date env s = inr msg ->
        Py.contains TOKEN_EXPIRED_MARK msg = false).

(** A computation that deletes no row of the token table. *)
Definition keeps_rows {A} (m : M A) : Prop :=
  forall w tid,
    is_Some (Database.get_token tid (w_db w)) ->
    is_Some (Database.get_token tid (w_db (snd (m w)))).

Definition rows_preserving (f : Database.t -> Database.t) : Prop :=
  forall db tid,
    is_Some (Database.get_token tid db) -> is_Some (Database.get_token tid (f db)).

(** The exchange through the short-lived (session) credential, when the
    credential has one: the new primary credential on success. *)
Definition exchange_st (env : Env) (token_data : Token.t) (w : World)
    : option string * World :=
  if Py.truthy_str (Token.st token_data) then
    match st_to_at env (default "" (Token.st token_data)) None w with
    | (Ok result, w') => (Some (st_access_token result), w')
    | (Raise _, w') => (None, w')
    end
  else (None, w).

(** The exchange through the long-lived (refresh) credential, when the
    credential has one: the new primary credential and the rotated refresh
    credential on success. *)
Definition exchange_rt (env : Env) (token_data : Token.t) (w : World)
    : option (string * option string) * World :=
  if Py.truthy_str (Token.rt token_data) then
    match rt_to_at env (default "" (Token.rt token_data))
            (Token.client_id token_data) None w with
    | (Ok result, w') => (Some (rt_access_token result, rt_refresh_token result), w')
    | (Raise _, w') => (None, w')
    end
  else (None, w).

(** Short-lived first, long-lived second: the first success, with the
    arguments [update_token] then receives. *)
Definition exchange (env : Env) (token_data : Token.t) (w : World)
    : option (string * option string * option string) * World :=
  match exchange_st env token_data w with
  | (Some new_at, w1) => (Some (new_at, Token.st token_data, None), w1)
  | (None, w1) =>
      match exchange_rt env token_data w1 with
      | (Some (new_at, new_rt), w2) => (Some (new_at, None, new_rt), w2)
      | (None, w2) => (None, w2)
      end
  end.

(** The last step of [update_token]: the stored credential is tested and,
    when valid, re-enabled. *)
Definition revalidate (env : Env) (token_id : Z) : M unit :=
  try_except
    (let* test_result := test_token env token_id in
     if valid test_result then
       modify (with_db (Database.update_token_status token_id true)) ;;
       modify (with_db (Database.clear_token_expired token_id))
     else ret tt)
    is_Exception
    (fun _ => ret tt).

(** The requests of the two exchanges. *)
Definition st_request (st : string) (db : Database.t) : Request :=
  let p := resolve_direct None db in
  mkRequest EpAuthSession st (Some (PyTuple (fst p) (snd p))).

Definition rt_request (rt : string) (client_id : option string) (db : Database.t)
    : Request :=
  let p := resolve_direct None db in
  mkRequest
    (EpOAuthToken
       (if Py.truthy_str client_id then default "" client_id
        else DEFAULT_CLIENT_ID))
    rt (Some (PyTuple (fst p) (snd p))).

(** Every value the computation returns satisfies [P]. *)
Definition returns {A} (P : A -> Prop) (m : M A) : Prop :=
  forall w a w', m w = (Ok a, w') -> P a.

(** What holds of [self._proxies] and [new_proxies] after the elements
    [seen] of the fetched list, starting from the pool [old0]. *)
Record refresh_inv (old0 : Dict.t ProxyInfo) (seen : list ProxyData)
    (st : Dict.t ProxyInfo * Dict.t ProxyInfo) : Prop := {
  inv_old : forall u,
    match Dict.get u old0 with
    | Some e => exists s, Dict.get u (fst st) = Some (set_score s e)
    | None => Dict.get u (fst st) = None
    end;
  inv_new : forall u r,
    Dict.get u (snd st) = Some r ->
    exists pd, In pd seen /\ passes_filter pd = true /\ key_of pd = u
      /\ match Dict.get u old0 with
         | Some e => r = set_score (score_of pd) e
         | None => url r = u /\ score r = score_of pd /\ fresh_health r
         end;
  inv_keys : forall pd,
    In pd seen -> passes_filter pd = true ->
    exists r, Dict.get (key_of pd) (snd st) = Some r
}.

(** ** Sample inputs *)

Module Sample.

(** A probed proxy: one success, no failure, ten seconds on average. *)
Definition slow_proxy : ProxyInfo :=
  mkProxyInfo "socks5://10.0.0.1:1080" "socks5" "10.0.0.1" 1080 false "elite"
    1%Q "US" 1%N 0%N None None None 10%Q true.

(** A known proxy with four successes and two failures. *)
Definition known_proxy : ProxyInfo :=
  mkProxyInfo "socks5://10.0.0.1:1080" "socks5" "10.0.0.1" 1080 false "elite"
    (6 # 10) "US" 4%N 2%N (Some 900%Q) (Some 900%Q) (Some 800%Q) (3 # 2) true.

(** The fetched list: the known proxy with a new score, a new proxy, and an
    HTTP proxy, which the filter rejects. *)
Definition fetched : list ProxyData :=
  [ mkProxyData (Some (9 # 10)) (Some "socks5") (Some "10.0.0.1") (Some 1080%Z)
      (Some false) (Some "elite") (Some "US");
    mkProxyData (Some (8 # 10)) (Some "socks5") (Some "10.0.0.2") (Some 1080%Z)
      (Some true) (Some "anonymous") None;
    mkProxyData (Some 1%Q) (Some "http") (Some "10.0.0.3") (Some 8080%Z)
      None None None ].

Definition ok (b : option Body) : Outcome :=
  Response (mkHttpResponse 200 "{}" b).

Definition failed (status : Z) : Outcome :=
  Response (mkHttpResponse status "" None).

(** The list source answers; only the proxy 10.0.0.2 reaches the health
    check target; every other call is refused with a 403. *)
Definition remote (n : nat) (r : Request) : Outcome :=
  match req_endpoint r with
  | EpProxyList => ok (Some (JArray fetched))
  | EpHealthCheck =>
      match req_proxy r with
      | Some (PyStr "socks5://10.0.0.2:1080") => ok None
      | _ => failed 503
      end
  | _ => failed 403
  end.

Definition env : Env :=
  mkEnv (fun n => inject_Z (1000 + Z.of_nat n)) remote
    (fun _ => inr "Not enough segments") (fun _ => inr "Unknown string format")
    (fun _ => inl "janedoe42").

Definition empty_db : Database.t :=
  Database.mk ∅ ∅ (mkProxyConfig false None) 3%N.

(** A pool that holds the known proxy and was never refreshed. *)
Definition world : World :=
  mkWorld [("socks5://10.0.0.1:1080", known_proxy)] None false true true
    empty_db 0 0 [].

(** A credential that supports Sora2, has a proxy of its own and no
    cooldown. *)
Definition token1 : Token.t :=
  Token.mk 1 "at-1" "jane@example.org" "jane" (Some "st-1") (Some "rt-1") None
    (Some "socks5://10.0.0.9:1080") (Some 2000%Q) true false None None None
    (Some true) None 0 0 5 None None.

Definition db1 : Database.t :=
  Database.mk {[ 1%Z := token1 ]} {[ 1%Z := mkTokenStats 7 2 ]}
    (mkProxyConfig false None) 3%N.

Definition world1 : World := mkWorld [] None false false false db1 0 0 [].

(** The quota endpoint answers: one video left, no reset hint. *)
Definition quota_left_one : JsonObj :=
  mkJsonObj None None None None None None None None None
    (Some (mkRateLimitInfo (Some 1%Z) (Some false) None))
    None None None None None None None.

Definition remote_quota (n : nat) (r : Request) : Outcome :=
  match req_endpoint r with
  | EpNfCheck => ok (Some (JObject quota_left_one))
  | _ => failed 403
  end.

Definition env_quota : Env :=
  mkEnv (fun n => inject_Z (1000 + Z.of_nat n)) remote_quota
    (fun _ => inr "Not enough segments") (fun _ => inr "Unknown string format")
    (fun _ => inl "janedoe42").

(** A primary credential whose payload decodes. *)
Definition decoded : Jwt := mkJwt (Some 2000%Q) (Some "jane@example.org").

(** Every account endpoint refuses with a 403; dates do not parse. *)
Definition env_reg : Env :=
  mkEnv (fun n => inject_Z (1000 + Z.of_nat n)) remote
    (fun _ => inl decoded) (fun _ => inr "Unknown string format")
    (fun _ => inl "janedoe42").

(** The subscription endpoint answers 200 with an end date that is no date;
    the parser quotes the text it rejects. *)
Definition odd_subscription : JsonObj :=
  mkJsonObj None None None None None
    (Some [mkSubscription (Some "chatgpt_team") (Some "ChatGPT Business")
             (Some "Token已过期")])
    None None None None None None None None None None None.

Definition remote_odd (n : nat) (r : Request) : Outcome :=
  match req_endpoint r with
  | EpSubscriptions => ok (Some (JObject odd_subscription))
  | _ => failed 403
  end.

Definition env_odd : Env :=
  mkEnv (fun n => inject_Z (1000 + Z.of_nat n)) remote_odd
    (fun _ => inl decoded) (fun s => inr ("Unknown string format: " ++ s))
    (fun _ => inl "janedoe42").

(** The session endpoint mints a new primary credential, whose payload
    carries an expiry far ahead. *)
Definition new_session : JsonObj :=
  mkJsonObj None None None None None None None None None None None
    (Some "at-new") (Some "jane@example.org") (Some "2030-01-01") None None None.

Definition remote_session (n : nat) (r : Request) : Outcome :=
  match req_endpoint r with
  | EpAuthSession => ok (Some (JObject new_session))
  | _ => failed 403
  end.

Definition env_session : Env :=
  mkEnv (fun n => inject_Z (1000 + Z.of_nat n)) remote_session
    (fun t => if String.eqb t "at-new" then inl (mkJwt (Some 100000%Q) None)
              else inl decoded)
    (fun _ => inr "Unknown string format")
    (fun _ => inl "janedoe42").

(** Three untested proxies A, B and C for the race, a fresh pool, and a
    clock on which B answers in 0.5 s and C in 0.2 s; A is refused. *)
Definition racer (u ip : string) (s : Q) : ProxyInfo :=
  mkProxyInfo u "socks5" ip 1080 false "elite" s "US" 0%N 0%N None None None
    0%Q true.

Definition race_pool : Dict.t ProxyInfo :=
  [ ("socks5://10.0.1.1:1080", racer "socks5://10.0.1.1:1080" "10.0.1.1" (9 # 10));
    ("socks5://10.0.1.2:1080", racer "socks5://10.0.1.2:1080" "10.0.1.2" (8 # 10));
    ("socks5://10.0.1.3:1080", racer "socks5://10.0.1.3:1080" "10.0.1.3" (7 # 10)) ].

Definition race_clock (n : nat) : Q :=
  nth n [0; 1; 2; 2; 2; 10; 21 # 2; 11; 11; 20; 101 # 5; 21; 21]%Q 100%Q.

Definition remote_race (n : nat) (r : Request) : Outcome :=
  match req_endpoint r, req_proxy r with
  | EpHealthCheck, Some (PyStr "socks5://10.0.1.1:1080") => failed 503
  | EpHealthCheck, _ => ok None
  | _, _ => failed 403
  end.

Definition env_race : Env :=
  mkEnv race_clock remote_race
    (fun _ => inr "Not enough segments") (fun _ => inr "Unknown string format")
    (fun _ => inl "janedoe42").

Definition world_race : World :=
  mkWorld race_pool (Some 0%Q) true true true empty_db 0 0 [].

Definition world0 : World := mkWorld [] None false false false empty_db 0 0 [].

End Sample.

(** ** Vocabulary of the further properties *)

(** No string occurs twice. *)
Fixpoint uniq (l : list string) : bool :=
  match l with
  | [] => true
  | x :: rest => negb (str_in x rest) && uniq rest
  end.

(** The pool is a dictionary keyed by URL: no key occurs twice, and every
    record is stored under its own [url]. *)
Definition pool_wf (pool : Dict.t ProxyInfo) : bool :=
  uniq (Dict.keys pool)
  && forallb (fun kv => String.eqb (url (snd kv)) (fst kv)) pool.

(** A computation that keeps the pool such a dictionary. *)
Definition keeps_pool_wf {A} (m : M A) : Prop :=
  forall w,
    pool_wf (w_proxies w) = true -> pool_wf (w_proxies (snd (m w))) = true.

(** A result [(url, is_healthy)] of the batch check and the logged request
    it stems from: the request is the health check of [url], and
    [is_healthy] tells whether it was answered 200. *)
Definition check_of (pair : string * bool) (entry : Request * Outcome) : Prop :=
  fst entry = health_check_request (fst pair)
  /\ (snd pair = true <->
      exists r, snd entry = Response r /\ status_code r = 200%Z).

(** The sum of the counts of a dictionary of counts. *)
Definition sum_values (d : Dict.t Z) : Z := fold_right Z.add 0%Z (Dict.values d).

(** The number of records of a list that satisfy a test. *)
Definition count_where (f : ProxyInfo -> bool) (l : list ProxyInfo) : Z :=
  Z.of_nat (length (List.filter f l)).

(** The proxy stored with a credential, if the credential is known and has
    one. *)
Definition stored_proxy (token_id : option Z) (db : Database.t) : option string :=
  match token_id with
  | Some tid =>
      match Database.get_token tid db with
      | Some tk => Token.proxy_url tk
      | None => None
      end
  | None => None
  end.

(** ** Further sample inputs *)

Module Scenario.

(** A probed proxy: five successes, no failure, half a second on average. *)
Definition fast_proxy : ProxyInfo :=
  mkProxyInfo "socks5://10.0.0.4:1080" "socks5" "10.0.0.4" 1080 false "elite"
    (7 # 10) "DE" 5%N 0%N (Some 950%Q) (Some 950%Q) None (1 # 2) true.

(** The account endpoint answers 401 with the error code
    [token_invalidated]. *)
Definition invalidated : JsonObj :=
  mkJsonObj (Some (mkErrorInfo (Some "token_invalidated")
                     (Some "Token has been invalidated") None))
    None None None None None None None None None None None None None None None
    None.

Definition remote_invalidated (n : nat) (r : Request) : Outcome :=
  match req_endpoint r with
  | EpMe => Response (mkHttpResponse 401 "{}" (Some (JObject invalidated)))
  | _ => Sample.failed 403
  end.

Definition env_invalidated : Env :=
  mkEnv (fun n => inject_Z (1000 + Z.of_nat n)) remote_invalidated
    (fun _ => inl Sample.decoded) (fun _ => inr "Unknown string format")
    (fun _ => inl "janedoe42").

(** A credential that was disabled when its quota ran out; its cooldown
    ended at time 500, before the first reading of the clock. *)
Definition cooled_token : Token.t :=
  Token.mk 1 "at-1" "jane@example.org" "jane" None None None
    (Some "socks5://10.0.0.9:1080") (Some 2000%Q) false false None None None
    (Some true) None 0 0 0 (Some 500%Q) None.

Definition world_cooled : World :=
  mkWorld [] None false false false
    (Database.mk {[ 1%Z := cooled_token ]} {[ 1%Z := mkTokenStats 0 0 ]}
       (mkProxyConfig false None) 3%N)
    0 0 [].

End Scenario.

(** Every row of the token table is stored under its own id. *)
Definition db_wf (db : Database.t) : bool :=
  forallb (fun kv => (Token.id (snd kv) =? fst kv)%Z)
    (map_to_list (Database.tokens db)).

(** The address stored by a registration without status update: the one
    given, else the one of the credential's payload, else none. *)
Definition offline_email (email : option string) (decoded : Jwt) : string :=
  if Py.truthy_str email then default "" email
  else or_empty (jwt_profile_email decoded).

(** A run of error reports on one credential, in order; [true] marks an
    overload error. *)
Fixpoint record_errors (token_id : Z) (overloads : list bool) : M unit :=
  match overloads with
  | [] => ret tt
  | is_overload :: rest =>
      record_error token_id is_overload ;; record_errors token_id rest
  end.

(** The number of errors of a run that are not overload errors. *)
Definition counted (overloads : list bool) : N :=
  N.of_nat (length (List.filter negb overloads)).


(** * Properties *)

Local Open Scope py_scope.

(** ** Health score *)

Lemma health_score_untested (p : ProxyInfo) :
  (success_count p + failure_count p)%N = 0%N -> health_score p = score p.
Proof.
  intros H. unfold health_score. now rewrite H.
Qed.

(** C1 (as stated, refuted): on a record with one success and an average
    response time of ten seconds the code yields 9.1 where the formula of the
    specification yields 7. *)
Lemma health_score_not_spec_formula :
  ~ (health_score Sample.slow_proxy == spec_health_score Sample.slow_proxy)%Q.
Proof.
  vm_compute. discriminate.
Qed.

(** C1 (amended): the health score is the raw origin score when the record
    has no probes, and otherwise
    [(0.7 * successRate + 0.3 * (1 - 0.3 * min(1, avg/10))) * 10]: the time
    penalty is weighted by 0.3 before it is subtracted from 1. *)
Theorem health_score_formula (p : ProxyInfo) :
  (health_score p ==
   if (success_count p + failure_count p =? 0)%N then score p
   else
     ((7 # 10) * (Py.N2Q (success_count p)
                  / Py.N2Q (success_count p + failure_count p))
      + (3 # 10) * (1 - (3 # 10) * Py.min 1 (avg_response_time p / 10))) * 10)%Q.
Proof.
  unfold health_score.
  destruct (success_count p + failure_count p =? 0)%N; [reflexivity|].
  cbv zeta. ring.
Qed.

(** ** Ordered dictionaries *)

Section DictFacts.
Context {V : Type}.
Implicit Types (d : Dict.t V) (k : string) (v : V).

Lemma dict_get_set_eq d k v : Dict.get k (Dict.set k v d) = Some v.
Proof.
  induction d as [|[k' v'] d IH]; simpl.
  - now rewrite String.eqb_refl.
  - destruct (String.eqb k k') eqn:E; simpl; rewrite E; auto.
Qed.

Lemma dict_get_set_ne d k k' v :
  k <> k' -> Dict.get k' (Dict.set k v d) = Dict.get k' d.
Proof.
  intros Hne. induction d as [|[k'' v''] d IH]; simpl.
  - destruct (String.eqb_spec k' k); congruence.
  - destruct (String.eqb_spec k k''); simpl.
    + subst k''. destruct (String.eqb_spec k' k); congruence.
    + now rewrite IH.
Qed.

Lemma dict_get_set d k k' v :
  Dict.get k' (Dict.set k v d) = if String.eqb k k' then Some v else Dict.get k' d.
Proof.
  destruct (String.eqb_spec k k') as [->|Hne].
  - apply dict_get_set_eq.
  - now apply dict_get_set_ne.
Qed.


End DictFacts.

(** ** The monad *)

Lemma bind_ok {A B} (m : M A) (k : A -> M B) w a w' :
  m w = (Ok a, w') -> bind m k w = k a w'.
Proof. intros H. unfold bind. now rewrite H. Qed.


Lemma total_ret {A} (a : A) : total (ret a).
Proof. intros w. now exists a, w. Qed.

Lemma total_bind {A B} (m : M A) (k : A -> M B) :
  total m -> (forall a, total (k a)) -> total (bind m k).
Proof.
  intros Hm Hk w. destruct (Hm w) as (a & w' & E).
  destruct (Hk a w') as (b & w'' & E'). exists b, w''.
  now rewrite (bind_ok _ _ _ _ _ E).
Qed.

Lemma total_try_except {A} (body : M A) (handler : exn -> M A) :
  (forall e, total (handler e)) -> total (try_except body is_Exception handler).
Proof.
  intros Hh w. unfold try_except.
  destruct (body w) as [[a|e] w'].
  - now exists a, w'.
  - simpl. apply Hh.
Qed.

Lemma total_modify f : total (modify f).
Proof. intros w. now exists tt, (f w). Qed.

Lemma total_get_world : total get_world.
Proof. intros w. now exists w, w. Qed.

Lemma total_time_time env : total (time_time env).
Proof. intros w. now eexists _, _. Qed.

Create HintDb total.

#[local] Hint Resolve total_ret total_modify total_get_world total_time_time : total.

Ltac total_step :=
  match goal with
  | |- total (bind _ _) => apply total_bind; [|intros ?]
  | |- total (try_except _ is_Exception _) => apply total_try_except; intros ?
  | |- total (match ?x with _ => _ end) => destruct x
  | |- total (let (_, _) := ?x in _) => destruct x
  | |- total _ => solve [auto with total]
  end.

Ltac total_auto := repeat total_step.

(** ** Health reports *)

Lemma total_report_success env u rt : total (report_success env u rt).
Proof. unfold report_success. total_auto. Qed.

Lemma total_report_failure env u : total (report_failure env u).
Proof. unfold report_failure. total_auto. Qed.

#[local] Hint Resolve total_report_success total_report_failure : total.

Lemma report_failure_present env u w proxy :
  Dict.get u (w_proxies w) = Some proxy ->
  report_failure env u w =
    (Ok tt,
     with_proxies
       (Dict.set u
          (record_failure_on proxy (clock env (w_ticks w))
             (clock env (S (w_ticks w)))))
       (with_tick (with_tick w))).
Proof.
  intros H. unfold report_failure, bind, get_world. now rewrite H.
Qed.

Lemma report_failure_absent env u w :
  Dict.get u (w_proxies w) = None -> report_failure env u w = (Ok tt, w).
Proof.
  intros H. unfold report_failure, bind, get_world. now rewrite H.
Qed.

Lemma report_success_present env u rt w proxy :
  Dict.get u (w_proxies w) = Some proxy ->
  report_success env u rt w =
    (Ok tt,
     with_proxies
       (Dict.set u
          (record_success_on proxy (clock env (w_ticks w))
             (clock env (S (w_ticks w))) rt))
       (with_tick (with_tick w))).
Proof.
  intros H. unfold report_success, bind, get_world. now rewrite H.
Qed.

Lemma report_success_absent env u rt w :
  Dict.get u (w_proxies w) = None -> report_success env u rt w = (Ok tt, w).
Proof.
  intros H. unfold report_success, bind, get_world. now rewrite H.
Qed.

Lemma Qltb_lt (a b : Q) : Py.Qltb a b = true <-> (a < b)%Q.
Proof. unfold Py.Qltb, Qlt. apply Z.ltb_lt. Qed.


(** The failure ratio test in exact arithmetic: more failures than
    successes. *)
Lemma failure_ratio_gt_half (s f : N) :
  (0 < f)%N ->
  Py.Qltb (1 # 2) (Py.N2Q f / Py.N2Q (s + f)) = (s <? f)%N.
Proof.
  intros Hf. apply Bool.eq_iff_eq_true. rewrite Qltb_lt, N.ltb_lt.
  unfold Py.N2Q.
  assert (Hpos : (0 < inject_Z (Z.of_N (s + f)))%Q).
  { unfold Qlt; simpl. lia. }
  assert (Hne : ~ (inject_Z (Z.of_N (s + f)) == 0)%Q).
  { intros E. rewrite E in Hpos. now apply Qlt_irrefl in Hpos. }
  split; intros H.
  - apply (Qmult_lt_compat_r _ _ _ Hpos) in H.
    unfold Qdiv in H. rewrite <- Qmult_assoc in H.
    rewrite (Qmult_comm (/ _)) in H. rewrite Qmult_inv_r in H by exact Hne.
    unfold Qlt in H; simpl in H. lia.
  - apply Qlt_shift_div_l; [exact Hpos|].
    unfold Qlt; simpl. lia.
Qed.

(** ** Pool refresh *)

Lemma set_score_id (e : ProxyInfo) : set_score (score e) e = e.
Proof. now destruct e. Qed.


Lemma same_health_set_score s e : same_health e (set_score s e).
Proof. repeat split. Qed.

Lemma refresh_entry_cases old new_proxies pd :
  refresh_entry (old, new_proxies) pd =
  if passes_filter pd then
    match Dict.get (key_of pd) old with
    | Some existing =>
        (Dict.set (key_of pd) (set_score (score_of pd) existing) old,
         Dict.set (key_of pd) (set_score (score_of pd) existing) new_proxies)
    | None =>
        (old,
         Dict.set (key_of pd)
           (mkProxyInfo (key_of pd) (default "http" (pd_protocol pd))
              (default "" (pd_ip pd)) (default 0%Z (pd_port pd))
              (default false (pd_https pd))
              (default "unknown" (pd_anonymity pd)) (score_of pd)
              (default "Unknown" (pd_country pd))
              0%N 0%N None None None 0%Q true)
           new_proxies)
    end
  else (old, new_proxies).
Proof.
  unfold refresh_entry, passes_filter, key_of, score_of.
  destruct (Py.Qltb _ MIN_SCORE); cbn [negb andb orb]; [reflexivity|].
  destruct (String.eqb (default "" (pd_ip pd)) ""); cbn [negb andb orb];
    [reflexivity|].
  destruct (default 0%Z (pd_port pd) =? 0)%Z; cbn [negb andb orb];
    [reflexivity|].
  destruct (str_in _ ALLOWED_PROTOCOLS); reflexivity.
Qed.

Lemma refresh_inv_init old0 : refresh_inv old0 [] (old0, []).
Proof.
  split; simpl.
  - intros u. destruct (Dict.get u old0) as [e|] eqn:E; [|reflexivity].
    exists (score e). now rewrite set_score_id.
  - discriminate.
  - contradiction.
Qed.

Lemma refresh_inv_step old0 seen st pd :
  refresh_inv old0 seen st ->
  refresh_inv old0 (seen ++ [pd]) (refresh_entry st pd).
Proof.
  destruct st as [old new_proxies]. intros [Hold Hnew Hkeys].
  rewrite refresh_entry_cases. simpl in *.
  destruct (passes_filter pd) eqn:Hpass.
  2:{ split; simpl.
      - exact Hold.
      - intros u r Hr. destruct (Hnew u r Hr) as (pd' & Hin & H).
        exists pd'. split; [apply in_or_app; now left|exact H].
      - intros pd' Hin Hp. apply in_app_or in Hin as [Hin|[<-|[]]].
        + now apply Hkeys.
        + congruence. }
  pose proof (Hold (key_of pd)) as Hk.
  destruct (Dict.get (key_of pd) old) as [existing|] eqn:Eold.
  - (* known URL: the record is kept, its score is updated in place *)
    destruct (Dict.get (key_of pd) old0) as [e|] eqn:E0; [|discriminate].
    destruct Hk as (s & Hs). injection Hs as ->.
    split; simpl.
    + intros u. rewrite dict_get_set.
      destruct (String.eqb_spec (key_of pd) u) as [<-|Hne].
      * rewrite E0. now exists (score_of pd).
      * apply Hold.
    + intros u r. rewrite dict_get_set.
      destruct (String.eqb_spec (key_of pd) u) as [<-|Hne].
      * intros [= <-]. exists pd. rewrite E0.
        repeat split; auto. apply in_or_app; right; now left.
      * intros Hr. destruct (Hnew u r Hr) as (pd' & Hin & H).
        exists pd'. split; [apply in_or_app; now left|exact H].
    + intros pd' Hin Hp. rewrite dict_get_set.
      destruct (String.eqb_spec (key_of pd) (key_of pd')) as [E|Hne]; [eauto|].
      apply in_app_or in Hin as [Hin|[<-|[]]].
      * now apply Hkeys.
      * congruence.
  - (* new URL: a fresh record *)
    destruct (Dict.get (key_of pd) old0) as [e|] eqn:E0.
    { destruct Hk as (s & Hs). discriminate. }
    split; simpl.
    + exact Hold.
    + intros u r. rewrite dict_get_set.
      destruct (String.eqb_spec (key_of pd) u) as [<-|Hne].
      * intros [= <-]. exists pd. rewrite E0.
        repeat split; auto. apply in_or_app; right; now left.
      * intros Hr. destruct (Hnew u r Hr) as (pd' & Hin & H).
        exists pd'. split; [apply in_or_app; now left|exact H].
    + intros pd' Hin Hp. rewrite dict_get_set.
      destruct (String.eqb_spec (key_of pd) (key_of pd')) as [E|Hne]; [eauto|].
      apply in_app_or in Hin as [Hin|[<-|[]]].
      * now apply Hkeys.
      * congruence.
Qed.

Lemma refresh_inv_fold old0 items : forall seen st,
  refresh_inv old0 seen st ->
  refresh_inv old0 (seen ++ items) (fold_left refresh_entry items st).
Proof.
  induction items as [|pd items IH]; intros seen st H; simpl.
  - now rewrite app_nil_r.
  - change (pd :: items) with ([pd] ++ items)%list. rewrite app_assoc.
    apply IH. now apply refresh_inv_step.
Qed.

Lemma refresh_entries_inv old0 items :
  refresh_inv old0 items (refresh_entries old0 items).
Proof.
  apply (refresh_inv_fold old0 items [] (old0, [])), refresh_inv_init.
Qed.

Lemma refresh_run env w : _refresh_proxy_list env w = (Ok tt, refreshed env w).
Proof.
  unfold _refresh_proxy_list, refreshed, try_except, bind, session_request.
  fold proxy_list_request.
  destruct (remote env (length (w_log w)) proxy_list_request) as [msg|r];
    [reflexivity|].
  destruct (status_code r =? 200)%Z; simpl; [|reflexivity].
  unfold response_json. destruct (json r) as [[items|o|]|]; simpl; try reflexivity.
  unfold refresh_entries at 1.
  destruct (fold_left refresh_entry items (w_proxies w, [])) eqn:E.
  unfold refresh_entries. simpl. rewrite E. reflexivity.
Qed.

(** C7: a successful refresh keeps, for every URL it sees again, the record
    of the pool with all its health fields and only a new origin score; gives
    every new URL a record with zeroed health state that is healthy; and the
    new pool holds exactly the URLs of the fetched elements that pass the
    filter, so a URL absent from them is dropped. *)
Theorem refresh_preserves_health env w r items :
  remote env (length (w_log w)) proxy_list_request = Response r ->
  status_code r = 200%Z ->
  json r = Some (JArray items) ->
  exists w',
    _refresh_proxy_list env w = (Ok tt, w')
    /\ w_last_refresh w' = Some (clock env (w_ticks w))
    /\ forall u,
         match Dict.get u (w_proxies w') with
         | Some rec =>
             exists pd, In pd items /\ passes_filter pd = true /\ key_of pd = u
               /\ match Dict.get u (w_proxies w) with
                  | Some existing =>
                      rec = set_score (score_of pd) existing
                      /\ same_health existing rec
                  | None => fresh_health rec
                  end
         | None =>
             forall pd, In pd items -> passes_filter pd = true -> key_of pd <> u
         end.
Proof.
  intros Hr Hs Hj. exists (refreshed env w).
  split; [apply refresh_run|].
  unfold refreshed. rewrite Hr, Hs, Hj. simpl.
  split; [reflexivity|].
  intros u. pose proof (refresh_entries_inv (w_proxies w) items) as [_ Hnew Hkeys].
  destruct (Dict.get u (snd (refresh_entries (w_proxies w) items))) as [rec|] eqn:E.
  - destruct (Hnew u rec E) as (pd & Hin & Hp & Hk & H).
    exists pd. repeat split; auto.
    destruct (Dict.get u (w_proxies w)) as [existing|].
    + subst rec. split; [reflexivity|apply same_health_set_score].
    + apply H.
  - intros pd Hin Hp Hk. destruct (Hkeys pd Hin Hp) as (r' & Hr').
    congruence.
Qed.

Lemma refresh_preserves_health_witness :
  exists w',
    _refresh_proxy_list Sample.env Sample.world = (Ok tt, w')
    /\ w_last_refresh w' = Some (clock Sample.env 0).
Proof.
  destruct (refresh_preserves_health Sample.env Sample.world
              (mkHttpResponse 200 "{}" (Some (JArray Sample.fetched)))
              Sample.fetched eq_refl eq_refl eq_refl)
    as (w' & Hrun & Htime & _).
  exists w'. split; [exact Hrun|exact Htime].
Defined.

(** ** Failure reports *)

Lemma too_many_failures_iff (s f : N) :
  too_many_failures s f = true <->
  (3 <= f)%N /\ (s = 0%N \/ (1 # 2 < Py.N2Q f / Py.N2Q (s + f))%Q).
Proof.
  unfold too_many_failures, FAILURE_THRESHOLD.
  rewrite andb_true_iff, orb_true_iff, N.leb_le, N.eqb_eq, Qltb_lt.
  reflexivity.
Qed.

Lemma refreshed_keeps_unhealthy env w u proxy :
  Dict.get u (w_proxies w) = Some proxy ->
  is_healthy proxy = false ->
  absent_or_unhealthy u (refreshed env w).
Proof.
  intros Hu Hh. unfold refreshed, absent_or_unhealthy.
  destruct (remote env (length (w_log w)) proxy_list_request) as [msg|r];
    simpl; [now rewrite Hu|].
  destruct (status_code r =? 200)%Z; simpl; [|now rewrite Hu].
  destruct (json r) as [[items| |]|]; simpl; try now rewrite Hu.
  pose proof (refresh_entries_inv (w_proxies w) items) as [_ Hnew _].
  destruct (Dict.get u (snd (refresh_entries (w_proxies w) items))) as [rec|] eqn:E;
    [|exact I].
  destruct (Hnew u rec E) as (pd & _ & _ & _ & H).
  rewrite Hu in H. now subst rec.
Qed.

(** C8: [report_failure] on a record of the pool increments its failure
    counter, stamps last-used and last-failure, and leaves it unhealthy
    exactly when it was unhealthy already or the new failure count is at
    least 3 and there is no success or the failure ratio exceeds one half;
    so a healthy record below the threshold stays healthy.  No write to the
    pool other than a [report_success] of that URL makes an unhealthy record
    healthy: after it the record is still unhealthy, or the refresh dropped
    it. *)
Theorem report_failure_marks_unhealthy env u w proxy :
  Dict.get u (w_proxies w) = Some proxy ->
  (exists w' proxy',
     report_failure env u w = (Ok tt, w')
     /\ Dict.get u (w_proxies w') = Some proxy'
     /\ failure_count proxy' = (failure_count proxy + 1)%N
     /\ success_count proxy' = success_count proxy
     /\ last_used proxy' = Some (clock env (w_ticks w))
     /\ last_failure proxy' = Some (clock env (S (w_ticks w)))
     /\ is_healthy proxy' =
          (if too_many_failures (success_count proxy') (failure_count proxy')
           then false else is_healthy proxy)
     /\ (too_many_failures (success_count proxy') (failure_count proxy') = true
         <-> (3 <= failure_count proxy')%N
             /\ (success_count proxy' = 0%N
                 \/ (1 # 2 < Py.N2Q (failure_count proxy')
                             / Py.N2Q (success_count proxy'
                                       + failure_count proxy'))%Q)))
  /\ (is_healthy proxy = false ->
      forall op w2,
        is_report_success_of u op = false ->
        run_op env op w = (Ok tt, w2) ->
        absent_or_unhealthy u w2).
Proof.
  intros Hu. split.
  - eexists _, _. split; [apply (report_failure_present _ _ _ _ Hu)|].
    simpl. rewrite dict_get_set_eq. split; [reflexivity|].
    cbn [failure_count success_count last_used last_failure is_healthy
         record_failure_on].
    do 5 (split; [reflexivity|]). apply too_many_failures_iff.
  - intros Hh op w2 Hop Hrun. destruct op as [u' rt|u'|]; simpl in *.
    + (* a success report for another URL *)
      destruct (String.eqb_spec u u') as [|Hne]; [discriminate|].
      destruct (Dict.get u' (w_proxies w)) as [p'|] eqn:E'.
      * rewrite (report_success_present _ _ _ _ _ E') in Hrun.
        injection Hrun as <-. unfold absent_or_unhealthy. simpl.
        rewrite dict_get_set_ne by congruence. now rewrite Hu.
      * rewrite (report_success_absent _ _ _ _ E') in Hrun.
        injection Hrun as <-. unfold absent_or_unhealthy. now rewrite Hu.
    + (* a failure report *)
      destruct (Dict.get u' (w_proxies w)) as [p'|] eqn:E'.
      * rewrite (report_failure_present _ _ _ _ E') in Hrun.
        injection Hrun as <-. unfold absent_or_unhealthy. simpl.
        rewrite dict_get_set.
        destruct (String.eqb_spec u' u) as [->|Hne].
        -- assert (p' = proxy) as -> by congruence. simpl.
           rewrite Hh. now destruct (too_many_failures _ _).
        -- now rewrite Hu.
      * rewrite (report_failure_absent _ _ _ E') in Hrun.
        injection Hrun as <-. unfold absent_or_unhealthy. now rewrite Hu.
    + (* a refresh *)
      rewrite refresh_run in Hrun. injection Hrun as <-.
      now apply refreshed_keeps_unhealthy with proxy.
Qed.

Lemma report_failure_marks_unhealthy_witness :
  exists w' proxy',
    report_failure Sample.env "socks5://10.0.0.1:1080" Sample.world = (Ok tt, w')
    /\ Dict.get "socks5://10.0.0.1:1080" (w_proxies w') = Some proxy'
    /\ failure_count proxy' = 3%N
    /\ is_healthy proxy' = true.
Proof.
  destruct (report_failure_marks_unhealthy Sample.env "socks5://10.0.0.1:1080"
              Sample.world Sample.known_proxy eq_refl)
    as [(w' & proxy' & Hrun & Hget & Hf & Hs & _ & _ & Hh & _) _].
  exists w', proxy'. repeat split; auto.
  rewrite Hh, Hs, Hf. reflexivity.
Defined.

(** ** Health probes *)

Lemma report_success_frame env u rt w :
  exists w', report_success env u rt w = (Ok tt, w')
    /\ w_db w' = w_db w /\ w_log w' = w_log w.
Proof.
  destruct (Dict.get u (w_proxies w)) as [p|] eqn:E.
  - rewrite (report_success_present _ _ _ _ _ E). eauto.
  - rewrite (report_success_absent _ _ _ _ E). eauto.
Qed.

Lemma report_failure_frame env u w :
  exists w', report_failure env u w = (Ok tt, w')
    /\ w_db w' = w_db w /\ w_log w' = w_log w.
Proof.
  destruct (Dict.get u (w_proxies w)) as [p|] eqn:E.
  - rewrite (report_failure_present _ _ _ _ E). eauto.
  - rewrite (report_failure_absent _ _ _ E). eauto.
Qed.

(** The run of [health_check_proxy], case by case. *)
Lemma health_check_proxy_run env u w :
  let o := remote env (length (w_log w)) (health_check_request u) in
  let w1 := with_logged (health_check_request u) o (with_tick w) in
  let latency := (clock env (S (w_ticks w)) - clock env (w_ticks w))%Q in
  exists b w',
    health_check_proxy env u w = (Ok b, w')
    /\ match o with
       | Response r =>
           if (status_code r =? 200)%Z then
             b = true /\ report_success env u latency (with_tick w1) = (Ok tt, w')
           else
             b = false /\ report_failure env u (with_tick w1) = (Ok tt, w')
       | TransportError _ =>
           b = false /\ report_failure env u w1 = (Ok tt, w')
       end.
Proof.
  intros o w1 latency. subst o w1 latency.
  unfold health_check_proxy, try_except, bind, session_request, time_time.
  cbn [w_log with_tick w_ticks].
  destruct (remote env (length (w_log w)) (health_check_request u)) as [msg|r].
  - cbn [is_Exception].
    destruct (total_report_failure env u
                (with_logged (health_check_request u) (TransportError msg)
                   (with_tick w))) as ([] & w' & E).
    exists false, w'. unfold bind. rewrite E. auto.
  - destruct (status_code r =? 200)%Z.
    + match goal with
      | |- context [report_success env u ?l ?x] =>
          destruct (total_report_success env u l x) as ([] & w' & E)
      end.
      exists true, w'. cbn [w_ticks with_logged] in *. rewrite E. auto.
    + match goal with
      | |- context [report_failure env u ?x] =>
          destruct (total_report_failure env u x) as ([] & w' & E)
      end.
      exists false, w'. rewrite E. auto.
Qed.

(** C9: [health_check_proxy] never raises.  On a 200 it returns true after
    [report_success] with the latency between its two clock readings; on any
    other status, and on a transport error, it returns false after
    [report_failure]. *)
Theorem health_check_proxy_never_raises env u w :
  exists b w',
    health_check_proxy env u w = (Ok b, w')
    /\ match remote env (length (w_log w)) (health_check_request u) with
       | Response r =>
           let w2 :=
             with_tick
               (with_logged (health_check_request u) (Response r) (with_tick w)) in
           if (status_code r =? 200)%Z then
             b = true
             /\ report_success env u
                  (clock env (S (w_ticks w)) - clock env (w_ticks w))%Q w2
                = (Ok tt, w')
           else
             b = false /\ report_failure env u w2 = (Ok tt, w')
       | TransportError msg =>
           b = false
           /\ report_failure env u
                (with_logged (health_check_request u) (TransportError msg)
                   (with_tick w))
              = (Ok tt, w')
       end.
Proof.
  destruct (health_check_proxy_run env u w) as (b & w' & Hrun & H).
  exists b, w'. split; [exact Hrun|].
  destruct (remote env (length (w_log w)) (health_check_request u)); exact H.
Qed.

(** What a caller of [health_check_proxy] relies on. *)
Lemma health_check_proxy_frame env u w :
  exists b w',
    health_check_proxy env u w = (Ok b, w')
    /\ w_db w' = w_db w
    /\ w_log w' =
         (health_check_request u,
          remote env (length (w_log w)) (health_check_request u)) :: w_log w
    /\ (b = true <->
        exists r, remote env (length (w_log w)) (health_check_request u)
                  = Response r /\ status_code r = 200%Z).
Proof.
  destruct (health_check_proxy_run env u w) as (b & w' & Hrun & H).
  exists b, w'. split; [exact Hrun|].
  destruct (remote env (length (w_log w)) (health_check_request u)) as [msg|r].
  - destruct H as [-> H].
    destruct (report_failure_frame env u
                (with_logged (health_check_request u) (TransportError msg)
                   (with_tick w))) as (w2 & E & Hdb & Hlog).
    assert (w2 = w') by congruence. subst w2.
    rewrite Hdb, Hlog. repeat split; try discriminate.
    intros (r & ? & _). discriminate.
  - destruct (status_code r =? 200)%Z eqn:Es.
    + destruct H as [-> H].
      match type of H with
      | report_success env u ?l ?x = _ =>
          destruct (report_success_frame env u l x) as (w2 & E & Hdb & Hlog)
      end.
      assert (w2 = w') by congruence. subst w2.
      rewrite Hdb, Hlog. repeat split; auto.
      intros _. exists r. split; [reflexivity|now apply Z.eqb_eq].
    + destruct H as [-> H].
      match type of H with
      | report_failure env u ?x = _ =>
          destruct (report_failure_frame env u x) as (w2 & E & Hdb & Hlog)
      end.
      assert (w2 = w') by congruence. subst w2.
      rewrite Hdb, Hlog. repeat split; try discriminate.
      intros (r' & [= <-] & Hr'). apply Z.eqb_neq in Es. contradiction.
Qed.

(** ** Selection and binding *)

Lemma quiet_not_probed u l : quiet l -> ~ probed_ok u l.
Proof.
  intros Hq (r & Hin & _). unfold quiet in Hq. rewrite List.Forall_forall in Hq.
  apply Hq in Hin. discriminate.
Qed.

Lemma quiet_probe_count l : quiet l -> probe_count l = 0.
Proof.
  unfold probe_count. induction 1 as [|[rq o] l Hx _ IH]; [reflexivity|].
  simpl in *. unfold is_probe at 1. simpl. now rewrite Hx.
Qed.

Lemma probe_count_app l1 l2 :
  probe_count (l1 ++ l2) = probe_count l1 + probe_count l2.
Proof. unfold probe_count. now rewrite List.filter_app, List.length_app. Qed.

Lemma refreshed_frame env w :
  w_db (refreshed env w) = w_db w
  /\ exists new, w_log (refreshed env w) = (new ++ w_log w)%list /\ quiet new.
Proof.
  unfold refreshed.
  destruct (remote env (length (w_log w)) proxy_list_request) as [msg|r].
  2: destruct (status_code r =? 200)%Z.
  2: destruct (json r) as [[items| |]|].
  all: split; [reflexivity|].
  all: eexists [_]; split; [simpl; reflexivity|repeat constructor].
Qed.

Lemma ensure_fresh_frame env w :
  exists w',
    _ensure_fresh_proxies env w = (Ok tt, w')
    /\ w_db w' = w_db w
    /\ exists new, w_log w' = (new ++ w_log w)%list /\ quiet new.
Proof.
  unfold _ensure_fresh_proxies, bind, get_world, time_time.
  destruct (w_last_refresh w) as [last|].
  - destruct (Py.Qltb REFRESH_INTERVAL (clock env (w_ticks w) - last)).
    + rewrite refresh_run. eexists. split; [reflexivity|].
      apply (refreshed_frame env (with_tick w)).
    + eexists. split; [reflexivity|]. split; [reflexivity|].
      exists []. split; [reflexivity|constructor].
  - rewrite refresh_run. eexists. split; [reflexivity|].
    apply refreshed_frame.
Qed.

Lemma get_best_proxy_frame env exclude_urls w :
  exists res w',
    get_best_proxy env exclude_urls w = (Ok res, w')
    /\ w_db w' = w_db w
    /\ (exists new, w_log w' = (new ++ w_log w)%list /\ quiet new)
    /\ forall u, res = Some u ->
         u ∉ (list_to_set (default [] exclude_urls) : gset string).
Proof.
  unfold get_best_proxy.
  destruct (ensure_fresh_frame env w) as (w1 & E1 & Hdb & Hlog).
  rewrite (bind_ok _ _ _ _ _ E1). unfold bind, get_world.
  set (not_excluded := fun p : ProxyInfo =>
         negb (bool_decide
                 (url p ∈ (list_to_set (default [] exclude_urls) : gset string)))).
  assert (Hne : forall l p, List.find not_excluded l = Some p ->
            url p ∉ (list_to_set (default [] exclude_urls) : gset string)).
  { intros l p Hf. apply find_some in Hf as [_ Hf]. unfold not_excluded in Hf.
    apply negb_true_iff, bool_decide_eq_false in Hf. exact Hf. }
  destruct (List.find not_excluded (_get_healthy_proxies (w_proxies w1)))
    as [p|] eqn:F1.
  - eexists _, _. split; [reflexivity|]. repeat split; auto.
    intros u [= <-]. eapply Hne, F1.
  - destruct (List.find not_excluded (Dict.values (w_proxies w1))) as [p|] eqn:F2.
    + eexists _, _. split; [reflexivity|]. repeat split; auto.
      intros u [= <-]. eapply Hne, F2.
    + eexists _, _. split; [reflexivity|]. repeat split; auto. discriminate.
Qed.

(** The set handed to [get_best_proxy] is the set of tried URLs. *)
Lemma tried_roundtrip (tried : gset string) :
  (list_to_set
     (default []
        (if bool_decide (tried = ∅) then None else Some (elements tried)))
   : gset string) = tried.
Proof.
  case_bool_decide as E; simpl.
  - now rewrite E.
  - apply list_to_set_elements_L.
Qed.


Lemma probed_ok_app_l u l1 l2 : probed_ok u l1 -> probed_ok u (l1 ++ l2).
Proof.
  intros (r & Hin & Hs). exists r. split; [apply in_or_app; now left|exact Hs].
Qed.

Lemma probed_ok_app_r u l1 l2 : probed_ok u l2 -> probed_ok u (l1 ++ l2).
Proof.
  intros (r & Hin & Hs). exists r. split; [apply in_or_app; now right|exact Hs].
Qed.

Lemma probed_ok_app_inv u l1 l2 :
  probed_ok u (l1 ++ l2) -> probed_ok u l1 \/ probed_ok u l2.
Proof.
  intros (r & Hin & Hs). apply in_app_or in Hin as [Hin|Hin];
    [left|right]; now exists r.
Qed.


Lemma bind_loop_run env token_id : forall remaining tried w,
  exists res w' new,
    bind_loop env remaining token_id tried w = (Ok res, w')
    /\ w_log w' = (new ++ w_log w)%list
    /\ probe_count new <= remaining
    /\ match res with
       | Some u =>
           probed_ok u new /\ (u ∉ tried) /\ u <> ""
           /\ w_db w' = Database.update_token token_id (bind_fields u) (w_db w)
       | None => (forall u, ~ probed_ok u new) /\ w_db w' = w_db w
       end.
Proof.
  induction remaining as [|n IH]; intros tried w; simpl.
  - exists None, w, []. repeat split; auto.
    intros u (r & [] & _).
  - destruct (get_best_proxy_frame env
                (if bool_decide (tried = ∅) then None else Some (elements tried)) w)
      as (res1 & w1 & E1 & Hdb1 & (new1 & Hlog1 & Hq1) & Hex).
    rewrite tried_roundtrip in Hex.
    rewrite (bind_ok _ _ _ _ _ E1).
    destruct res1 as [u|].
    2:{ exists None, w1, new1. repeat split; auto.
        - rewrite (quiet_probe_count _ Hq1). lia.
        - intros u. now apply quiet_not_probed. }
    destruct (String.eqb_spec u "") as [|Hnonempty].
    { exists None, w1, new1. repeat split; auto.
      - rewrite (quiet_probe_count _ Hq1). lia.
      - intros u'. now apply quiet_not_probed. }
    destruct (health_check_proxy_frame env u w1)
      as (b & w2 & E2 & Hdb2 & Hlog2 & Hb).
    rewrite (bind_ok _ _ _ _ _ E2).
    set (o := remote env (length (w_log w1)) (health_check_request u)) in *.
    destruct b.
    + (* the probe succeeded: bind and return *)
      exists (Some u), (with_db (Database.update_token token_id (bind_fields u)) w2),
        ((health_check_request u, o) :: new1).
      split; [reflexivity|]. simpl. rewrite Hlog2, Hlog1.
      split; [reflexivity|]. split.
      * change ((health_check_request u, o) :: new1)
          with ([(health_check_request u, o)] ++ new1)%list.
        rewrite probe_count_app, (quiet_probe_count _ Hq1). simpl. lia.
      * split; [|split; [now apply Hex|split; [exact Hnonempty|now rewrite Hdb2, Hdb1]]].
        destruct (proj1 Hb eq_refl) as (r & Hr & Hs).
        exists r. split; [left; now rewrite <- Hr|exact Hs].
    + (* the probe failed: next candidate *)
      destruct (IH ({[u]} ∪ tried) w2) as (res & w3 & new3 & E3 & Hlog3 & Hc3 & H3).
      exists res, w3, (new3 ++ (health_check_request u, o) :: new1)%list.
      split; [exact E3|].
      split; [rewrite Hlog3, Hlog2, Hlog1; now rewrite <- app_assoc|].
      split.
      * change ((health_check_request u, o) :: new1)
          with ([(health_check_request u, o)] ++ new1)%list.
        rewrite !probe_count_app, (quiet_probe_count _ Hq1). simpl. lia.
      * destruct res as [u'|].
        -- destruct H3 as (Hp & Hn & Hne' & Hdb3).
           split; [now apply probed_ok_app_l|].
           split; [clear - Hn; set_solver|].
           split; [exact Hne'|]. now rewrite Hdb3, Hdb2, Hdb1.
        -- destruct H3 as (Hp & Hdb3). split; [|now rewrite Hdb3, Hdb2, Hdb1].
           intros u' Hu'. apply probed_ok_app_inv in Hu' as [Hu'|Hu'].
           ++ now apply (Hp u').
           ++ destruct Hu' as (r & [Hin|Hin] & Hs).
              ** injection Hin as Hu Ho. 
                 assert (false = true); [|discriminate].
                 apply Hb. exists r. split; [now rewrite <- Ho|exact Hs].
              ** apply (quiet_not_probed u' new1 Hq1). now exists r.
Qed.

Lemma used_proxies_spec all_tokens token_id u :
  u ∈ used_proxies all_tokens token_id <->
  exists tk, In tk all_tokens /\ Token.proxy_url tk = Some u /\ u <> ""
             /\ Token.id tk <> token_id.
Proof.
  unfold used_proxies.
  assert (G : forall l (acc : gset string),
    u ∈ fold_left
          (fun acc tk =>
             match Token.proxy_url tk with
             | Some u0 =>
                 if negb (String.eqb u0 "") && negb (Token.id tk =? token_id)%Z
                 then {[ u0 ]} ∪ acc else acc
             | None => acc
             end) l acc <->
    u ∈ acc \/ exists tk, In tk l /\ Token.proxy_url tk = Some u /\ u <> ""
                          /\ Token.id tk <> token_id).
  { induction l as [|tk l IH]; intros acc; simpl.
    - split; [auto|]. intros [H|(tk & [] & _)]. exact H.
    - rewrite IH. clear IH.
      destruct (Token.proxy_url tk) as [u0|] eqn:Eu.
      + destruct (String.eqb_spec u0 ""); simpl.
        * split; intros [H|(tk' & Hin & H)]; auto.
          -- right. exists tk'. auto.
          -- destruct Hin as [<-|Hin]; [|right; exists tk'; auto].
             destruct H as (H1 & H2 & _). congruence.
        * destruct (Z.eqb_spec (Token.id tk) token_id); simpl.
          -- split; intros [H|(tk' & Hin & H)]; auto.
             ++ right. exists tk'. auto.
             ++ destruct Hin as [<-|Hin]; [|right; exists tk'; auto].
                destruct H as (_ & _ & H). contradiction.
          -- split.
             ++ intros [H|(tk' & Hin & H)].
                ** apply elem_of_union in H as [H|H]; [|now left].
                   apply elem_of_singleton in H. subst u0.
                   right. exists tk. auto.
                ** right. exists tk'. auto.
             ++ intros [H|(tk' & [<-|Hin] & H)].
                ** left. set_solver.
                ** left. destruct H as (H & _). rewrite Eu in H.
                   injection H as ->. set_solver.
                ** right. exists tk'. auto.
      + split; intros [H|(tk' & Hin & H)]; auto.
        * right. exists tk'. auto.
        * destruct Hin as [<-|Hin]; [|right; exists tk'; auto].
          destruct H as (H & _). congruence. }
  rewrite G. split; [intros [H|H]; [set_solver|exact H]|auto].
Qed.

Lemma bind_proxy_to_token_run env token_id exclude_urls max_attempts w :
  exists res w' new,
    bind_proxy_to_token env token_id exclude_urls max_attempts w = (Ok res, w')
    /\ w_log w' = (new ++ w_log w)%list
    /\ probe_count new <= Z.to_nat max_attempts
    /\ match res with
       | Some u =>
           probed_ok u new
           /\ (forall tk, In tk (Database.get_all_tokens (w_db w)) ->
                 Token.id tk <> token_id -> Token.proxy_url tk <> Some u)
           /\ (forall l, exclude_urls = Some l -> ~ In u l)
           /\ w_db w' = Database.update_token token_id (bind_fields u) (w_db w)
       | None => (forall u, ~ probed_ok u new) /\ w_db w' = w_db w
       end.
Proof.
  unfold bind_proxy_to_token, bind, get_world.
  set (used := used_proxies (Database.get_all_tokens (w_db w)) token_id).
  set (excl := match exclude_urls with Some (x :: l) => x :: l | _ => [] end).
  destruct (bind_loop_run env token_id (Z.to_nat max_attempts)
              (list_to_set (elements used ++ excl)) w)
    as (res & w' & new & E & Hlog & Hc & H).
  exists res, w', new. split; [exact E|]. split; [exact Hlog|].
  split; [exact Hc|].
  destruct res as [u|]; [|exact H].
  destruct H as (Hp & Hn & Hne & Hdb). split; [exact Hp|].
  rewrite list_to_set_app_L, list_to_set_elements_L in Hn.
  apply not_elem_of_union in Hn as [Hused Hexcl].
  split; [|split; [|exact Hdb]].
  - intros tk Hin Hid Hurl. apply Hused. subst used.
    apply used_proxies_spec. exists tk. auto.
  - intros l -> Hin. apply Hexcl. subst excl.
    destruct l as [|x l]; [contradiction|].
    apply elem_of_list_to_set, list_elem_of_In. exact Hin.
Qed.

(** C4: [bind_proxy_to_token] never raises; it probes at most [max_attempts]
    candidates; a URL it returns was answered 200 by a health check made
    during the call, is not the proxy of any other credential in the table
    read at the start of the call, is not among the explicit excludes, and is
    written to the credential; when it returns none, no health check of the
    call was answered 200 and the table is unchanged. *)
Theorem bind_proxy_to_token_verified env token_id exclude_urls max_attempts w :
  exists res w' new,
    bind_proxy_to_token env token_id exclude_urls max_attempts w = (Ok res, w')
    /\ w_log w' = (new ++ w_log w)%list
    /\ probe_count new <= Z.to_nat max_attempts
    /\ match res with
       | Some u =>
           probed_ok u new
           /\ (forall tk, In tk (Database.get_all_tokens (w_db w)) ->
                 Token.id tk <> token_id -> Token.proxy_url tk <> Some u)
           /\ (forall l, exclude_urls = Some l -> ~ In u l)
           /\ w_db w' = Database.update_token token_id (bind_fields u) (w_db w)
       | None => (forall u, ~ probed_ok u new) /\ w_db w' = w_db w
       end.
Proof. apply bind_proxy_to_token_run. Qed.

(** ** The race for the fastest proxy *)

Lemma test_proxy_run env u w :
  let o := remote env (length (w_log w)) (health_check_request u) in
  let latency := (clock env (S (w_ticks w)) - clock env (w_ticks w))%Q in
  exists res w',
    test_proxy env u w = (Ok res, w')
    /\ w_db w' = w_db w
    /\ w_log w' = (health_check_request u, o) :: w_log w
    /\ match o with
       | Response r =>
           if (status_code r =? 200)%Z then res = Some (u, latency)
           else res = None
       | TransportError _ => res = None
       end.
Proof.
  intros o latency. subst o latency.
  unfold test_proxy, try_except, bind, session_request, time_time.
  cbn [w_log with_tick w_ticks].
  destruct (remote env (length (w_log w)) (health_check_request u)) as [msg|r].
  - cbn [is_Exception].
    destruct (report_failure_frame env u
                (with_logged (health_check_request u) (TransportError msg)
                   (with_tick w))) as (w' & E & Hdb & Hlog).
    exists None, w'. unfold bind. rewrite E. auto.
  - destruct (status_code r =? 200)%Z.
    + match goal with
      | |- context [report_success env u ?l ?x] =>
          destruct (report_success_frame env u l x) as (w' & E & Hdb & Hlog)
      end.
      eexists _, w'. cbn [w_ticks with_logged] in *. rewrite E. auto.
    + match goal with
      | |- context [report_failure env u ?x] =>
          destruct (report_failure_frame env u x) as (w' & E & Hdb & Hlog)
      end.
      exists None, w'. rewrite E. auto.
Qed.

Lemma collect_results_In completed r :
  In r (collect_results completed) <-> In (Ok (Some r)) completed.
Proof.
  induction completed as [|[[x|]|e] l IH]; simpl.
  - reflexivity.
  - rewrite IH. split; intros [H|H]; auto; left; congruence.
  - rewrite IH. split; [auto|]. intros [H|H]; [discriminate|exact H].
  - rewrite IH. split; [auto|]. intros [H|H]; [discriminate|exact H].
Qed.

(** The tasks of the race, run in list order. *)
Lemma gather_tests_run env : forall to_test w,
  exists completed w' new,
    gather (map (test_proxy env) to_test) w = (Ok completed, w')
    /\ w_db w' = w_db w
    /\ w_log w' = (new ++ w_log w)%list
    /\ probe_count new = length to_test
    /\ (forall c, In c completed -> exists res, c = Ok res)
    /\ (forall u t, In (Ok (Some (u, t))) completed ->
          In u to_test /\ probed_ok u new)
    /\ (forall u, probed_ok u new -> exists t, In (Ok (Some (u, t))) completed).
Proof.
  induction to_test as [|u to_test IH]; intros w; simpl.
  - exists [], w, []. repeat split; auto; try contradiction.
    intros u (r & [] & _).
  - destruct (test_proxy_run env u w) as (res & w1 & E1 & Hdb1 & Hlog1 & H1).
    rewrite E1.
    destruct (IH w1) as (completed & w2 & new & E2 & Hdb2 & Hlog2 & Hc & Hok & Hin & Hall).
    rewrite (bind_ok _ _ _ _ _ E2).
    set (o := remote env (length (w_log w)) (health_check_request u)) in *.
    exists (Ok res :: completed), w2, (new ++ [(health_check_request u, o)])%list.
    split; [reflexivity|]. split; [congruence|].
    split; [rewrite Hlog2, Hlog1; now rewrite <- app_assoc|].
    split; [rewrite probe_count_app, Hc; unfold probe_count; simpl; lia|].
    split; [intros c [<-|Hc']; eauto|].
    split.
    + intros u' t [Heq|Hin'].
      * injection Heq as ->.
        destruct o as [msg|r] eqn:Eo; [discriminate|].
        destruct (status_code r =? 200)%Z eqn:Es; [|discriminate].
        injection H1 as <- _. split; [now left|].
        apply probed_ok_app_r. exists r. split; [now left|now apply Z.eqb_eq].
      * destruct (Hin u' t Hin') as [Hi Hp]. split; [now right|].
        now apply probed_ok_app_l.
    + intros u' Hp. apply probed_ok_app_inv in Hp as [Hp|Hp].
      * destruct (Hall u' Hp) as (t & Ht). exists t. now right.
      * destruct Hp as (r & [Heq|[]] & Hs). injection Heq as Hu Ho.
        rewrite Ho in H1. apply Z.eqb_eq in Hs. rewrite Hs in H1.
        subst res. eexists. left. rewrite Hu. reflexivity.
Qed.

Lemma insert_by_time_In x l y :
  In y (insert_by_time x l) <-> y = x \/ In y l.
Proof.
  induction l as [|z l IH]; simpl.
  - split; intros [H|H]; auto.
  - destruct (Py.Qltb (snd z) (snd x)); simpl.
    + rewrite IH. split; intros H; intuition auto.
    + split; intros H; intuition auto.
Qed.

Lemma sort_by_time_In l y : In y (sort_by_time l) <-> In y l.
Proof.
  induction l as [|x l IH]; simpl; [reflexivity|].
  unfold sort_by_time in *. simpl. rewrite insert_by_time_In, IH.
  split; intros [H|H]; auto.
Qed.

Lemma insert_by_time_head_least x l :
  head_least l -> head_least (insert_by_time x l).
Proof.
  destruct l as [|z l]; simpl.
  - intros _ y [<-|[]]. apply Qle_refl.
  - intros Hz. destruct (Py.Qltb (snd z) (snd x)) eqn:E; simpl.
    + intros y [<-|Hy]; [apply Qle_refl|].
      apply insert_by_time_In in Hy as [->|Hy].
      * apply Qlt_le_weak. now apply Qltb_lt.
      * apply Hz. now right.
    + assert (Hxz : (snd x <= snd z)%Q).
      { apply Qnot_lt_le. intros H. apply Qltb_lt in H. congruence. }
      intros y [<-|Hy]; [apply Qle_refl|].
      eapply Qle_trans; [exact Hxz|]. now apply Hz.
Qed.

Lemma sort_by_time_head_least l : head_least (sort_by_time l).
Proof.
  induction l as [|x l IH]; simpl; [exact I|].
  now apply insert_by_time_head_least.
Qed.


(** The scenario of the specification: A fails, B answers in 0.5 s, C in
    0.2 s.  C wins with its latency. *)
Example race_returns_fastest :
  fst (find_fastest_working_proxy Sample.env_race None 100 20 Sample.world_race)
  = Ok (Some ("socks5://10.0.1.3:1080", 1 # 5)).
Proof. vm_compute. reflexivity. Qed.

(** ** Proxy resolution *)

Lemma initialize_frame env w :
  exists w',
    initialize env w = (Ok tt, w')
    /\ w_db w' = w_db w
    /\ exists new, w_log w' = (new ++ w_log w)%list.
Proof.
  unfold initialize, bind, get_world.
  destruct (w_initialized w).
  - exists w. repeat split. now exists [].
  - rewrite refresh_run. eexists. split; [reflexivity|].
    destruct (refreshed_frame env w) as (Hdb & new & Hlog & _).
    split; [exact Hdb|]. exists new. exact Hlog.
Qed.

Lemma global_fallback_run w :
  exists p, global_fallback w = (Ok p, w).
Proof.
  unfold global_fallback, bind, get_world.
  destruct (_ && _); eexists; reflexivity.
Qed.

(** [get_proxy_url] never raises; it may log requests and may bind a free
    proxy to the credential. *)
Lemma get_proxy_url_frame env token_id proxy_url w :
  exists p w',
    get_proxy_url env token_id proxy_url w = (Ok p, w')
    /\ maybe_bound token_id (w_db w) (w_db w')
    /\ exists new, w_log w' = (new ++ w_log w)%list.
Proof.
  unfold get_proxy_url.
  assert (Hfb : exists p w',
            global_fallback w = (Ok p, w')
            /\ maybe_bound token_id (w_db w) (w_db w')
            /\ exists new, w_log w' = (new ++ w_log w)%list).
  { destruct (global_fallback_run w) as (p & E).
    exists p, w. split; [exact E|]. split; [now left|now exists []]. }
  destruct (Py.truthy_str proxy_url).
  { eexists _, w. split; [reflexivity|]. split; [now left|now exists []]. }
  destruct token_id as [tid|]; [|exact Hfb].
  unfold bind at 1, get_world at 1.
  destruct (Database.get_token tid (w_db w)) as [tk|]; [|exact Hfb].
  destruct (Py.truthy_str (Token.proxy_url tk)).
  { eexists _, w. split; [reflexivity|]. split; [now left|now exists []]. }
  destruct (w_free_proxy_enabled w && w_free_proxy_manager w); [|exact Hfb].
  destruct (initialize_frame env w) as (w1 & E1 & Hdb1 & new1 & Hlog1).
  rewrite (bind_ok _ _ _ _ _ E1).
  destruct (bind_proxy_to_token_run env tid None 10 w1)
    as (res & w2 & new2 & E2 & Hlog2 & _ & H2).
  rewrite (bind_ok _ _ _ _ _ E2).
  destruct res as [u|]; simpl.
  - destruct H2 as ((r & Hin & _) & _ & _ & Hdb2).
    destruct (String.eqb_spec u "") as [->|Hne]; simpl.
    + destruct (global_fallback_run w2) as (p & E).
      exists p, w2. split; [exact E|]. split.
      * right. exists tid, "". split; [reflexivity|]. now rewrite Hdb2, Hdb1.
      * exists (new2 ++ new1)%list. now rewrite Hlog2, Hlog1, app_assoc.
    + eexists _, w2. split; [reflexivity|]. split.
      * right. exists tid, u. split; [reflexivity|]. now rewrite Hdb2, Hdb1.
      * exists (new2 ++ new1)%list. now rewrite Hlog2, Hlog1, app_assoc.
  - destruct H2 as (_ & Hdb2).
    destruct (global_fallback_run w2) as (p & E).
    exists p, w2. split; [exact E|]. split.
    + left. now rewrite Hdb2, Hdb1.
    + exists (new2 ++ new1)%list. now rewrite Hlog2, Hlog1, app_assoc.
Qed.

(** The [proxy] keyword built from the result of [get_proxy_url] is always
    present and always the tuple. *)
Lemma proxy_kwarg_of_pair (p : option string * option string) :
  proxy_kwarg (py_of_pair p) = Some (PyTuple (fst p) (snd p)).
Proof. reflexivity. Qed.

Lemma stateless_ret {A} (a : A) : stateless (ret a).
Proof. intros w. reflexivity. Qed.

Lemma stateless_raise {A} (e : exn) : stateless (@raise A e).
Proof. intros w. reflexivity. Qed.

Lemma stateless_bind {A B} (m : M A) (k : A -> M B) :
  stateless m -> (forall a, stateless (k a)) -> stateless (bind m k).
Proof.
  intros Hm Hk w. unfold bind. specialize (Hm w).
  destruct (m w) as [[a|e] w']; simpl in *; subst w'; [apply Hk|reflexivity].
Qed.

Lemma stateless_try_except {A} (body : M A) catches (handler : exn -> M A) :
  stateless body -> (forall e, stateless (handler e)) ->
  stateless (try_except body catches handler).
Proof.
  intros Hb Hh w. unfold try_except. specialize (Hb w).
  destruct (body w) as [[a|e] w']; simpl in *; subst w'; [reflexivity|].
  destruct (catches e); [apply Hh|reflexivity].
Qed.

Lemma stateless_get_world : stateless get_world.
Proof. intros w. reflexivity. Qed.

Lemma stateless_response_json r : stateless (response_json r).
Proof. unfold response_json. destruct (json r); intros w; reflexivity. Qed.

Lemma stateless_as_dict b : stateless (as_dict b).
Proof. destruct b; intros w; reflexivity. Qed.

Create HintDb stateless.
#[local] Hint Resolve stateless_ret stateless_raise stateless_get_world
  stateless_response_json stateless_as_dict : stateless.

Ltac stateless_step :=
  match goal with
  | |- stateless (bind _ _) => apply stateless_bind; [|intros ?]
  | |- stateless (try_except _ _ _) => apply stateless_try_except; [|intros ?]
  | |- stateless (match ?x with _ => _ end) => destruct x
  | |- stateless _ => solve [auto with stateless]
  end.

Ltac stateless_auto := repeat stateless_step.

Lemma snd_bind_stateless {A B} (m : M A) (k : A -> M B) w :
  (forall a, stateless (k a)) -> snd (bind m k w) = snd (m w).
Proof.
  intros Hk. unfold bind. destruct (m w) as [[a|e] w']; simpl; [apply Hk|reflexivity].
Qed.

Lemma snd_session_request env rq w :
  snd (session_request env rq w)
  = with_logged rq (remote env (length (w_log w)) rq) w.
Proof.
  unfold session_request. now destruct (remote env (length (w_log w)) rq).
Qed.

Lemma get_user_info_log env access_token token_id proxy_url w p w1 :
  get_proxy_url env token_id proxy_url w = (Ok p, w1) ->
  let rq := mkRequest EpMe access_token (Some (PyTuple (fst p) (snd p))) in
  snd (get_user_info env access_token token_id proxy_url w)
  = with_logged rq (remote env (length (w_log w1)) rq) w1.
Proof.
  intros E rq. unfold get_user_info. rewrite (bind_ok _ _ _ _ _ E).
  rewrite proxy_kwarg_of_pair. fold rq.
  rewrite snd_bind_stateless; [apply snd_session_request|].
  intros response. stateless_auto.
Qed.

Lemma get_subscription_info_log env token token_id proxy_url w p w1 :
  get_proxy_url env token_id proxy_url w = (Ok p, w1) ->
  let rq := mkRequest EpSubscriptions token (Some (PyTuple (fst p) (snd p))) in
  snd (get_subscription_info env token token_id proxy_url w)
  = with_logged rq (remote env (length (w_log w1)) rq) w1.
Proof.
  intros E rq. unfold get_subscription_info. rewrite (bind_ok _ _ _ _ _ E).
  rewrite proxy_kwarg_of_pair. fold rq.
  rewrite snd_bind_stateless; [apply snd_session_request|].
  intros response. stateless_auto.
Qed.

Lemma snd_try_except_stateless {A} (body : M A) catches (handler : exn -> M A) w :
  (forall e, stateless (handler e)) ->
  snd (try_except body catches handler w) = snd (body w).
Proof.
  intros Hh. unfold try_except.
  destruct (body w) as [[a|e] w']; simpl; [reflexivity|].
  destruct (catches e); [apply Hh|reflexivity].
Qed.

Lemma st_to_at_log env session_token proxy_url w p w1 :
  get_proxy_url env None proxy_url w = (Ok p, w1) ->
  let rq := mkRequest EpAuthSession session_token (Some (PyTuple (fst p) (snd p))) in
  snd (st_to_at env session_token proxy_url w)
  = with_logged rq (remote env (length (w_log w1)) rq) w1.
Proof.
  intros E rq. unfold st_to_at. rewrite (bind_ok _ _ _ _ _ E).
  rewrite proxy_kwarg_of_pair. fold rq.
  rewrite snd_try_except_stateless by (intros e; apply stateless_raise).
  rewrite snd_bind_stateless; [apply snd_session_request|].
  intros response. stateless_auto.
Qed.

(** C2 (the code departs from it): whatever [get_proxy_url] resolves to,
    [get_user_info], [get_subscription_info] and [st_to_at] pass the whole
    pair [(proxy_url, bind_action)] as the [proxy] option of their request:
    the option is never the URL string and is never left out, also when the
    resolved URL is [None]. *)
Theorem proxy_option_is_router_tuple env credential token_id proxy_url w :
  exists p w1,
    get_proxy_url env token_id proxy_url w = (Ok p, w1)
    /\ (let rq := mkRequest EpMe credential (Some (PyTuple (fst p) (snd p))) in
        snd (get_user_info env credential token_id proxy_url w)
        = with_logged rq (remote env (length (w_log w1)) rq) w1)
    /\ (let rq :=
          mkRequest EpSubscriptions credential (Some (PyTuple (fst p) (snd p))) in
        snd (get_subscription_info env credential token_id proxy_url w)
        = with_logged rq (remote env (length (w_log w1)) rq) w1)
    /\ exists p' w1',
         get_proxy_url env None proxy_url w = (Ok p', w1')
         /\ (let rq :=
               mkRequest EpAuthSession credential
                 (Some (PyTuple (fst p') (snd p'))) in
             snd (st_to_at env credential proxy_url w)
             = with_logged rq (remote env (length (w_log w1')) rq) w1').
Proof.
  destruct (get_proxy_url_frame env token_id proxy_url w) as (p & w1 & E & _).
  destruct (get_proxy_url_frame env None proxy_url w) as (p' & w1' & E' & _).
  exists p, w1. split; [exact E|].
  split; [now apply get_user_info_log|].
  split; [now apply get_subscription_info_log|].
  exists p', w1'. split; [exact E'|]. now apply st_to_at_log.
Qed.

(** A run of C2: no credential id, no explicit proxy, global proxy disabled.
    The router resolves to [(None, None)], and the request to the account
    endpoint carries that pair as its [proxy] option. *)
Example get_user_info_passes_none_pair :
  get_proxy_url Sample.env None None Sample.world = (Ok (None, None), Sample.world)
  /\ w_log (snd (get_user_info Sample.env "at" None None Sample.world))
     = [(mkRequest EpMe "at" (Some (PyTuple None None)), Sample.failed 403)].
Proof. split; reflexivity. Qed.

(** ** Quota accounting *)

Lemma get_sora2_remaining_count_run env access_token token_id proxy_url w p w1 :
  get_proxy_url env token_id proxy_url w = (Ok p, w1) ->
  let rq := mkRequest EpNfCheck access_token (Some (PyTuple (fst p) (snd p))) in
  let o := remote env (length (w_log w1)) rq in
  get_sora2_remaining_count env access_token token_id proxy_url w
  = (quota_answer o, with_logged rq o w1).
Proof.
  intros E rq o. unfold get_sora2_remaining_count.
  rewrite (bind_ok _ _ _ _ _ E). rewrite proxy_kwarg_of_pair. fold rq.
  unfold bind, session_request. fold o. unfold quota_answer.
  destruct o as [msg|r]; [reflexivity|].
  destruct (status_code r =? 200)%Z; [|reflexivity].
  unfold response_json. destruct (json r) as [[items|d|]|]; reflexivity.
Qed.

(** The row of [token_id] after a [get_proxy_url] for it: unchanged but for
    the proxy column. *)
Lemma maybe_bound_get_token token_id db db' tk :
  maybe_bound (Some token_id) db db' ->
  Database.get_token token_id db = Some tk ->
  Database.stats db' = Database.stats db
  /\ exists tk',
       Database.get_token token_id db' = Some tk'
       /\ Token.sora2_cooldown_until tk' = Token.sora2_cooldown_until tk
       /\ Token.is_active tk' = Token.is_active tk.
Proof.
  intros [->|(tid & u & [= <-] & ->)] Hget.
  - split; [reflexivity|]. now exists tk.
  - split; [reflexivity|].
    exists (Database.apply_fields (bind_fields u) tk).
    unfold Database.get_token, Database.update_token in *. simpl.
    rewrite lookup_alter_eq, Hget. auto.
Qed.





(** ** Strings *)

Lemma contains_lacks c rest hay :
  lacks c hay = true -> Py.contains (String c rest) hay = false.
Proof.
  induction hay as [|a hay IH]; simpl; [reflexivity|].
  intros H. apply andb_true_iff in H as [Hc Hl].
  destruct (ascii_dec c a) as [->|Hne].
  - rewrite Ascii.eqb_refl in Hc. discriminate.
  - now apply IH.
Qed.

Lemma lacks_app c s1 s2 :
  lacks c (s1 ++ s2) = lacks c s1 && lacks c s2.
Proof.
  induction s1 as [|a s1 IH]; simpl; [reflexivity|].
  now rewrite IH, andb_assoc.
Qed.

Lemma lacks_T_uint d : lacks "T" (NilEmpty.string_of_uint d) = true.
Proof. induction d; simpl; auto. Qed.

Lemma lacks_T_str_of_int z : lacks "T" (Py.str_of_int z) = true.
Proof.
  unfold Py.str_of_int, NilZero.string_of_int, NilZero.string_of_uint.
  destruct (Z.to_int z) as [d|d]; destruct d; simpl; auto using lacks_T_uint.
Qed.


(** ** Storage is left alone *)

Lemma keeps_db_ret {A} (a : A) : keeps_db (ret a).
Proof. intros w. reflexivity. Qed.

Lemma keeps_db_raise {A} (e : exn) : keeps_db (@raise A e).
Proof. intros w. reflexivity. Qed.

Lemma keeps_db_bind {A B} (m : M A) (k : A -> M B) :
  keeps_db m -> (forall a, keeps_db (k a)) -> keeps_db (bind m k).
Proof.
  intros Hm Hk w. unfold bind. specialize (Hm w).
  destruct (m w) as [[a|e] w']; simpl in *; [|exact Hm].
  now rewrite Hk.
Qed.

Lemma keeps_db_try_except {A} (body : M A) catches (handler : exn -> M A) :
  keeps_db body -> (forall e, keeps_db (handler e)) ->
  keeps_db (try_except body catches handler).
Proof.
  intros Hb Hh w. unfold try_except. specialize (Hb w).
  destruct (body w) as [[a|e] w']; simpl in *; [exact Hb|].
  destruct (catches e); [now rewrite Hh|exact Hb].
Qed.

Lemma keeps_db_stateless {A} (m : M A) : stateless m -> keeps_db m.
Proof. intros H w. now rewrite H. Qed.

Lemma keeps_db_session_request env rq : keeps_db (session_request env rq).
Proof. intros w. now rewrite snd_session_request. Qed.

Lemma get_proxy_url_direct env proxy_url w :
  get_proxy_url env None proxy_url w = (Ok (resolve_direct proxy_url (w_db w)), w).
Proof.
  unfold get_proxy_url, resolve_direct, global_fallback, bind, get_world.
  destruct (Py.truthy_str proxy_url); [reflexivity|].
  destruct (_ && _); reflexivity.
Qed.

Lemma keeps_db_get_proxy_url_direct env proxy_url :
  keeps_db (get_proxy_url env None proxy_url).
Proof. intros w. now rewrite get_proxy_url_direct. Qed.

Lemma keeps_db_generate env : keeps_db (_generate_random_username env).
Proof.
  intros w. unfold _generate_random_username.
  now destruct (random_username env (w_draws w)).
Qed.

Create HintDb keeps_db.
#[local] Hint Resolve keeps_db_ret keeps_db_raise keeps_db_session_request
  keeps_db_get_proxy_url_direct keeps_db_generate : keeps_db.
#[local] Hint Extern 1 (keeps_db (response_json _)) =>
  apply keeps_db_stateless, stateless_response_json : keeps_db.
#[local] Hint Extern 1 (keeps_db (as_dict _)) =>
  apply keeps_db_stateless, stateless_as_dict : keeps_db.

Ltac keeps_db_step :=
  match goal with
  | |- keeps_db (bind _ _) => apply keeps_db_bind; [|intros ?]
  | |- keeps_db (try_except _ _ _) => apply keeps_db_try_except; [|intros ?]
  | |- keeps_db (match ?x with _ => _ end) => destruct x
  | |- keeps_db _ => solve [auto with keeps_db]
  end.

Ltac keeps_db_auto := repeat keeps_db_step.

Lemma keeps_db_get_user_info env access_token proxy_url :
  keeps_db (get_user_info env access_token None proxy_url).
Proof. unfold get_user_info. keeps_db_auto. Qed.

Lemma keeps_db_get_sora2_remaining_count env access_token proxy_url :
  keeps_db (get_sora2_remaining_count env access_token None proxy_url).
Proof. unfold get_sora2_remaining_count. keeps_db_auto. Qed.

Lemma keeps_db_check_username_available env access_token username :
  keeps_db (check_username_available env access_token username).
Proof. unfold check_username_available. keeps_db_auto. Qed.

Lemma keeps_db_set_username env access_token username :
  keeps_db (set_username env access_token username).
Proof. unfold set_username. keeps_db_auto. Qed.

#[local] Hint Resolve keeps_db_get_user_info keeps_db_get_sora2_remaining_count
  keeps_db_check_username_available keeps_db_set_username : keeps_db.

Lemma keeps_db_claim_username env token_value : forall attempts,
  keeps_db (claim_username env attempts token_value).
Proof.
  induction attempts as [|n IH]; simpl; keeps_db_auto.
Qed.

#[local] Hint Resolve keeps_db_claim_username : keeps_db.


(** ** Registration *)

Lemma get_subscription_info_run env token proxy_url w :
  benign env ->
  let p := resolve_direct proxy_url (w_db w) in
  let rq := mkRequest EpSubscriptions token (Some (PyTuple (fst p) (snd p))) in
  let o := remote env (length (w_log w)) rq in
  exists res,
    get_subscription_info env token None proxy_url w = (res, with_logged rq o w)
    /\ match res with
       | Raise e =>
           Py.contains TOKEN_EXPIRED_MARK (exn_msg e) = token_expired_answer o
       | Ok _ => token_expired_answer o = false
       end.
Proof.
  intros [Htransport _] p rq o. unfold get_subscription_info.
  rewrite (bind_ok _ _ _ _ _ (get_proxy_url_direct env proxy_url w)).
  rewrite proxy_kwarg_of_pair. fold p rq.
  unfold bind at 1, session_request. fold o.
  destruct o as [msg|r] eqn:Eo.
  { eexists. split; [reflexivity|]. simpl. apply (Htransport _ _ _ Eo). }
  unfold token_expired_answer, error_code_of.
  destruct (status_code r =? 200)%Z; cbn [negb andb].
  - (* 200 *)
    unfold bind, response_json.
    destruct (json r) as [[items|d|]|]; simpl;
      try (eexists; split; [reflexivity|reflexivity]).
    destruct (j_data d) as [[|subscription l]|];
      eexists; split; reflexivity.
  - (* an error status *)
    unfold bind, try_except, response_json.
    destruct (json r) as [[items|d|]|]; simpl;
      try (eexists; split; [reflexivity|reflexivity]).
    + case_bool_decide as Ecode; simpl.
      * eexists. split; [reflexivity|]. reflexivity.
      * eexists. split; [reflexivity|]. simpl.
        apply contains_lacks. rewrite lacks_app, lacks_T_str_of_int. reflexivity.
    + eexists. split; [reflexivity|]. simpl.
      apply contains_lacks. rewrite lacks_app, lacks_T_str_of_int. reflexivity.
Qed.

Lemma fetch_subscription_critical env token proxy_url w :
  benign env ->
  let p := resolve_direct proxy_url (w_db w) in
  let rq := mkRequest EpSubscriptions token (Some (PyTuple (fst p) (snd p))) in
  let o := remote env (length (w_log w)) rq in
  exists res,
    fetch_subscription env token None proxy_url
      (fun e => Py.contains TOKEN_EXPIRED_MARK (exn_msg e)) w
    = (res, with_logged rq o w)
    /\ match res with
       | Raise e =>
           token_expired_answer o = true
           /\ Py.contains TOKEN_EXPIRED_MARK (exn_msg e) = true
       | Ok _ => token_expired_answer o = false
       end.
Proof.
  intros Hb p rq o.
  destruct (get_subscription_info_run env token proxy_url w Hb)
    as (res1 & E1 & H1).
  fold p rq o in E1, H1. destruct Hb as [_ Hparse].
  unfold fetch_subscription, try_except at 1, bind at 1. rewrite E1.
  destruct res1 as [sub_info|e].
  - destruct (negb (String.eqb (si_subscription_end sub_info) "")).
    + unfold try_except, bind, parser_parse.
      destruct (parse_date env (si_subscription_end sub_info)) as [d|msg] eqn:Ep.
      * eexists. split; [reflexivity|exact H1].
      * simpl. rewrite (Hparse _ _ Ep). eexists. split; [reflexivity|exact H1].
    + eexists. split; [reflexivity|exact H1].
  - simpl. rewrite H1. destruct (token_expired_answer o) eqn:Ea.
    + eexists. split; [reflexivity|]. split; [reflexivity|].
      now rewrite H1.
    + eexists. split; reflexivity.
Qed.

Lemma keeps_db_get_sora2_invite_code env access_token proxy_url :
  keeps_db (get_sora2_invite_code env access_token None proxy_url).
Proof. unfold get_sora2_invite_code. keeps_db_auto. Qed.

Lemma get_sora2_invite_code_critical env access_token proxy_url w :
  benign env ->
  let p := resolve_direct proxy_url (w_db w) in
  let rq := mkRequest EpInviteMine access_token (Some (PyTuple (fst p) (snd p))) in
  let o := remote env (length (w_log w)) rq in
  exists res w',
    get_sora2_invite_code env access_token None proxy_url w = (res, w')
    /\ w_db w' = w_db w
    /\ match res with
       | Raise e =>
           Py.contains UNSUPPORTED_COUNTRY_MARK (exn_msg e)
           = unsupported_country_answer o
       | Ok _ => unsupported_country_answer o = false
       end.
Proof.
  intros [Htransport _] p rq o.
  pose proof (keeps_db_get_sora2_invite_code env access_token proxy_url w) as Hdb.
  destruct (get_sora2_invite_code env access_token None proxy_url w)
    as [res w'] eqn:Erun.
  exists res, w'. split; [reflexivity|]. split; [exact Hdb|]. clear Hdb.
  revert Erun. unfold get_sora2_invite_code.
  rewrite (bind_ok _ _ _ _ _ (get_proxy_url_direct env proxy_url w)).
  rewrite proxy_kwarg_of_pair. fold p rq.
  unfold bind at 1, session_request. fold o.
  destruct o as [msg|r] eqn:Eo.
  { intros [= <- <-]. simpl. apply (Htransport _ _ _ Eo). }
  unfold unsupported_country_answer, error_code_of.
  destruct (status_code r =? 200)%Z eqn:Es; cbn [negb andb].
  - unfold bind, response_json.
    destruct (json r) as [[items|d|]|]; simpl; intros [= <- <-]; reflexivity.
  - match goal with
    | |- context [try_except ?b is_Exception ?h] =>
        set (act := try_except b is_Exception h) in *
    end.
    assert (Hact : total act).
    { unfold act. apply total_try_except. intros e. apply total_ret. }
    cbv [bind try_except response_json as_dict ret raise].
    destruct (json r) as [[items|d|]|]; cbn [is_ValueError exn_cls].
    1, 3, 4: intros Heq; injection Heq as <- <-; reflexivity.
    case_bool_decide as Ecode.
    { intros Heq; injection Heq as <- <-. reflexivity. }
    destruct ((status_code r =? 401)%Z
              && Py.contains "Unauthorized"
                   (default "" (err_message (default no_error_info (j_error d))))).
    + destruct (Hact (with_logged rq (Response r) w)) as (a & w2 & Ea).
      rewrite Ea.
      destruct a; intros Heq; injection Heq as <- <-; reflexivity.
    + intros Heq; injection Heq as <- <-. reflexivity.
Qed.

Lemma get_token_add_token tk db :
  let '(i, db') := Database.add_token tk db in
  Database.get_token i db' = Some (Database.set_id i tk).
Proof.
  unfold Database.add_token, Database.get_token. simpl.
  apply lookup_insert_eq.
Qed.

Lemma total_remaining_step env token_value proxy_url (supported : bool) :
  total
    (if supported then
       try_except
         (let* remaining_info :=
            get_sora2_remaining_count env token_value None proxy_url in
          if ri_success remaining_info
          then ret (ri_remaining_count remaining_info)
          else ret 0%Z)
         is_Exception
         (fun _ => ret 0%Z)
     else ret 0%Z).
Proof.
  destruct supported; [|apply total_ret].
  apply total_try_except. intros e. apply total_ret.
Qed.

Lemma keeps_db_remaining_step env token_value proxy_url (supported : bool) :
  keeps_db
    (if supported then
       try_except
         (let* remaining_info :=
            get_sora2_remaining_count env token_value None proxy_url in
          if ri_success remaining_info
          then ret (ri_remaining_count remaining_info)
          else ret 0%Z)
         is_Exception
         (fun _ => ret 0%Z)
     else ret 0%Z).
Proof. keeps_db_auto. Qed.

(** The data [add_token] gathers in normal mode, from the first account
    lookup to the username claim. *)
Lemma registration_data_run env token_value proxy_url jwt_email w :
  benign env ->
  let p := resolve_direct proxy_url (w_db w) in
  let kw := Some (PyTuple (fst p) (snd p)) in
  let n := length (w_log w) in
  let sub_o := remote env (S n) (mkRequest EpSubscriptions token_value kw) in
  let inv_o := remote env (S (S n)) (mkRequest EpInviteMine token_value kw) in
  exists res w',
    (let* (email, name) :=
       try_except
         (let* user_info := get_user_info env token_value None proxy_url in
          let* d := as_dict user_info in
          ret (default (or_empty jwt_email) (j_email d), or_empty (j_name d)))
         is_Exception
         (fun _ =>
            let email := or_empty jwt_email in
            ret (email, name_of_email email)) in
     let* plan :=
       fetch_subscription env token_value None proxy_url
         (fun e => Py.contains TOKEN_EXPIRED_MARK (exn_msg e)) in
     let* sora2 :=
       try_except
         (let* sora2_info := get_sora2_invite_code env token_value None proxy_url in
          let* sora2_remaining_count :=
            if s2_supported sora2_info then
              try_except
                (let* remaining_info :=
                   get_sora2_remaining_count env token_value None proxy_url in
                 if ri_success remaining_info
                 then ret (ri_remaining_count remaining_info)
                 else ret 0%Z)
                is_Exception
                (fun _ => ret 0%Z)
            else ret 0%Z in
          ret (Some (s2_supported sora2_info), s2_invite_code sora2_info,
               default 0%Z (s2_redeemed_count sora2_info),
               default 0%Z (s2_total_count sora2_info),
               sora2_remaining_count))
         is_Exception
         (fun e =>
            if Py.contains UNSUPPORTED_COUNTRY_MARK (exn_msg e) then raise e
            else ret (None, None, 0%Z, 0%Z, 0%Z)) in
     try_except
       (let* user_info := get_user_info env token_value None proxy_url in
        let* d := as_dict user_info in
        match j_username d with
        | None => claim_username env 5 token_value
        | Some _ => ret tt
        end)
       is_Exception
       (fun _ => ret tt) ;;
     ret (email, name, plan, sora2)) w = (res, w')
    /\ w_db w' = w_db w
    /\ match res with
       | Raise e =>
           token_expired_answer sub_o = true
           /\ Py.contains TOKEN_EXPIRED_MARK (exn_msg e) = true
           \/ token_expired_answer sub_o = false
              /\ unsupported_country_answer inv_o = true
              /\ Py.contains UNSUPPORTED_COUNTRY_MARK (exn_msg e) = true
       | Ok _ =>
           token_expired_answer sub_o = false
           /\ unsupported_country_answer inv_o = false
       end.
Proof.
  intros Hb p kw n sub_o inv_o.
  (* the account lookup: one request, every failure caught *)
  match goal with
  | |- context [bind (try_except ?b is_Exception ?h) ?k w] =>
      destruct (total_try_except b h (fun e => total_ret _) w) as ([email name] & w1 & E1);
      assert (Hw1 : w1 = with_logged (mkRequest EpMe token_value kw)
                           (remote env n (mkRequest EpMe token_value kw)) w)
  end.
  { change w1 with (snd (Ok (email, name), w1)). rewrite <- E1.
    rewrite snd_try_except_stateless by (intros e; apply stateless_ret).
    rewrite snd_bind_stateless by (intros a; stateless_auto).
    apply (get_user_info_log env token_value None proxy_url w p w).
    apply get_proxy_url_direct. }
  rewrite (bind_ok _ _ _ _ _ E1). clear E1. subst w1.
  set (w1 := with_logged (mkRequest EpMe token_value kw) _ w).
  (* the subscription *)
  destruct (fetch_subscription_critical env token_value proxy_url w1 Hb)
    as (res2 & E2 & H2).
  change (resolve_direct proxy_url (w_db w1)) with p in E2, H2.
  change (length (w_log w1)) with (S n) in E2, H2.
  fold kw sub_o in E2, H2.
  unfold bind at 1. rewrite E2.
  destruct res2 as [plan|e].
  2:{ eexists _, _. split; [reflexivity|]. split; [reflexivity|]. now left. }
  set (w2 := with_logged (mkRequest EpSubscriptions token_value kw) sub_o w1).
  (* the invite code *)
  destruct (get_sora2_invite_code_critical env token_value proxy_url w2 Hb)
    as (res3 & w3 & E3 & Hdb3 & H3).
  change (resolve_direct proxy_url (w_db w2)) with p in H3.
  change (length (w_log w2)) with (S (S n)) in H3.
  fold kw inv_o in H3.
  unfold bind at 1, try_except at 1, bind at 1. rewrite E3.
  destruct res3 as [sora2_info|e].
  - (* an invite answer: the remaining count, then the username *)
    destruct (total_remaining_step env token_value proxy_url
                (s2_supported sora2_info) w3) as (remaining & w4 & E4).
    pose proof (keeps_db_remaining_step env token_value proxy_url
                  (s2_supported sora2_info) w3) as Hdb4.
    rewrite E4 in Hdb4. simpl in Hdb4.
    unfold bind at 1. rewrite E4. unfold ret at 1.
    match goal with
    | |- context [bind (try_except ?b is_Exception ?h) ?k w4] =>
        destruct (total_try_except b h (fun e => total_ret _) w4) as ([] & w5 & E5);
        assert (Hdb5 : w_db w5 = w_db w4)
    end.
    { change w5 with (snd (Ok tt, w5)). rewrite <- E5.
      match goal with |- w_db (snd (?m w4)) = _ => assert (K : keeps_db m) end.
      { keeps_db_auto. }
      apply K. }
    rewrite (bind_ok _ _ _ _ _ E5).
    eexists _, _. split; [reflexivity|].
    split; [simpl; rewrite Hdb5, Hdb4, Hdb3; reflexivity|].
    split; [exact H2|exact H3].
  - (* the invite lookup raised *)
    cbn [is_Exception]. rewrite H3.
    destruct (unsupported_country_answer inv_o) eqn:Ea.
    + eexists _, _. split; [reflexivity|]. split; [exact Hdb3|].
      right. split; [exact H2|]. split; [reflexivity|exact H3].
    + unfold ret at 1.
      match goal with
      | |- context [bind (try_except ?b is_Exception ?h) ?k w3] =>
          destruct (total_try_except b h (fun e => total_ret _) w3) as ([] & w5 & E5);
          assert (Hdb5 : w_db w5 = w_db w3)
      end.
      { change w5 with (snd (Ok tt, w5)). rewrite <- E5.
        match goal with |- w_db (snd (?m w3)) = _ => assert (K : keeps_db m) end.
        { keeps_db_auto. }
        apply K. }
      rewrite (bind_ok _ _ _ _ _ E5).
      eexists _, _. split; [reflexivity|].
      split; [simpl; rewrite Hdb5, Hdb3; reflexivity|].
      split; [exact H2|reflexivity].
Qed.



Lemma benign_env_reg : benign Sample.env_reg.
Proof.
  split.
  - intros n rq msg H. simpl in H. unfold Sample.remote in H.
    destruct (req_endpoint rq); try discriminate.
    destruct (req_proxy rq) as [[|s|]|]; try discriminate.
    destruct (String.eqb_spec s "socks5://10.0.0.2:1080") as [->|Hne];
      [discriminate|].
    exfalso. revert H.
    repeat match goal with
           | |- context [match ?x with _ => _ end] => destruct x
           end; discriminate.
  - intros s msg [= <-]. reflexivity.
Qed.


(** ** Rows are never deleted *)

Lemma keeps_rows_ret {A} (a : A) : keeps_rows (ret a).
Proof. intros w tid H. exact H. Qed.

Lemma keeps_rows_raise {A} (e : exn) : keeps_rows (@raise A e).
Proof. intros w tid H. exact H. Qed.

Lemma keeps_rows_bind {A B} (m : M A) (k : A -> M B) :
  keeps_rows m -> (forall a, keeps_rows (k a)) -> keeps_rows (bind m k).
Proof.
  intros Hm Hk w tid H. unfold bind. specialize (Hm w tid H).
  destruct (m w) as [[a|e] w']; simpl in *; [|exact Hm].
  now apply Hk.
Qed.

Lemma keeps_rows_try_except {A} (body : M A) catches (handler : exn -> M A) :
  keeps_rows body -> (forall e, keeps_rows (handler e)) ->
  keeps_rows (try_except body catches handler).
Proof.
  intros Hb Hh w tid H. unfold try_except. specialize (Hb w tid H).
  destruct (body w) as [[a|e] w']; simpl in *; [exact Hb|].
  destruct (catches e); [now apply Hh|exact Hb].
Qed.

Lemma keeps_rows_keeps_db {A} (m : M A) : keeps_db m -> keeps_rows m.
Proof. intros Hm w tid H. now rewrite Hm. Qed.

Lemma keeps_rows_modify f :
  rows_preserving f -> keeps_rows (modify (with_db f)).
Proof. intros Hf w tid H. simpl. now apply Hf. Qed.

Lemma rows_preserving_alter (f : Token.t -> Token.t) token_id :
  rows_preserving (Database.with_tokens (alter f token_id)).
Proof.
  intros db tid H. unfold Database.get_token in *. simpl.
  now apply lookup_alter_is_Some.
Qed.

Lemma keeps_rows_time_time env : keeps_rows (time_time env).
Proof. intros w tid H. exact H. Qed.

Lemma keeps_rows_get_proxy_url env token_id proxy_url :
  keeps_rows (get_proxy_url env token_id proxy_url).
Proof.
  intros w tid H.
  destruct (get_proxy_url_frame env token_id proxy_url w)
    as (p & w' & E & Hb & _).
  rewrite E. simpl. destruct Hb as [->|(t & u & _ & ->)]; [exact H|].
  now apply rows_preserving_alter.
Qed.

Lemma stateless_decode_jwt env token : stateless (decode_jwt env token).
Proof. unfold decode_jwt. destruct (jwt_decode env token); intros w; reflexivity. Qed.

Lemma stateless_parser_parse env s : stateless (parser_parse env s).
Proof. unfold parser_parse. destruct (parse_date env s); intros w; reflexivity. Qed.

Create HintDb keeps_rows.
#[local] Hint Resolve keeps_rows_ret keeps_rows_raise keeps_rows_time_time
  keeps_rows_get_proxy_url : keeps_rows.
#[local] Hint Extern 1 (keeps_rows (session_request _ _)) =>
  apply keeps_rows_keeps_db, keeps_db_session_request : keeps_rows.
#[local] Hint Extern 1 (keeps_rows (response_json _)) =>
  apply keeps_rows_keeps_db, keeps_db_stateless, stateless_response_json
  : keeps_rows.
#[local] Hint Extern 1 (keeps_rows (as_dict _)) =>
  apply keeps_rows_keeps_db, keeps_db_stateless, stateless_as_dict : keeps_rows.
#[local] Hint Extern 1 (keeps_rows (decode_jwt _ _)) =>
  apply keeps_rows_keeps_db, keeps_db_stateless, stateless_decode_jwt
  : keeps_rows.
#[local] Hint Extern 1 (keeps_rows (parser_parse _ _)) =>
  apply keeps_rows_keeps_db, keeps_db_stateless, stateless_parser_parse
  : keeps_rows.
#[local] Hint Extern 1 (keeps_rows get_world) =>
  apply keeps_rows_keeps_db, keeps_db_stateless, stateless_get_world
  : keeps_rows.
#[local] Hint Extern 1 (keeps_rows (modify (with_db _))) =>
  apply keeps_rows_modify, rows_preserving_alter : keeps_rows.

Ltac keeps_rows_step :=
  match goal with
  | |- keeps_rows (bind _ _) => apply keeps_rows_bind; [|intros ?]
  | |- keeps_rows (try_except _ _ _) => apply keeps_rows_try_except; [|intros ?]
  | |- keeps_rows (match ?x with _ => _ end) => destruct x
  | |- keeps_rows _ => solve [auto with keeps_rows]
  end.

Ltac keeps_rows_auto := repeat keeps_rows_step.

Lemma keeps_rows_get_user_info env access_token token_id proxy_url :
  keeps_rows (get_user_info env access_token token_id proxy_url).
Proof. unfold get_user_info. keeps_rows_auto. Qed.

Lemma keeps_rows_get_subscription_info env token token_id proxy_url :
  keeps_rows (get_subscription_info env token token_id proxy_url).
Proof. unfold get_subscription_info. keeps_rows_auto. Qed.

#[local] Hint Resolve keeps_rows_get_user_info keeps_rows_get_subscription_info
  : keeps_rows.

Lemma keeps_rows_fetch_subscription env token token_id proxy_url critical :
  keeps_rows (fetch_subscription env token token_id proxy_url critical).
Proof. unfold fetch_subscription. keeps_rows_auto. Qed.

Lemma keeps_rows_get_sora2_invite_code env access_token token_id proxy_url :
  keeps_rows (get_sora2_invite_code env access_token token_id proxy_url).
Proof. unfold get_sora2_invite_code. keeps_rows_auto. Qed.

Lemma keeps_rows_get_sora2_remaining_count env access_token token_id proxy_url :
  keeps_rows (get_sora2_remaining_count env access_token token_id proxy_url).
Proof. unfold get_sora2_remaining_count. keeps_rows_auto. Qed.

Lemma keeps_rows_st_to_at env session_token proxy_url :
  keeps_rows (st_to_at env session_token proxy_url).
Proof. unfold st_to_at. keeps_rows_auto. Qed.

Lemma keeps_rows_rt_to_at env refresh_token client_id proxy_url :
  keeps_rows (rt_to_at env refresh_token client_id proxy_url).
Proof. unfold rt_to_at. keeps_rows_auto. Qed.

#[local] Hint Resolve keeps_rows_fetch_subscription
  keeps_rows_get_sora2_invite_code keeps_rows_get_sora2_remaining_count
  keeps_rows_st_to_at keeps_rows_rt_to_at : keeps_rows.

Lemma keeps_rows_test_token env token_id : keeps_rows (test_token env token_id).
Proof. unfold test_token. cbv zeta. keeps_rows_auto. Qed.

(** ** Credential refresh *)


Lemma returns_ret {A} (P : A -> Prop) a : P a -> returns P (ret a).
Proof. intros H w a' w' [= <- _]. exact H. Qed.

Lemma returns_raise {A} (P : A -> Prop) e : returns P (raise e).
Proof. intros w a w' [=]. Qed.

Lemma returns_bind {A B} (P : B -> Prop) (m : M A) (k : A -> M B) :
  (forall a, returns P (k a)) -> returns P (bind m k).
Proof.
  intros Hk w b w'. unfold bind.
  destruct (m w) as [[a|e] w1]; [apply Hk|discriminate].
Qed.

Lemma returns_try_except {A} (P : A -> Prop) (body : M A) catches handler :
  returns P body -> (forall e, returns P (handler e)) ->
  returns P (try_except body catches handler).
Proof.
  intros Hb Hh w a w'. unfold try_except.
  destruct (body w) as [[a'|e] w1] eqn:E.
  - intros [= <- _]. eapply Hb, E.
  - destruct (catches e); [apply Hh|discriminate].
Qed.

Ltac returns_step :=
  match goal with
  | |- returns _ (bind _ _) => apply returns_bind; intros ?
  | |- returns _ (try_except _ _ _) => apply returns_try_except; [|intros ?]
  | |- returns _ (raise _) => apply returns_raise
  | |- returns _ (ret _) => apply returns_ret
  | |- returns _ (match ?x with _ => _ end) => destruct x eqn:?
  end.

Lemma st_to_at_nonempty env session_token proxy_url :
  returns (fun result => st_access_token result <> "")
    (st_to_at env session_token proxy_url).
Proof.
  unfold st_to_at. repeat returns_step.
  all: simpl; now apply String.eqb_neq.
Qed.

Lemma rt_to_at_nonempty env refresh_token client_id proxy_url :
  returns (fun result => rt_access_token result <> "")
    (rt_to_at env refresh_token client_id proxy_url).
Proof.
  unfold rt_to_at. repeat returns_step.
  all: simpl; now apply String.eqb_neq.
Qed.

Lemma st_to_at_run env session_token w :
  let rq := st_request session_token (w_db w) in
  exists res,
    st_to_at env session_token None w
    = (res, with_logged rq (remote env (length (w_log w)) rq) w)
    /\ match res with
       | Ok result => st_access_token result <> ""
       | Raise _ => True
       end.
Proof.
  intros rq.
  pose proof (st_to_at_log env session_token None w _ _
                (get_proxy_url_direct env None w)) as Hlog.
  cbv zeta in Hlog. fold (st_request session_token (w_db w)) in Hlog. fold rq in Hlog.
  destruct (st_to_at env session_token None w) as [res w'] eqn:E.
  simpl in Hlog. subst w'. exists res. split; [reflexivity|].
  destruct res as [result|e]; [|exact I].
  eapply st_to_at_nonempty, E.
Qed.

Lemma rt_to_at_run env refresh_token client_id w :
  let rq := rt_request refresh_token client_id (w_db w) in
  exists res,
    rt_to_at env refresh_token client_id None w
    = (res, with_logged rq (remote env (length (w_log w)) rq) w)
    /\ match res with
       | Ok result => rt_access_token result <> ""
       | Raise _ => True
       end.
Proof.
  intros rq.
  destruct (rt_to_at env refresh_token client_id None w) as [res w'] eqn:E.
  assert (Hw : w' = with_logged rq (remote env (length (w_log w)) rq) w).
  { change w' with (snd (res, w')). rewrite <- E. unfold rt_to_at.
    rewrite (bind_ok _ _ _ _ _ (get_proxy_url_direct env None w)).
    rewrite proxy_kwarg_of_pair.
    rewrite snd_try_except_stateless by (intros e; apply stateless_raise).
    rewrite snd_bind_stateless; [apply snd_session_request|].
    intros response. stateless_auto. }
  subst w'. exists res. split; [reflexivity|].
  destruct res as [result|e]; [|exact I].
  eapply rt_to_at_nonempty, E.
Qed.

Lemma keeps_rows_revalidate env token_id : keeps_rows (revalidate env token_id).
Proof.
  unfold revalidate.
  pose proof (keeps_rows_test_token env token_id).
  keeps_rows_auto.
Qed.

Lemma update_token_run env token_id new_at st rt w :
  new_at <> "" ->
  exists exp w_u,
    update_token env token_id (Some new_at) st rt false w = (Ok tt, w_u)
    /\ w_u = snd (revalidate env token_id
                    (with_db
                       (Database.update_token token_id
                          (Database.mkFields (Some new_at) st rt None exp
                             None None None)) w))
    /\ forall tid,
         is_Some (Database.get_token tid (w_db w)) ->
         is_Some (Database.get_token tid (w_db w_u)).
Proof.
  intros Hne. unfold update_token.
  assert (Ht : Py.truthy_str (Some new_at) = true).
  { simpl. now apply negb_true_iff, String.eqb_neq. }
  rewrite Ht. cbn [negb andb].
  match goal with
  | |- context [bind (try_except ?b is_Exception ?h) _ w] =>
      destruct (total_try_except b h (fun e => total_ret _) w) as (exp & w1 & E1);
      assert (Hw1 : w1 = w)
  end.
  { change w1 with (snd (Ok exp, w1)). rewrite <- E1.
    rewrite snd_try_except_stateless by (intros e; apply stateless_ret).
    apply stateless_bind; [apply stateless_decode_jwt|intros a; apply stateless_ret]. }
  subst w1. rewrite (bind_ok _ _ _ _ _ E1).
  unfold bind at 1, modify at 1. fold (revalidate env token_id).
  set (w_mid := with_db _ w).
  assert (Hrev : total (revalidate env token_id)).
  { apply total_try_except. intros e. apply total_ret. }
  destruct (Hrev w_mid) as ([] & w_u & Eu).
  exists exp, w_u. split; [exact Eu|].
  split; [unfold w_mid in Eu; now rewrite Eu|].
  intros tid H.
  pose proof (keeps_rows_revalidate env token_id w_mid tid) as K.
  rewrite Eu in K. apply K. subst w_mid. simpl.
  now apply rows_preserving_alter.
Qed.

Lemma exchange_st_run env token_data w :
  let st := default "" (Token.st token_data) in
  let rq := st_request st (w_db w) in
  exists s w1,
    exchange_st env token_data w = (s, w1)
    /\ w_db w1 = w_db w
    /\ w_ticks w1 = w_ticks w
    /\ w_log w1 =
         ((if Py.truthy_str (Token.st token_data)
           then [(rq, remote env (length (w_log w)) rq)] else []) ++ w_log w)%list
    /\ match s with Some new_at => new_at <> "" | None => True end.
Proof.
  intros st rq. unfold exchange_st.
  destruct (Py.truthy_str (Token.st token_data)).
  - destruct (st_to_at_run env st w) as (res & E & H). fold st. rewrite E.
    destruct res as [result|e]; eexists _, _; (split; [reflexivity|]);
      repeat split; auto.
  - exists None, w. repeat split.
Qed.

Lemma exchange_rt_run env token_data w :
  let rt := default "" (Token.rt token_data) in
  let rq := rt_request rt (Token.client_id token_data) (w_db w) in
  exists r w2,
    exchange_rt env token_data w = (r, w2)
    /\ w_db w2 = w_db w
    /\ w_ticks w2 = w_ticks w
    /\ w_log w2 =
         ((if Py.truthy_str (Token.rt token_data)
           then [(rq, remote env (length (w_log w)) rq)] else []) ++ w_log w)%list
    /\ match r with Some (new_at, _) => new_at <> "" | None => True end.
Proof.
  intros rt rq. unfold exchange_rt.
  destruct (Py.truthy_str (Token.rt token_data)).
  - destruct (rt_to_at_run env rt (Token.client_id token_data) w) as (res & E & H).
    fold rt. rewrite E.
    destruct res as [result|e]; eexists _, _; (split; [reflexivity|]);
      repeat split; auto.
  - exists None, w. repeat split.
Qed.

Lemma st_step_run env token_data w :
  (if Py.truthy_str (Token.st token_data) then
     try_except
       (let* result := st_to_at env (default "" (Token.st token_data)) None in
        ret (Some (st_access_token result), Token.st token_data))
       is_Exception
       (fun _ => ret (None, None))
   else ret (None, None)) w
  = (Ok (match fst (exchange_st env token_data w) with
         | Some new_at => (Some new_at, Token.st token_data)
         | None => (None, None)
         end),
     snd (exchange_st env token_data w)).
Proof.
  unfold exchange_st. destruct (Py.truthy_str (Token.st token_data)); [|reflexivity].
  unfold try_except, bind.
  destruct (st_to_at env (default "" (Token.st token_data)) None w) as [[r|e] w'];
    reflexivity.
Qed.

Lemma rt_step_run env token_data w :
  (if negb (Py.truthy_str None) && Py.truthy_str (Token.rt token_data) then
     try_except
       (let* result :=
          rt_to_at env (default "" (Token.rt token_data))
            (Token.client_id token_data) None in
        ret (Some (rt_access_token result), rt_refresh_token result))
       is_Exception
       (fun _ => ret (None, None))
   else ret (None, None)) w
  = (Ok (match fst (exchange_rt env token_data w) with
         | Some (new_at, new_rt) => (Some new_at, new_rt)
         | None => (None, None)
         end),
     snd (exchange_rt env token_data w)).
Proof.
  unfold exchange_rt. cbn [Py.truthy_str negb andb].
  destruct (Py.truthy_str (Token.rt token_data)); [|reflexivity].
  unfold try_except, bind.
  destruct (rt_to_at env (default "" (Token.rt token_data))
              (Token.client_id token_data) None w) as [[r|e] w'];
    reflexivity.
Qed.

Lemma disabled_after token_id db tk :
  Database.get_token token_id db = Some tk ->
  Token.is_active
    <$> Database.get_token token_id (Database.update_token_status token_id false db)
  = Some false.
Proof.
  intros H. unfold Database.get_token, Database.update_token_status in *.
  simpl. now rewrite lookup_alter_eq, H.
Qed.

(** C3: for a credential of the table.  Without a known expiry, or with an
    expiry more than 24 hours away, [auto_refresh_expiring_token] returns
    false with no request made and nothing written.  Otherwise it tries the
    exchange through the session credential first and, only when that gave
    nothing, through the refresh credential; on the first success
    [update_token] stores the new primary credential; it returns false with
    the credential disabled when no exchange succeeded and when, after the
    update, the stored expiry is missing or already past; it returns true
    otherwise. *)
Theorem auto_refresh_expiring_token_spec env token_id w token_data :
  Database.get_token token_id (w_db w) = Some token_data ->
  match Token.expiry_time token_data with
  | None => auto_refresh_expiring_token env token_id w = (Ok (Some false), w)
  | Some expiry_time =>
      if Py.Qltb 24 (hours (expiry_time - clock env (w_ticks w))) then
        auto_refresh_expiring_token env token_id w
        = (Ok (Some false), with_tick w)
      else
        let w0 := with_tick w in
        let st := default "" (Token.st token_data) in
        let rt := default "" (Token.rt token_data) in
        let st_rq := st_request st (w_db w) in
        let rt_rq := rt_request rt (Token.client_id token_data) (w_db w) in
        exists s w1 r w2,
          exchange_st env token_data w0 = (s, w1)
          /\ exchange env token_data w0 = (r, w2)
          /\ w_log w1 =
               ((if Py.truthy_str (Token.st token_data)
                 then [(st_rq, remote env (length (w_log w)) st_rq)]
                 else []) ++ w_log w)%list
          /\ w_log w2 =
               ((match s with
                 | Some _ => []
                 | None =>
                     if Py.truthy_str (Token.rt token_data)
                     then [(rt_rq, remote env (length (w_log w1)) rt_rq)]
                     else []
                 end) ++ w_log w1)%list
          /\ match r with
             | None =>
                 exists w',
                   auto_refresh_expiring_token env token_id w
                   = (Ok (Some false), w')
                   /\ Token.is_active <$> Database.get_token token_id (w_db w')
                      = Some false
             | Some (new_at, new_st, new_rt) =>
                 exists exp w_u updated_token,
                   update_token env token_id (Some new_at) new_st new_rt false w2
                   = (Ok tt, w_u)
                   /\ w_u =
                        snd (revalidate env token_id
                               (with_db
                                  (Database.update_token token_id
                                     (Database.mkFields (Some new_at) new_st
                                        new_rt None exp None None None)) w2))
                   /\ Database.get_token token_id (w_db w_u) = Some updated_token
                   /\ if match Token.expiry_time updated_token with
                         | Some new_expiry_time =>
                             Py.Qltb
                               (hours (new_expiry_time - clock env (w_ticks w_u)))
                               0
                         | None => true
                         end
                      then
                        exists w',
                          auto_refresh_expiring_token env token_id w
                          = (Ok (Some false), w')
                          /\ Token.is_active
                               <$> Database.get_token token_id (w_db w')
                             = Some false
                      else
                        auto_refresh_expiring_token env token_id w
                        = (Ok (Some true), with_tick w_u)
             end
  end.
Proof.
  intros Hget.
  remember (auto_refresh_expiring_token env token_id w) as run eqn:Erun.
  unfold auto_refresh_expiring_token in Erun.
  unfold try_except at 1 in Erun. unfold bind at 1, get_world at 1 in Erun.
  rewrite Hget in Erun.
  destruct (Token.expiry_time token_data) as [expiry_time|]; [|exact Erun].
  unfold bind at 1, time_time at 1 in Erun.
  destruct (Py.Qltb 24 (hours (expiry_time - clock env (w_ticks w)))) eqn:E24;
    [exact Erun|].
  cbv zeta. set (w0 := with_tick w) in *.
  destruct (exchange_st_run env token_data w0)
    as (s & w1 & Es & Hdb1 & Ht1 & Hlog1 & Hs).
  cbv zeta in Hlog1.
  exists s, w1.
  unfold exchange. rewrite Es.
  unfold bind at 1 in Erun.
  match type of Erun with
  | context [let (_, _) := ?t w0 in _] =>
      replace (t w0)
        with (Ok (match fst (exchange_st env token_data w0) with
                  | Some new_at => (Some new_at, Token.st token_data)
                  | None => (None, None)
                  end),
              snd (exchange_st env token_data w0)) in Erun
        by (symmetry; apply st_step_run)
  end.
  rewrite Es in Erun. cbn [fst snd] in Erun.
  destruct s as [new_at|].
  - (* the session credential gave a new primary credential *)
    exists (Some (new_at, Token.st token_data, None)), w1.
    split; [reflexivity|]. split; [reflexivity|].
    split; [exact Hlog1|]. split; [reflexivity|].
    assert (Ht : Py.truthy_str (Some new_at) = true).
    { simpl. now apply negb_true_iff, String.eqb_neq. }
    unfold bind at 1 in Erun. rewrite Ht in Erun.
    cbn [negb andb] in Erun. unfold ret at 1 in Erun.
    rewrite Ht in Erun.
    destruct (update_token_run env token_id new_at (Token.st token_data) None w1 Hs)
      as (exp & w_u & Eu & Hwu & Hrows).
    destruct (Hrows token_id) as (updated_token & Hupd).
    { rewrite Hdb1. simpl. rewrite Hget. eauto. }
    exists exp, w_u, updated_token.
    split; [exact Eu|]. split; [exact Hwu|]. split; [exact Hupd|].
    unfold bind at 1 in Erun. rewrite Eu in Erun.
    unfold bind at 1, get_world at 1 in Erun. rewrite Hupd in Erun.
    destruct (Token.expiry_time updated_token) as [new_expiry_time|].
    + unfold bind at 1, time_time at 1 in Erun.
      unfold bind at 1, ret at 1 in Erun.
      destruct (Py.Qltb (hours (new_expiry_time - clock env (w_ticks w_u))) 0).
      * eexists. split; [exact Erun|]. simpl.
        apply disabled_after with updated_token. exact Hupd.
      * exact Erun.
    + unfold bind at 1, ret at 1 in Erun.
      eexists. split; [exact Erun|]. simpl.
      apply disabled_after with updated_token. exact Hupd.
  - (* nothing from the session credential: the refresh credential *)
    destruct (exchange_rt_run env token_data w1)
      as (r & w2 & Er & Hdb2 & Ht2 & Hlog2 & Hr).
    cbv zeta in Hlog2. rewrite Er.
    unfold bind at 1 in Erun.
    match type of Erun with
    | context [let (_, _) := ?t w1 in _] =>
        replace (t w1)
          with (Ok (match fst (exchange_rt env token_data w1) with
                    | Some (new_at, new_rt) => (Some new_at, new_rt)
                    | None => (None, None)
                    end),
                snd (exchange_rt env token_data w1)) in Erun
          by (symmetry; apply rt_step_run)
    end.
    rewrite Er in Erun. cbn [fst snd] in Erun.
    destruct r as [[new_at new_rt]|].
    + exists (Some (new_at, None, new_rt)), w2.
      split; [reflexivity|]. split; [reflexivity|].
      split; [exact Hlog1|].
      split; [rewrite Hlog2, Hdb1; reflexivity|].
      assert (Ht : Py.truthy_str (Some new_at) = true).
      { simpl. now apply negb_true_iff, String.eqb_neq. }
      rewrite Ht in Erun.
      destruct (update_token_run env token_id new_at None new_rt w2 Hr)
        as (exp & w_u & Eu & Hwu & Hrows).
      destruct (Hrows token_id) as (updated_token & Hupd).
      { rewrite Hdb2, Hdb1. simpl. rewrite Hget. eauto. }
      exists exp, w_u, updated_token.
      split; [exact Eu|]. split; [exact Hwu|]. split; [exact Hupd|].
      unfold bind at 1 in Erun. rewrite Eu in Erun.
      unfold bind at 1, get_world at 1 in Erun. rewrite Hupd in Erun.
      destruct (Token.expiry_time updated_token) as [new_expiry_time|].
      * unfold bind at 1, time_time at 1 in Erun.
        unfold bind at 1, ret at 1 in Erun.
        destruct (Py.Qltb (hours (new_expiry_time - clock env (w_ticks w_u))) 0).
        -- eexists. split; [exact Erun|]. simpl.
           apply disabled_after with updated_token. exact Hupd.
        -- exact Erun.
      * unfold bind at 1, ret at 1 in Erun.
        eexists. split; [exact Erun|]. simpl.
        apply disabled_after with updated_token. exact Hupd.
    + exists None, w2.
      split; [reflexivity|]. split; [reflexivity|].
      split; [exact Hlog1|].
      split; [rewrite Hlog2, Hdb1; reflexivity|].
      cbn [Py.truthy_str] in Erun.
      eexists. split; [exact Erun|]. simpl.
      apply disabled_after with token_data.
      rewrite Hdb2, Hdb1. exact Hget.
Qed.

Lemma auto_refresh_expiring_token_spec_witness :
  exists w',
    auto_refresh_expiring_token Sample.env_reg 1 Sample.world1
    = (Ok (Some false), w')
    /\ Token.is_active <$> Database.get_token 1 (w_db w') = Some false.
Proof.
  pose proof (auto_refresh_expiring_token_spec Sample.env_reg 1 Sample.world1
                Sample.token1 eq_refl) as H.
  change (Token.expiry_time Sample.token1) with (Some 2000%Q) in H.
  cbv iota in H.
  change (Py.Qltb 24 (hours (2000 - clock Sample.env_reg (w_ticks Sample.world1))))
    with false in H.
  cbv iota zeta in H.
  destruct H as (s & w1 & r & w2 & _ & Er & _ & _ & Hr).
  vm_compute in Er. injection Er as <- _.
  exact Hr.
Defined.

(** The scenario of the specification: the expiry is near, the session
    credential is valid.  The exchange is made, the new primary credential
    and its expiry are stored, the credential stays active, and the function
    returns true. *)
Example auto_refresh_with_valid_session :
  exists w' tk,
    auto_refresh_expiring_token Sample.env_session 1 Sample.world1
    = (Ok (Some true), w')
    /\ Database.get_token 1 (w_db w') = Some tk
    /\ Token.token tk = "at-new"
    /\ Token.expiry_time tk = Some 100000%Q
    /\ Token.is_active tk = true.
Proof.
  eexists _, _. split; [vm_compute; reflexivity|].
  vm_compute. repeat split.
Qed.

(** * Further properties *)

Local Open Scope py_scope.

(** ** The health score as a ranking *)

Lemma N2Q_nonneg (n : N) : (0 <= Py.N2Q n)%Q.
Proof.
  unfold Py.N2Q. change 0%Q with (inject_Z 0). rewrite <- Zle_Qle. lia.
Qed.

Lemma N2Q_pos (n : N) : n <> 0%N -> (0 < Py.N2Q n)%Q.
Proof.
  intros Hn. unfold Py.N2Q. change 0%Q with (inject_Z 0). rewrite <- Zlt_Qlt. lia.
Qed.

Lemma N2Q_le (a b : N) : (a <= b)%N -> (Py.N2Q a <= Py.N2Q b)%Q.
Proof. intros H. unfold Py.N2Q. rewrite <- Zle_Qle. lia. Qed.

Lemma success_rate_range (s f : N) :
  (s + f)%N <> 0%N ->
  (0 <= Py.N2Q s / Py.N2Q (s + f))%Q /\ (Py.N2Q s / Py.N2Q (s + f) <= 1)%Q.
Proof.
  intros Ht. pose proof (N2Q_pos _ Ht) as Hpos. split.
  - apply Qle_shift_div_l; [exact Hpos|]. rewrite Qmult_0_l. apply N2Q_nonneg.
  - apply Qle_shift_div_r; [exact Hpos|]. rewrite Qmult_1_l. apply N2Q_le. lia.
Qed.

Lemma min_one_range (x : Q) :
  (0 <= x)%Q -> (0 <= Py.min 1 x)%Q /\ (Py.min 1 x <= 1)%Q.
Proof.
  intros Hx. unfold Py.min. destruct (Py.Qltb x 1) eqn:E.
  - apply Qltb_lt in E. split; [exact Hx | now apply Qlt_le_weak].
  - split; lra.
Qed.

Lemma min_one_mono (x y : Q) : (x <= y)%Q -> (Py.min 1 x <= Py.min 1 y)%Q.
Proof.
  intros Hxy. unfold Py.min.
  destruct (Py.Qltb x 1) eqn:Ex; destruct (Py.Qltb y 1) eqn:Ey.
  - exact Hxy.
  - apply Qltb_lt in Ex. now apply Qlt_le_weak.
  - apply Qltb_lt in Ey.
    assert (~ (x < 1)%Q) by (intros H; apply Qltb_lt in H; congruence). lra.
  - lra.
Qed.

(** X1: A proxy that has been probed at least once and whose average response
    time is not negative has a health score between 2.1 and 10. *)
Theorem health_score_range (p : ProxyInfo) :
  (success_count p + failure_count p)%N <> 0%N ->
  (0 <= avg_response_time p)%Q ->
  (21 # 10 <= health_score p)%Q /\ (health_score p <= 10)%Q.
Proof.
  intros Ht Havg. unfold health_score.
  destruct (N.eqb_spec (success_count p + failure_count p) 0) as [E|_];
    [contradiction|].
  destruct (success_rate_range _ _ Ht) as [Hr0 Hr1].
  assert (Hx : (0 <= avg_response_time p / 10)%Q).
  { apply Qle_shift_div_l; lra. }
  destruct (min_one_range _ Hx) as [Hm0 Hm1].
  cbv zeta.
  set (r := (Py.N2Q (success_count p)
             / Py.N2Q (success_count p + failure_count p))%Q) in *.
  set (m := Py.min 1 (avg_response_time p / 10)) in *.
  split; lra.
Qed.

Lemma health_score_range_witness :
  (21 # 10 <= health_score Sample.known_proxy)%Q
  /\ (health_score Sample.known_proxy <= 10)%Q.
Proof.
  apply (health_score_range Sample.known_proxy).
  - vm_compute. discriminate.
  - vm_compute. discriminate.
Defined.

(** X2: Of two probed proxies, the one whose success rate is not lower and
    whose average response time is not higher has a health score that is not
    lower. *)
Theorem health_score_monotone (p q : ProxyInfo) :
  (success_count p + failure_count p)%N <> 0%N ->
  (success_count q + failure_count q)%N <> 0%N ->
  (success_count p * (success_count q + failure_count q)
   <= success_count q * (success_count p + failure_count p))%N ->
  (avg_response_time q <= avg_response_time p)%Q ->
  (health_score p <= health_score q)%Q.
Proof.
  intros Hp Hq Hrate Havg. unfold health_score.
  destruct (N.eqb_spec (success_count p + failure_count p) 0) as [E|_];
    [contradiction|].
  destruct (N.eqb_spec (success_count q + failure_count q) 0) as [E|_];
    [contradiction|].
  cbv zeta.
  assert (Hr : (Py.N2Q (success_count p)
                / Py.N2Q (success_count p + failure_count p)
                <= Py.N2Q (success_count q)
                   / Py.N2Q (success_count q + failure_count q))%Q).
  { pose proof (N2Q_pos _ Hp) as Pp. pose proof (N2Q_pos _ Hq) as Pq.
    apply Qle_shift_div_r; [exact Pp|].
    unfold Qdiv. rewrite <- Qmult_assoc.
    rewrite (Qmult_comm (/ _)). rewrite Qmult_assoc.
    apply Qle_shift_div_l; [exact Pq|].
    unfold Py.N2Q. rewrite <- !inject_Z_mult, <- Zle_Qle. lia. }
  assert (Hm : (Py.min 1 (avg_response_time q / 10)
                <= Py.min 1 (avg_response_time p / 10))%Q).
  { apply min_one_mono. unfold Qdiv. apply Qmult_le_compat_r; [exact Havg|].
    discriminate. }
  set (rp := (Py.N2Q (success_count p)
              / Py.N2Q (success_count p + failure_count p))%Q) in *.
  set (rq := (Py.N2Q (success_count q)
              / Py.N2Q (success_count q + failure_count q))%Q) in *.
  set (mp := Py.min 1 (avg_response_time p / 10)) in *.
  set (mq := Py.min 1 (avg_response_time q / 10)) in *.
  lra.
Qed.

Lemma health_score_monotone_witness :
  (health_score Sample.known_proxy <= health_score Scenario.fast_proxy)%Q.
Proof.
  apply (health_score_monotone Sample.known_proxy Scenario.fast_proxy).
  - vm_compute. discriminate.
  - vm_compute. discriminate.
  - vm_compute. discriminate.
  - vm_compute. discriminate.
Defined.

(** ** Health reports on a known proxy *)

Lemma Qeqb_eq (a b : Q) : Py.Qeqb a b = true <-> (a == b)%Q.
Proof. unfold Py.Qeqb, Qeq. apply Z.eqb_eq. Qed.



Lemma too_many_failures_counts (s f : N) :
  too_many_failures s f = (3 <=? f)%N && (s <? f)%N.
Proof.
  unfold too_many_failures, FAILURE_THRESHOLD.
  destruct (N.leb_spec 3 f) as [H3|H3]; cbn [andb]; [|reflexivity].
  rewrite failure_ratio_gt_half by lia.
  destruct (N.eqb_spec s 0) as [->|Hs]; cbn [orb]; [|reflexivity].
  symmetry. apply N.ltb_lt. lia.
Qed.

(** X4: A failure report on a known, healthy proxy marks it unhealthy exactly
    when the failures, this one included, are at least three and outnumber
    the successes; an unhealthy record stays unhealthy.  The success count,
    the average response time and every other record are left as they
    were. *)
Theorem report_failure_outnumbered env u w proxy :
  Dict.get u (w_proxies w) = Some proxy ->
  exists w' proxy',
    report_failure env u w = (Ok tt, w')
    /\ Dict.get u (w_proxies w') = Some proxy'
    /\ failure_count proxy' = (failure_count proxy + 1)%N
    /\ success_count proxy' = success_count proxy
    /\ avg_response_time proxy' = avg_response_time proxy
    /\ is_healthy proxy' =
         is_healthy proxy
         && negb ((3 <=? failure_count proxy')%N
                  && (success_count proxy <? failure_count proxy')%N)
    /\ forall u', u' <> u ->
         Dict.get u' (w_proxies w') = Dict.get u' (w_proxies w).
Proof.
  intros Hu. eexists _, _. split; [apply (report_failure_present _ _ _ _ Hu)|].
  cbn [w_proxies with_proxies with_tick]. rewrite dict_get_set_eq.
  split; [reflexivity|].
  cbn [is_healthy success_count failure_count avg_response_time
       record_failure_on].
  do 3 (split; [reflexivity|]). split.
  - rewrite too_many_failures_counts.
    destruct ((3 <=? failure_count proxy + 1)%N
              && (success_count proxy <? failure_count proxy + 1)%N);
      cbn [negb]; [now rewrite andb_false_r | now rewrite andb_true_r].
  - intros u' Hne. now apply dict_get_set_ne.
Qed.

Lemma report_failure_outnumbered_witness :
  exists w' proxy',
    report_failure Sample.env "socks5://10.0.0.1:1080" Sample.world = (Ok tt, w')
    /\ Dict.get "socks5://10.0.0.1:1080" (w_proxies w') = Some proxy'
    /\ failure_count proxy' = 3%N
    /\ is_healthy proxy' = true.
Proof.
  destruct (report_failure_outnumbered Sample.env "socks5://10.0.0.1:1080"
              Sample.world Sample.known_proxy)
    as (w' & proxy' & Hrun & Hget & Hf & _ & _ & Hh & _).
  - reflexivity.
  - exists w', proxy'. split; [exact Hrun|]. split; [exact Hget|].
    split; [exact Hf|]. rewrite Hh, Hf. reflexivity.
Defined.

(** ** The pool stays a dictionary keyed by URL *)

Lemma str_in_In (x : string) (l : list string) : str_in x l = true <-> In x l.
Proof.
  unfold str_in. rewrite existsb_exists. split.
  - intros (y & Hy & E). apply String.eqb_eq in E. now subst.
  - intros H. exists x. split; [exact H | apply String.eqb_refl].
Qed.

Lemma str_in_app (x : string) (l1 l2 : list string) :
  str_in x (l1 ++ l2) = str_in x l1 || str_in x l2.
Proof. unfold str_in. apply existsb_app. Qed.

Lemma uniq_snoc (l : list string) (k : string) :
  uniq l = true -> str_in k l = false -> uniq (l ++ [k]) = true.
Proof.
  induction l as [|x l IH]; cbn [uniq app str_in existsb]; [reflexivity|].
  rewrite !andb_true_iff, !negb_true_iff, orb_false_iff.
  intros [Hx Hl] [Hk Hkl]. split; [|now apply IH].
  rewrite str_in_app, Hx. cbn [str_in existsb orb].
  rewrite String.eqb_sym, Hk. reflexivity.
Qed.

Section PoolDict.
Context {V : Type}.
Implicit Types (d : Dict.t V) (k : string) (v : V).

Lemma dict_get_In d k v : Dict.get k d = Some v -> In (k, v) d.
Proof.
  induction d as [|[k' v'] d IH]; cbn [Dict.get]; [discriminate|].
  destruct (String.eqb_spec k k') as [->|Hne].
  - intros [= ->]. now left.
  - intros H. right. now apply IH.
Qed.

Lemma dict_keys_set d k v :
  Dict.keys (Dict.set k v d)
  = if str_in k (Dict.keys d) then Dict.keys d else (Dict.keys d ++ [k])%list.
Proof.
  induction d as [|[k' v'] d IH];
    cbn [Dict.set Dict.keys map fst str_in existsb app]; [reflexivity|].
  destruct (String.eqb_spec k k') as [->|Hne]; cbn [orb map fst];
    [reflexivity|].
  unfold Dict.keys, str_in in IH. rewrite IH.
  now destruct (existsb (String.eqb k) (map fst d)).
Qed.

Lemma uniq_keys_set d k v :
  uniq (Dict.keys d) = true -> uniq (Dict.keys (Dict.set k v d)) = true.
Proof.
  intros Hu. rewrite dict_keys_set. destruct (str_in k (Dict.keys d)) eqn:E;
    [exact Hu | now apply uniq_snoc].
Qed.

Lemma forallb_set (P : string * V -> bool) d k v :
  P (k, v) = true -> forallb P d = true -> forallb P (Dict.set k v d) = true.
Proof.
  intros Hk. induction d as [|[k' v'] d IH]; cbn [Dict.set forallb].
  - now rewrite Hk.
  - rewrite andb_true_iff. intros [H1 H2].
    destruct (String.eqb_spec k k') as [->|Hne]; cbn [forallb].
    + now rewrite Hk, H2.
    + now rewrite H1, IH.
Qed.

End PoolDict.

Lemma pool_wf_get pool k r :
  pool_wf pool = true -> Dict.get k pool = Some r -> url r = k.
Proof.
  unfold pool_wf. rewrite andb_true_iff. intros [_ Hall] Hget.
  apply dict_get_In in Hget. rewrite forallb_forall in Hall.
  specialize (Hall _ Hget). now apply String.eqb_eq in Hall.
Qed.

Lemma pool_wf_set pool k r :
  url r = k -> pool_wf pool = true -> pool_wf (Dict.set k r pool) = true.
Proof.
  unfold pool_wf. rewrite !andb_true_iff. intros Hk [Hu Hall]. split.
  - now apply uniq_keys_set.
  - apply forallb_set; [|exact Hall]. cbn [fst snd]. rewrite Hk.
    apply String.eqb_refl.
Qed.

Lemma pool_wf_refresh_entry st pd :
  pool_wf (fst st) = true -> pool_wf (snd st) = true ->
  pool_wf (fst (refresh_entry st pd)) = true
  /\ pool_wf (snd (refresh_entry st pd)) = true.
Proof.
  destruct st as [old new_proxies]. cbn [fst snd]. intros Ho Hn.
  rewrite refresh_entry_cases. destruct (passes_filter pd); [|now split].
  destruct (Dict.get (key_of pd) old) as [existing|] eqn:E; cbn [fst snd].
  - pose proof (pool_wf_get _ _ _ Ho E) as Hurl.
    split; apply pool_wf_set; auto.
  - split; [exact Ho|]. now apply pool_wf_set.
Qed.

Lemma pool_wf_refresh_entries items : forall st,
  pool_wf (fst st) = true -> pool_wf (snd st) = true ->
  pool_wf (snd (fold_left refresh_entry items st)) = true.
Proof.
  induction items as [|pd items IH]; intros st Ho Hn; cbn [fold_left];
    [exact Hn|].
  destruct (pool_wf_refresh_entry st pd Ho Hn) as [Ho' Hn']. now apply IH.
Qed.

Lemma pool_wf_refreshed env w :
  pool_wf (w_proxies w) = true -> pool_wf (w_proxies (refreshed env w)) = true.
Proof.
  intros Hw. unfold refreshed.
  destruct (remote env (length (w_log w)) proxy_list_request) as [msg|r];
    [exact Hw|].
  destruct (status_code r =? 200)%Z; [|exact Hw].
  destruct (json r) as [[items|o|]|]; try exact Hw.
  cbn [w_proxies with_last_refresh with_tick with_proxies with_logged].
  unfold refresh_entries. now apply pool_wf_refresh_entries.
Qed.

Lemma keeps_pool_wf_ret {A} (a : A) : keeps_pool_wf (ret a).
Proof. intros w H. exact H. Qed.

Lemma keeps_pool_wf_raise {A} (e : exn) : keeps_pool_wf (@raise A e).
Proof. intros w H. exact H. Qed.

Lemma keeps_pool_wf_bind {A B} (m : M A) (k : A -> M B) :
  keeps_pool_wf m -> (forall a, keeps_pool_wf (k a)) -> keeps_pool_wf (bind m k).
Proof.
  intros Hm Hk w Hw. unfold bind. specialize (Hm w Hw).
  destruct (m w) as [[a|e] w1]; cbn [snd] in *; [now apply Hk | exact Hm].
Qed.

Lemma keeps_pool_wf_try_except {A} (body : M A) catches (handler : exn -> M A) :
  keeps_pool_wf body -> (forall e, keeps_pool_wf (handler e)) ->
  keeps_pool_wf (try_except body catches handler).
Proof.
  intros Hb Hh w Hw. unfold try_except. specialize (Hb w Hw).
  destruct (body w) as [[a|e] w1]; cbn [snd] in *; [exact Hb|].
  destruct (catches e); [now apply Hh | exact Hb].
Qed.

Lemma keeps_pool_wf_gather {A} (tasks : list (M A)) :
  Forall keeps_pool_wf tasks -> keeps_pool_wf (gather tasks).
Proof.
  induction 1 as [|task tasks Ht _ IH]; [apply keeps_pool_wf_ret|].
  intros w Hw. cbn [gather]. specialize (Ht w Hw).
  destruct (task w) as [r w1]. cbn [snd] in Ht.
  apply (keeps_pool_wf_bind (gather tasks) (fun x => ret (r :: x)));
    [exact IH | intros; apply keeps_pool_wf_ret | exact Ht].
Qed.

Lemma keeps_pool_wf_same {A} (m : M A) :
  (forall w, w_proxies (snd (m w)) = w_proxies w) -> keeps_pool_wf m.
Proof. intros H w Hw. now rewrite H. Qed.

Lemma keeps_pool_wf_get_world : keeps_pool_wf get_world.
Proof. now apply keeps_pool_wf_same. Qed.

Lemma keeps_pool_wf_time_time env : keeps_pool_wf (time_time env).
Proof. now apply keeps_pool_wf_same. Qed.

Lemma keeps_pool_wf_session_request env rq : keeps_pool_wf (session_request env rq).
Proof.
  apply keeps_pool_wf_same. intros w. unfold session_request.
  now destruct (remote env (length (w_log w)) rq).
Qed.

Lemma keeps_pool_wf_with_db f : keeps_pool_wf (modify (with_db f)).
Proof. now apply keeps_pool_wf_same. Qed.

Lemma keeps_pool_wf_with_initialized b : keeps_pool_wf (modify (with_initialized b)).
Proof. now apply keeps_pool_wf_same. Qed.

Lemma keeps_pool_wf_with_free_proxy a b : keeps_pool_wf (modify (with_free_proxy a b)).
Proof. now apply keeps_pool_wf_same. Qed.

Lemma keeps_pool_wf_report_success env u rt : keeps_pool_wf (report_success env u rt).
Proof.
  intros w Hw. destruct (Dict.get u (w_proxies w)) as [proxy|] eqn:E.
  - rewrite (report_success_present _ _ _ _ _ E).
    cbn [snd w_proxies with_proxies with_tick].
    apply pool_wf_set; [|exact Hw]. cbn [url record_success_on].
    exact (pool_wf_get _ _ _ Hw E).
  - now rewrite (report_success_absent _ _ _ _ E).
Qed.

Lemma keeps_pool_wf_report_failure env u : keeps_pool_wf (report_failure env u).
Proof.
  intros w Hw. destruct (Dict.get u (w_proxies w)) as [proxy|] eqn:E.
  - rewrite (report_failure_present _ _ _ _ E).
    cbn [snd w_proxies with_proxies with_tick].
    apply pool_wf_set; [|exact Hw]. cbn [url record_failure_on].
    exact (pool_wf_get _ _ _ Hw E).
  - now rewrite (report_failure_absent _ _ _ E).
Qed.

Lemma keeps_pool_wf_refresh env : keeps_pool_wf (_refresh_proxy_list env).
Proof. intros w Hw. rewrite refresh_run. now apply pool_wf_refreshed. Qed.

Create HintDb keeps_pool_wf.
#[local] Hint Resolve keeps_pool_wf_ret keeps_pool_wf_raise keeps_pool_wf_get_world
  keeps_pool_wf_time_time keeps_pool_wf_session_request keeps_pool_wf_with_db
  keeps_pool_wf_with_initialized keeps_pool_wf_with_free_proxy
  keeps_pool_wf_report_success keeps_pool_wf_report_failure
  keeps_pool_wf_refresh : keeps_pool_wf.

Ltac keeps_pool_wf_step :=
  match goal with
  | |- keeps_pool_wf (bind _ _) => apply keeps_pool_wf_bind; [|intros ?]
  | |- keeps_pool_wf (try_except _ _ _) =>
      apply keeps_pool_wf_try_except; [|intros ?]
  | |- keeps_pool_wf (match ?x with _ => _ end) => destruct x
  | |- keeps_pool_wf (let (_, _) := ?x in _) => destruct x
  | |- keeps_pool_wf _ => solve [auto with keeps_pool_wf]
  end.

Ltac keeps_pool_wf_auto := repeat keeps_pool_wf_step.

Lemma keeps_pool_wf_initialize env : keeps_pool_wf (initialize env).
Proof. unfold initialize. keeps_pool_wf_auto. Qed.

Lemma keeps_pool_wf_ensure_fresh env : keeps_pool_wf (_ensure_fresh_proxies env).
Proof. unfold _ensure_fresh_proxies. keeps_pool_wf_auto. Qed.

#[local] Hint Resolve keeps_pool_wf_initialize keeps_pool_wf_ensure_fresh
  : keeps_pool_wf.

Lemma keeps_pool_wf_get_best_proxy env exclude_urls :
  keeps_pool_wf (get_best_proxy env exclude_urls).
Proof. unfold get_best_proxy. keeps_pool_wf_auto. Qed.

Lemma keeps_pool_wf_health_check_proxy env u :
  keeps_pool_wf (health_check_proxy env u).
Proof. unfold health_check_proxy. keeps_pool_wf_auto. Qed.

Lemma keeps_pool_wf_test_proxy env u : keeps_pool_wf (test_proxy env u).
Proof. unfold test_proxy. keeps_pool_wf_auto. Qed.

#[local] Hint Resolve keeps_pool_wf_get_best_proxy
  keeps_pool_wf_health_check_proxy keeps_pool_wf_test_proxy : keeps_pool_wf.

Lemma keeps_pool_wf_bind_loop env token_id : forall remaining tried,
  keeps_pool_wf (bind_loop env remaining token_id tried).
Proof.
  induction remaining as [|remaining IH]; intros tried; cbn [bind_loop];
    keeps_pool_wf_auto.
Qed.

Lemma keeps_pool_wf_bind_proxy_to_token env token_id exclude_urls max_attempts :
  keeps_pool_wf (bind_proxy_to_token env token_id exclude_urls max_attempts).
Proof.
  unfold bind_proxy_to_token. keeps_pool_wf_step;
    [auto with keeps_pool_wf | apply keeps_pool_wf_bind_loop].
Qed.

#[local] Hint Resolve keeps_pool_wf_bind_proxy_to_token : keeps_pool_wf.

Lemma keeps_pool_wf_find_fastest env exclude_urls max_test max_concurrent :
  keeps_pool_wf
    (find_fastest_working_proxy env exclude_urls max_test max_concurrent).
Proof.
  unfold find_fastest_working_proxy.
  apply keeps_pool_wf_bind; [auto with keeps_pool_wf | intros _].
  apply keeps_pool_wf_bind; [auto with keeps_pool_wf | intros w].
  destruct (proxies_to_test exclude_urls max_test (w_proxies w)) as [|u l];
    [auto with keeps_pool_wf|].
  apply keeps_pool_wf_bind.
  - apply keeps_pool_wf_gather. apply List.Forall_forall. intros t Ht.
    apply in_map_iff in Ht. destruct Ht as (x & <- & _).
    apply keeps_pool_wf_test_proxy.
  - intros completed. keeps_pool_wf_auto.
Qed.

Lemma keeps_pool_wf_get_proxy_url env token_id proxy_url :
  keeps_pool_wf (get_proxy_url env token_id proxy_url).
Proof.
  unfold get_proxy_url, global_fallback.
  destruct (Py.truthy_str proxy_url); [auto with keeps_pool_wf|].
  destruct token_id as [tid|]; [|keeps_pool_wf_auto].
  apply keeps_pool_wf_bind; [auto with keeps_pool_wf | intros w].
  destruct (Database.get_token tid (w_db w)) as [tk|]; [|keeps_pool_wf_auto].
  destruct (Py.truthy_str (Token.proxy_url tk)); [auto with keeps_pool_wf|].
  destruct (w_free_proxy_enabled w && w_free_proxy_manager w);
    keeps_pool_wf_auto.
Qed.

Lemma keeps_pool_wf_rebind env token_id failed_proxy_url :
  keeps_pool_wf (rebind_proxy_on_failure env token_id failed_proxy_url).
Proof. unfold rebind_proxy_on_failure. keeps_pool_wf_auto. Qed.

Lemma keeps_pool_wf_batch env max_concurrent :
  keeps_pool_wf (batch_health_check env max_concurrent).
Proof.
  unfold batch_health_check.
  apply keeps_pool_wf_bind; [auto with keeps_pool_wf | intros _].
  apply keeps_pool_wf_bind; [auto with keeps_pool_wf | intros w].
  apply keeps_pool_wf_bind; [|intros; auto with keeps_pool_wf].
  apply keeps_pool_wf_gather. apply List.Forall_forall. intros t Ht.
  apply in_map_iff in Ht. destruct Ht as (x & <- & _).
  unfold check_with_semaphore. keeps_pool_wf_auto.
Qed.

Lemma keeps_pool_wf_bind_fastest env token_id :
  keeps_pool_wf (bind_fastest_proxy_to_token env token_id).
Proof.
  unfold bind_fastest_proxy_to_token.
  apply keeps_pool_wf_bind; [auto with keeps_pool_wf | intros w].
  apply keeps_pool_wf_bind; [apply keeps_pool_wf_find_fastest | intros res].
  keeps_pool_wf_auto.
Qed.

Lemma keeps_pool_wf_report_proxy_success env token_id rt :
  keeps_pool_wf (report_proxy_success env token_id rt).
Proof. unfold report_proxy_success. keeps_pool_wf_auto. Qed.

Lemma keeps_pool_wf_report_proxy_failure env token_id :
  keeps_pool_wf (report_proxy_failure env token_id).
Proof.
  unfold report_proxy_failure. keeps_pool_wf_auto.
  apply keeps_pool_wf_rebind.
Qed.

(** X5: The pool stays a dictionary keyed by URL: when no key occurs twice
    and every record sits under its own URL, the same holds after a
    refresh, a success or failure report, a probe, a selection, a binding, a
    rebinding, a batch check, a race and a proxy resolution, whatever the
    network answers. *)
Theorem pool_stays_keyed_by_url env w :
  pool_wf (w_proxies w) = true ->
  (forall op, pool_wf (w_proxies (snd (run_op env op w))) = true)
  /\ (forall u, pool_wf (w_proxies (snd (health_check_proxy env u w))) = true)
  /\ (forall ex, pool_wf (w_proxies (snd (get_best_proxy env ex w))) = true)
  /\ (forall tid ex n,
        pool_wf (w_proxies (snd (bind_proxy_to_token env tid ex n w))) = true)
  /\ (forall tid u,
        pool_wf (w_proxies (snd (rebind_proxy_on_failure env tid u w))) = true)
  /\ (forall n, pool_wf (w_proxies (snd (batch_health_check env n w))) = true)
  /\ (forall ex n c,
        pool_wf (w_proxies (snd (find_fastest_working_proxy env ex n c w))) = true)
  /\ (forall tid,
        pool_wf (w_proxies (snd (bind_fastest_proxy_to_token env tid w))) = true)
  /\ (forall tid u,
        pool_wf (w_proxies (snd (get_proxy_url env tid u w))) = true)
  /\ (forall tid rt,
        pool_wf (w_proxies (snd (report_proxy_success env tid rt w))) = true)
  /\ (forall tid,
        pool_wf (w_proxies (snd (report_proxy_failure env tid w))) = true).
Proof.
  intros Hw. repeat split; intros.
  - destruct op; cbn [run_op];
      [apply keeps_pool_wf_report_success | apply keeps_pool_wf_report_failure
      | apply keeps_pool_wf_refresh]; exact Hw.
  - now apply keeps_pool_wf_health_check_proxy.
  - now apply keeps_pool_wf_get_best_proxy.
  - now apply keeps_pool_wf_bind_proxy_to_token.
  - now apply keeps_pool_wf_rebind.
  - now apply keeps_pool_wf_batch.
  - now apply keeps_pool_wf_find_fastest.
  - now apply keeps_pool_wf_bind_fastest.
  - now apply keeps_pool_wf_get_proxy_url.
  - now apply keeps_pool_wf_report_proxy_success.
  - now apply keeps_pool_wf_report_proxy_failure.
Qed.

Lemma pool_stays_keyed_by_url_witness :
  pool_wf (w_proxies (snd (_refresh_proxy_list Sample.env Sample.world))) = true.
Proof.
  destruct (pool_stays_keyed_by_url Sample.env Sample.world) as [H _].
  - reflexivity.
  - exact (H OpRefresh).
Defined.

(** ** Fetching the list *)

Lemma refreshed_log env w :
  w_log (refreshed env w)
  = (proxy_list_request, remote env (length (w_log w)) proxy_list_request)
    :: w_log w.
Proof.
  unfold refreshed.
  destruct (remote env (length (w_log w)) proxy_list_request) as [msg|r];
    [reflexivity|].
  destruct (status_code r =? 200)%Z; [|reflexivity].
  now destruct (json r) as [[items|o|]|].
Qed.



(** X7: Freshness of the pool: when the pool was never refreshed with
    success, or the clock reads more than 300 seconds after the last such
    refresh, exactly one fetch of the list is made; otherwise nothing happens
    but the reading of the clock.  Nothing is raised either way. *)
Theorem ensure_fresh_fetches_when_due env w :
  let due :=
    match w_last_refresh w with
    | None => True
    | Some last => (300 < clock env (w_ticks w) - last)%Q
    end in
  exists w',
    _ensure_fresh_proxies env w = (Ok tt, w')
    /\ (due ->
        w_log w' = (proxy_list_request,
                    remote env (length (w_log w)) proxy_list_request) :: w_log w)
    /\ (~ due -> w' = with_tick w).
Proof.
  unfold _ensure_fresh_proxies, bind, get_world, time_time.
  destruct (w_last_refresh w) as [last|]; cbv zeta.
  - destruct (Py.Qltb REFRESH_INTERVAL (clock env (w_ticks w) - last)) eqn:E.
    + rewrite refresh_run. eexists. split; [reflexivity|]. split.
      * intros _. now rewrite refreshed_log.
      * intros Hn. exfalso. apply Hn. now apply Qltb_lt in E.
    + eexists. split; [reflexivity|]. split; [|reflexivity].
      intros Hd. apply Qltb_lt in Hd. unfold REFRESH_INTERVAL in E. congruence.
  - rewrite refresh_run. eexists. split; [reflexivity|]. split.
    + intros _. now rewrite refreshed_log.
    + intros Hn. exfalso. now apply Hn.
Qed.

(** ** Ranking and selection *)

Lemma Qltb_ge (a b : Q) : Py.Qltb a b = false <-> (b <= a)%Q.
Proof.
  split.
  - intros H. apply Qnot_lt_le. intros Hlt. apply Qltb_lt in Hlt. congruence.
  - intros H. destruct (Py.Qltb a b) eqn:E; [|reflexivity].
    apply Qltb_lt in E. exfalso. exact (Qlt_not_le _ _ E H).
Qed.

Lemma key_lt_alt (a b : bool * Q) :
  key_lt a b
  = if Bool.eqb (fst a) (fst b) then Py.Qltb (snd a) (snd b)
    else negb (fst a) && fst b.
Proof.
  unfold key_lt. destruct (Bool.eqb (fst a) (fst b)); [|reflexivity].
  destruct (Py.Qeqb (snd a) (snd b)) eqn:E; [|reflexivity].
  apply Qeqb_eq in E. symmetry. apply Qltb_ge. rewrite E. apply Qle_refl.
Qed.

Lemma key_lt_irrefl (a : bool * Q) : key_lt a a = false.
Proof.
  rewrite key_lt_alt, Bool.eqb_reflx. apply Qltb_ge, Qle_refl.
Qed.

Lemma key_lt_asym (a b : bool * Q) : key_lt a b = true -> key_lt b a = false.
Proof.
  rewrite !key_lt_alt. destruct a as [[] qa], b as [[] qb]; cbn; try discriminate;
    try reflexivity; intros H; apply Qltb_lt in H; apply Qltb_ge;
    now apply Qlt_le_weak.
Qed.

Lemma key_ge_trans (a b c : bool * Q) :
  key_lt a b = false -> key_lt b c = false -> key_lt a c = false.
Proof.
  rewrite !key_lt_alt.
  destruct a as [[] qa], b as [[] qb], c as [[] qc]; cbn; try discriminate;
    try reflexivity; rewrite !Qltb_ge; intros H1 H2; eapply Qle_trans; eauto.
Qed.

Lemma insert_desc_perm x l : Permutation (x :: l) (insert_desc x l).
Proof.
  induction l as [|y l IH]; cbn [insert_desc]; [reflexivity|].
  destruct (key_lt (sort_key x) (sort_key y)); [|reflexivity].
  rewrite perm_swap. now apply perm_skip.
Qed.

Lemma sort_desc_perm l : Permutation l (sort_desc l).
Proof.
  induction l as [|x l IH]; cbn [sort_desc fold_right]; [reflexivity|].
  rewrite <- insert_desc_perm. now apply perm_skip.
Qed.

Lemma insert_desc_sorted x l :
  StronglySorted (fun a b => key_lt (sort_key a) (sort_key b) = false) l ->
  StronglySorted (fun a b => key_lt (sort_key a) (sort_key b) = false)
    (insert_desc x l).
Proof.
  induction 1 as [|y l Hs IH Hy]; cbn [insert_desc].
  - repeat constructor.
  - destruct (key_lt (sort_key x) (sort_key y)) eqn:E.
    + constructor; [exact IH|].
      apply List.Forall_forall. intros z Hz.
      apply (Permutation_in _ (Permutation_sym (insert_desc_perm x l))) in Hz.
      destruct Hz as [<-|Hz]; [now apply key_lt_asym|].
      rewrite List.Forall_forall in Hy. now apply Hy.
    + constructor; [now constructor|].
      constructor; [exact E|].
      apply List.Forall_forall. intros z Hz. rewrite List.Forall_forall in Hy.
      eapply key_ge_trans; [exact E | now apply Hy].
Qed.

Lemma sort_desc_sorted l :
  StronglySorted (fun a b => key_lt (sort_key a) (sort_key b) = false)
    (sort_desc l).
Proof.
  induction l as [|x l IH]; cbn [sort_desc fold_right]; [constructor|].
  now apply insert_desc_sorted.
Qed.

Lemma healthy_ranking_facts (pool : Dict.t ProxyInfo) :
  Permutation (List.filter is_healthy (Dict.values pool)) (_get_healthy_proxies pool)
  /\ StronglySorted (fun a b => key_lt (sort_key a) (sort_key b) = false)
       (_get_healthy_proxies pool).
Proof. split; [apply sort_desc_perm | apply sort_desc_sorted]. Qed.


Lemma find_first {A} (f : A -> bool) (l : list A) (x : A) :
  List.find f l = Some x ->
  exists l1 l2, l = (l1 ++ x :: l2)%list /\ f x = true
                /\ forall y, In y l1 -> f y = false.
Proof.
  induction l as [|a l IH]; cbn [List.find]; [discriminate|].
  destruct (f a) eqn:E.
  - intros [= ->]. exists [], l. repeat split; [exact E | intros y []].
  - intros H. destruct (IH H) as (l1 & l2 & -> & Hx & Hl1).
    exists (a :: l1), l2. repeat split; [exact Hx|].
    intros y [<-|Hy]; [exact E | now apply Hl1].
Qed.

Lemma strongly_sorted_after {A} (R : A -> A -> Prop) (l1 l2 : list A) (x : A) :
  StronglySorted R (l1 ++ x :: l2) -> forall y, In y l2 -> R x y.
Proof.
  induction l1 as [|a l1 IH]; cbn [app]; intros Hs y Hy.
  - inversion Hs as [|? ? _ Hall]; subst. rewrite List.Forall_forall in Hall.
    now apply Hall.
  - inversion Hs; subst. now apply IH.
Qed.

Lemma not_excluded_iff (exclude_urls : option (list string)) (p : ProxyInfo) :
  negb (bool_decide
          (url p ∈ (list_to_set (default [] exclude_urls) : gset string))) = true
  <-> ~ In (url p) (default [] exclude_urls).
Proof.
  rewrite negb_true_iff, bool_decide_eq_false, elem_of_list_to_set,
    list_elem_of_In. reflexivity.
Qed.


(** X10: Initialisation happens once.  The first call makes one fetch of the
    list and marks the manager initialised, also when the fetch fails; a call
    on an initialised manager does nothing at all, so calling twice is the
    same as calling once. *)
Theorem initialize_once env w :
  exists w',
    initialize env w = (Ok tt, w')
    /\ w_initialized w' = true
    /\ initialize env w' = (Ok tt, w')
    /\ (if w_initialized w then w' = w
        else w' = with_initialized true (refreshed env w)
             /\ w_log w'
                = (proxy_list_request,
                   remote env (length (w_log w)) proxy_list_request) :: w_log w).
Proof.
  unfold initialize at 1. unfold bind at 1, get_world at 1.
  destruct (w_initialized w) eqn:Ei.
  - exists w. split; [reflexivity|]. split; [exact Ei|]. split; [|reflexivity].
    unfold initialize, bind, get_world. now rewrite Ei.
  - unfold bind. rewrite refresh_run. unfold modify.
    eexists. split; [reflexivity|]. split; [reflexivity|]. split.
    + reflexivity.
    + split; [reflexivity|]. cbn [w_log with_initialized]. apply refreshed_log.
Qed.

Lemma initialize_once_facts env w :
  exists w',
    initialize env w = (Ok tt, w')
    /\ exists new, w_log w' = (new ++ w_log w)%list /\ quiet new.
Proof.
  unfold initialize, bind, get_world.
  destruct (w_initialized w).
  - exists w. split; [reflexivity|]. exists []. split; [reflexivity|constructor].
  - rewrite refresh_run. eexists. split; [reflexivity|].
    exists [(proxy_list_request,
             remote env (length (w_log w)) proxy_list_request)].
    cbn [modify snd w_log with_initialized]. split; [apply refreshed_log|].
    repeat constructor.
Qed.

(** ** Candidates of the race *)

Lemma firstn_In_inv {A} (l : list A) : forall n x, In x (firstn n l) -> In x l.
Proof.
  induction l as [|a l IH]; intros [|n] x; cbn [firstn]; try contradiction.
  intros [<-|H]; [now left | right; now apply (IH n)].
Qed.

Lemma firstn_NoDup {A} (l : list A) : forall n,
  List.NoDup l -> List.NoDup (firstn n l).
Proof.
  induction l as [|a l IH]; intros [|n] H; cbn [firstn]; try constructor.
  - inversion H as [|? ? Hn Hl]; subst. intros Hin. apply Hn.
    now apply (firstn_In_inv _ n).
  - inversion H; subst. now apply IH.
Qed.

Lemma slice_to_In {A} (n : Z) (l : list A) (x : A) :
  In x (slice_to n l) -> In x l.
Proof. unfold slice_to. destruct (0 <=? n)%Z; apply firstn_In_inv. Qed.

Lemma slice_to_NoDup {A} (n : Z) (l : list A) :
  List.NoDup l -> List.NoDup (slice_to n l).
Proof. unfold slice_to. destruct (0 <=? n)%Z; apply firstn_NoDup. Qed.

Lemma slice_to_length {A} (n : Z) (l : list A) :
  (0 <= n)%Z -> length (slice_to n l) <= Z.to_nat n.
Proof.
  intros Hn. unfold slice_to. destruct (Z.leb_spec 0 n); [|lia].
  apply firstn_le_length.
Qed.

Lemma NoDup_map_filter {A B} (f : A -> B) (g : A -> bool) (l : list A) :
  List.NoDup (map f l) -> List.NoDup (map f (List.filter g l)).
Proof.
  induction l as [|a l IH]; cbn [map List.filter]; [constructor|].
  intros H. inversion H as [|? ? Hn Hl]; subst.
  destruct (g a); cbn [map]; [|now apply IH].
  constructor; [|now apply IH].
  intros Hin. apply Hn. apply in_map_iff in Hin as (x & Hx & Hin).
  apply filter_In in Hin as [Hin _]. apply in_map_iff. now exists x.
Qed.

Lemma uniq_NoDup (l : list string) : uniq l = true -> List.NoDup l.
Proof.
  induction l as [|x l IH]; cbn [uniq]; [constructor|].
  rewrite andb_true_iff, negb_true_iff. intros [Hx Hl].
  constructor; [|now apply IH].
  intros Hin. apply str_in_In in Hin. congruence.
Qed.

Lemma pool_wf_urls pool :
  pool_wf pool = true -> map url (Dict.values pool) = Dict.keys pool.
Proof.
  unfold pool_wf. rewrite andb_true_iff. intros [_ Hall].
  induction pool as [|[k r] pool IH]; [reflexivity|].
  cbn [forallb fst snd] in Hall. apply andb_true_iff in Hall as [Hk Hall].
  apply String.eqb_eq in Hk. cbn. rewrite Hk. f_equal. now apply IH.
Qed.

Lemma pool_wf_NoDup_urls pool :
  pool_wf pool = true -> List.NoDup (map url (Dict.values pool)).
Proof.
  intros Hw. rewrite (pool_wf_urls _ Hw). apply uniq_NoDup.
  unfold pool_wf in Hw. now apply andb_true_iff in Hw as [Hu _].
Qed.

Lemma proxies_to_test_facts exclude_urls max_test pool :
  (forall u,
     In u (proxies_to_test exclude_urls max_test pool) ->
     ~ In u (default [] exclude_urls)
     /\ exists p, In p (Dict.values pool) /\ url p = u /\ is_healthy p = true)
  /\ ((0 <= max_test)%Z ->
      length (proxies_to_test exclude_urls max_test pool) <= Z.to_nat max_test)
  /\ (pool_wf pool = true ->
      List.NoDup (proxies_to_test exclude_urls max_test pool)).
Proof.
  unfold proxies_to_test. destruct (healthy_ranking_facts pool) as [Hperm _].
  split; [|split].
  - intros u Hu. apply slice_to_In in Hu. apply in_map_iff in Hu as (p & <- & Hp).
    apply filter_In in Hp as [Hp Hne]. split; [now apply not_excluded_iff|].
    apply (Permutation_in _ (Permutation_sym Hperm)) in Hp.
    apply filter_In in Hp as [Hp Hh]. now exists p.
  - apply slice_to_length.
  - intros Hw. apply slice_to_NoDup, NoDup_map_filter.
    apply (Permutation_NoDup (Permutation_map url Hperm)).
    apply NoDup_map_filter. now apply pool_wf_NoDup_urls.
Qed.

Lemma gather_tests_requests env : forall to_test w,
  exists new,
    w_log (snd (gather (map (test_proxy env) to_test) w)) = (new ++ w_log w)%list
    /\ map fst new = rev (map health_check_request to_test).
Proof.
  induction to_test as [|u to_test IH]; intros w; cbn [map gather].
  - exists []. split; reflexivity.
  - destruct (test_proxy_run env u w) as (res & w1 & E1 & _ & Hlog1 & _).
    rewrite E1. destruct (IH w1) as (new & Hlog & Hreq).
    destruct (gather_tests_run env to_test w1) as (completed & w2 & ? & E2 & _).
    rewrite E2 in Hlog. rewrite (bind_ok _ _ _ _ _ E2). cbn [snd ret] in *.
    exists (new ++ [(health_check_request u,
                     remote env (length (w_log w)) (health_check_request u))])%list.
    split.
    + rewrite Hlog, Hlog1. now rewrite <- app_assoc.
    + rewrite map_app, Hreq. reflexivity.
Qed.

Lemma find_fastest_run env exclude_urls max_test max_concurrent w :
  exists res w' w1 new,
    find_fastest_working_proxy env exclude_urls max_test max_concurrent w
      = (Ok res, w')
    /\ _ensure_fresh_proxies env w = (Ok tt, w1)
    /\ w_db w' = w_db w
    /\ w_log w' = (new ++ w_log w1)%list
    /\ map fst new
       = rev (map health_check_request
                (proxies_to_test exclude_urls max_test (w_proxies w1)))
    /\ match res with
       | Some (u, t) =>
           In u (proxies_to_test exclude_urls max_test (w_proxies w1))
           /\ probed_ok u new
       | None => forall u, ~ probed_ok u new
       end.
Proof.
  unfold find_fastest_working_proxy.
  destruct (ensure_fresh_frame env w) as (w1 & E1 & Hdb1 & _).
  rewrite (bind_ok _ _ _ _ _ E1). unfold bind at 1, get_world at 1.
  set (to_test := proxies_to_test exclude_urls max_test (w_proxies w1)).
  destruct (gather_tests_run env to_test w1)
    as (completed & w' & new & E2 & Hdb2 & Hlog & _ & Hok & Hin & Hall).
  destruct (gather_tests_requests env to_test w1) as (new' & Hlog' & Hreq).
  rewrite E2 in Hlog'. cbn [snd] in Hlog'. rewrite Hlog in Hlog'.
  apply app_inv_tail in Hlog'. subst new'.
  destruct to_test as [|u0 rest] eqn:Et.
  - cbn in E2. injection E2 as <- <-.
    exists None, w1, w1, new. fold to_test. rewrite Et.
    do 5 (split; [first [assumption | reflexivity]|]).
    intros u Hp. destruct (Hall u Hp) as (t & []).
  - rewrite (bind_ok _ _ _ _ _ E2).
    pose proof (sort_by_time_In (collect_results completed)) as Hperm.
    destruct (sort_by_time (collect_results completed)) as [|[u t] l].
    + exists None, w', w1, new. fold to_test. rewrite Et.
      do 5 (split; [first [assumption | reflexivity | congruence]|]).
      intros u Hp. destruct (Hall u Hp) as (t & Ht).
      apply collect_results_In, Hperm in Ht. contradiction.
    + exists (Some (u, t)), w', w1, new.
      assert (Hwin : In (Ok (Some (u, t))) completed).
      { apply collect_results_In, Hperm. now left. }
      destruct (Hin u t Hwin) as [Hi Hp]. fold to_test. rewrite Et.
      do 5 (split; [first [assumption | reflexivity | congruence]|]). now split.
Qed.



(** ** Rebinding after a failure *)

Lemma rebind_run env token_id failed_proxy_url w :
  exists res w' w1 new,
    report_failure env failed_proxy_url w = (Ok tt, w1)
    /\ rebind_proxy_on_failure env token_id failed_proxy_url w = (Ok res, w')
    /\ w_log w' = (new ++ w_log w)%list
    /\ probe_count new <= 10
    /\ match Dict.get failed_proxy_url (w_proxies w) with
       | Some proxy =>
           exists proxy',
             Dict.get failed_proxy_url (w_proxies w1) = Some proxy'
             /\ failure_count proxy' = (failure_count proxy + 1)%N
       | None => w1 = w
       end
    /\ match res with
       | Some u =>
           u <> failed_proxy_url
           /\ probed_ok u new
           /\ (forall tk, In tk (Database.get_all_tokens (w_db w)) ->
                 Token.id tk <> token_id -> Token.proxy_url tk <> Some u)
           /\ w_db w' = Database.update_token token_id (bind_fields u) (w_db w)
       | None => (forall u, ~ probed_ok u new) /\ w_db w' = w_db w
       end.
Proof.
  unfold rebind_proxy_on_failure.
  destruct (report_failure_frame env failed_proxy_url w) as (w1 & E1 & Hdb1 & Hlog1).
  rewrite (bind_ok _ _ _ _ _ E1).
  destruct (bind_proxy_to_token_run env token_id (Some [failed_proxy_url]) 10 w1)
    as (res & w' & new & E2 & Hlog & Hcount & Hres).
  exists res, w', w1, new. split; [exact E1|]. split; [exact E2|].
  split; [now rewrite Hlog, Hlog1|]. split; [exact Hcount|]. split.
  - destruct (Dict.get failed_proxy_url (w_proxies w)) as [proxy|] eqn:Eg.
    + rewrite (report_failure_present _ _ _ _ Eg) in E1. injection E1 as <-.
      eexists. cbn [w_proxies with_proxies with_tick].
      rewrite dict_get_set_eq. split; reflexivity.
    + rewrite (report_failure_absent _ _ _ Eg) in E1. now injection E1.
  - destruct res as [u|].
    + destruct Hres as (Hp & Hused & Hex & Hdb). rewrite Hdb1 in *.
      split; [|now repeat split].
      intros ->. apply (Hex [failed_proxy_url] eq_refl). now left.
    + destruct Hres as [Hp Hdb]. split; [exact Hp | congruence].
Qed.

(** X12: Rebinding after a failure never raises and never hands back the
    proxy that failed.  The failure is first counted on the failed proxy, if
    the pool knows it; the replacement, if any, answered a health check of
    this call with 200, is bound to no other credential, and is stored as the
    proxy of the credential; at most ten health checks are made; without a
    replacement the storage is left as it was. *)
Theorem rebind_avoids_failed_proxy env token_id failed_proxy_url w :
  exists res w' w1 new,
    report_failure env failed_proxy_url w = (Ok tt, w1)
    /\ rebind_proxy_on_failure env token_id failed_proxy_url w = (Ok res, w')
    /\ w_log w' = (new ++ w_log w)%list
    /\ probe_count new <= 10
    /\ match Dict.get failed_proxy_url (w_proxies w) with
       | Some proxy =>
           exists proxy',
             Dict.get failed_proxy_url (w_proxies w1) = Some proxy'
             /\ failure_count proxy' = (failure_count proxy + 1)%N
       | None => w1 = w
       end
    /\ match res with
       | Some u =>
           u <> failed_proxy_url
           /\ probed_ok u new
           /\ (forall tk, In tk (Database.get_all_tokens (w_db w)) ->
                 Token.id tk <> token_id -> Token.proxy_url tk <> Some u)
           /\ w_db w' = Database.update_token token_id (bind_fields u) (w_db w)
       | None => (forall u, ~ probed_ok u new) /\ w_db w' = w_db w
       end.
Proof. apply rebind_run. Qed.

(** ** Binding the winner of the race *)

Lemma round_half_even_close (q : Q) :
  (inject_Z (round_half_even q) - q <= 1 # 2)%Q
  /\ (q - inject_Z (round_half_even q) <= 1 # 2)%Q.
Proof.
  unfold round_half_even.
  pose proof (Qfloor_le q) as Hlo. pose proof (Qlt_floor q) as Hhi.
  rewrite inject_Z_plus in Hhi. change (inject_Z 1) with 1%Q in Hhi.
  set (f := Qfloor q) in *.
  destruct (Py.Qltb (q - inject_Z f) (1 # 2)) eqn:E1.
  - apply Qltb_lt in E1. split; lra.
  - apply Qltb_ge in E1.
    destruct (Py.Qltb (1 # 2) (q - inject_Z f)) eqn:E2.
    + rewrite inject_Z_plus. change (inject_Z 1) with 1%Q. split; lra.
    + apply Qltb_ge in E2. destruct (Z.even f).
      * split; lra.
      * rewrite inject_Z_plus. change (inject_Z 1) with 1%Q. split; lra.
Qed.

Lemma round2_close (q : Q) :
  (round2 q - q <= 1 # 200)%Q /\ (q - round2 q <= 1 # 200)%Q.
Proof.
  unfold round2. destruct (round_half_even_close (q * 100)) as [H1 H2].
  set (z := inject_Z (round_half_even (q * 100))) in *.
  unfold Qdiv. change (/ 100)%Q with (1 # 100)%Q. split; lra.
Qed.

Lemma used_proxy_list_In all_tokens token_id u :
  In u (used_proxy_list all_tokens token_id) <->
  exists tk, In tk all_tokens /\ Token.proxy_url tk = Some u /\ u <> ""
             /\ Token.id tk <> token_id.
Proof.
  unfold used_proxy_list. rewrite in_flat_map. split.
  - intros (tk & Hin & Hu). exists tk. split; [exact Hin|].
    destruct (Token.proxy_url tk) as [p|]; cbn in Hu; [|contradiction].
    destruct (String.eqb_spec p ""); cbn in Hu; [contradiction|].
    destruct (Z.eqb_spec (Token.id tk) token_id); cbn in Hu; [contradiction|].
    destruct Hu as [<-|[]]. auto.
  - intros (tk & Hin & Hp & Hne & Hid). exists tk. split; [exact Hin|].
    rewrite Hp. cbn. destruct (String.eqb_spec u ""); [contradiction|].
    destruct (Z.eqb_spec (Token.id tk) token_id); [contradiction|]. now left.
Qed.

Lemma probe_count_le (l : list (Request * Outcome)) : probe_count l <= length l.
Proof. unfold probe_count. apply filter_length_le. Qed.

(** X13: Binding the fastest proxy never raises.  With the race run among
    the healthy proxies that no other credential has as its non-empty proxy:
    a winner of the race is stored as the proxy of the credential and
    returned with its latency rounded to two decimals (within 0.005 of the
    measured one); it answered a health check of this call with 200 and is
    the proxy of no other credential; at most 100 health checks are made; and
    when the race has no winner nothing is returned and the storage is left
    as it was. *)
Theorem bind_fastest_binds_winner env token_id w :
  let used :=
    used_proxy_list (Database.get_all_tokens (w_db w)) token_id in
  exists res w' new,
    bind_fastest_proxy_to_token env token_id w = (Ok res, w')
    /\ w_log w' = (new ++ w_log w)%list
    /\ probe_count new <= 100
    /\ match res with
       | Some r =>
           (exists t,
              fst (find_fastest_working_proxy env (Some used) 100 20 w)
              = Ok (Some (fr_proxy_url r, t))
              /\ fr_response_time r = round2 t
              /\ (fr_response_time r - t <= 1 # 200)%Q
              /\ (t - fr_response_time r <= 1 # 200)%Q)
           /\ probed_ok (fr_proxy_url r) new
           /\ (forall tk,
                 In tk (Database.get_all_tokens (w_db w)) ->
                 Token.id tk <> token_id ->
                 Token.proxy_url tk = Some (fr_proxy_url r) ->
                 fr_proxy_url r = "")
           /\ w_db w'
              = Database.update_token token_id (bind_fields (fr_proxy_url r))
                  (w_db w)
       | None =>
           fst (find_fastest_working_proxy env (Some used) 100 20 w) = Ok None
           /\ (forall u, ~ probed_ok u new)
           /\ w_db w' = w_db w
       end.
Proof.
  intros used. unfold bind_fastest_proxy_to_token.
  unfold bind at 1, get_world at 1. fold used.
  destruct (find_fastest_run env (Some used) 100 20 w)
    as (res & w2 & w1 & new & Hrun & E1 & Hdb & Hlog & Hreq & Hres).
  destruct (ensure_fresh_frame env w) as (w1' & E1' & _ & q & Hq & Hquiet).
  rewrite E1 in E1'. injection E1' as <-.
  destruct (proxies_to_test_facts (Some used) 100 (w_proxies w1))
    as (Hin & Hlen & _).
  assert (Hcount : probe_count (new ++ q) <= 100).
  { rewrite probe_count_app, (quiet_probe_count _ Hquiet), Nat.add_0_r.
    etransitivity; [apply probe_count_le|].
    rewrite <- (length_map fst), Hreq, length_rev, length_map.
    apply Hlen. lia. }
  rewrite (bind_ok _ _ _ _ _ Hrun). rewrite Hrun. cbn [fst].
  destruct res as [[u t]|].
  - destruct Hres as [Hu Hp]. unfold bind, modify, ret.
    eexists (Some _), _, (new ++ q)%list. split; [reflexivity|].
    cbn [w_log with_db w_db fr_proxy_url fr_response_time].
    split; [now rewrite Hlog, Hq, <- app_assoc|]. split; [exact Hcount|].
    split; [|split; [|split]].
    + exists t. destruct (round2_close t) as [H1 H2]. now repeat split.
    + now apply probed_ok_app_l.
    + intros tk Htk Hid Hpu.
      destruct (String.eqb_spec u "") as [He|Hne]; [exact He|].
      exfalso. apply (proj1 (Hin u Hu)). cbn [default].
      apply used_proxy_list_In. now exists tk.
    + now rewrite Hdb.
  - exists None, w2, (new ++ q)%list. split; [reflexivity|].
    split; [now rewrite Hlog, Hq, <- app_assoc|]. split; [exact Hcount|].
    split; [reflexivity|]. split; [|exact Hdb].
    intros u Hp. apply probed_ok_app_inv in Hp as [Hp|Hp];
      [exact (Hres u Hp) | exact (quiet_not_probed _ _ Hquiet Hp)].
Qed.

(** ** The batch check *)

Lemma check_with_semaphore_run env u w :
  exists b w',
    check_with_semaphore env u w = (Ok (u, b), w')
    /\ w_db w' = w_db w
    /\ w_log w'
       = (health_check_request u,
          remote env (length (w_log w)) (health_check_request u)) :: w_log w
    /\ (b = true <->
        exists r, remote env (length (w_log w)) (health_check_request u)
                  = Response r /\ status_code r = 200%Z).
Proof.
  destruct (health_check_proxy_frame env u w) as (b & w' & E & Hdb & Hlog & Hb).
  exists b, w'. unfold check_with_semaphore. rewrite (bind_ok _ _ _ _ _ E).
  split; [reflexivity|]. auto.
Qed.

Lemma gather_checks_run env : forall urls w,
  exists pairs w' new,
    gather (map (check_with_semaphore env) urls) w = (Ok (map Ok pairs), w')
    /\ w_db w' = w_db w
    /\ w_log w' = (new ++ w_log w)%list
    /\ map fst pairs = urls
    /\ Forall2 check_of pairs (rev new).
Proof.
  induction urls as [|u urls IH]; intros w; cbn [map gather].
  - exists [], w, []. repeat split; constructor.
  - destruct (check_with_semaphore_run env u w) as (b & w1 & E1 & Hdb1 & Hlog1 & Hb).
    rewrite E1.
    destruct (IH w1) as (pairs & w2 & new & E2 & Hdb2 & Hlog2 & Hfst & Hall).
    rewrite (bind_ok _ _ _ _ _ E2).
    exists ((u, b) :: pairs), w2,
      (new ++ [(health_check_request u,
                remote env (length (w_log w)) (health_check_request u))])%list.
    split; [reflexivity|]. split; [congruence|].
    split; [rewrite Hlog2, Hlog1; now rewrite <- app_assoc|].
    split; [cbn; now rewrite Hfst|].
    rewrite rev_app_distr. cbn [rev app]. constructor; [|exact Hall].
    split; [reflexivity | exact Hb].
Qed.

Lemma Forall2_In_l {A B} (R : A -> B -> Prop) l1 l2 x :
  Forall2 R l1 l2 -> In x l1 -> exists y, In y l2 /\ R x y.
Proof.
  induction 1 as [|a b l1 l2 Hab _ IH]; intros Hin; [contradiction|].
  destruct Hin as [<-|Hin].
  - exists b. split; [now left | exact Hab].
  - destruct (IH Hin) as (y & Hy & Hr). exists y. split; [now right | exact Hr].
Qed.

Lemma Forall2_In_r {A B} (R : A -> B -> Prop) l1 l2 y :
  Forall2 R l1 l2 -> In y l2 -> exists x, In x l1 /\ R x y.
Proof.
  induction 1 as [|a b l1 l2 Hab _ IH]; intros Hin; [contradiction|].
  destruct Hin as [<-|Hin].
  - exists a. split; [now left | exact Hab].
  - destruct (IH Hin) as (x & Hx & Hr). exists x. split; [now right | exact Hr].
Qed.

Section DictOrder.
Context {V : Type}.
Implicit Types (d : Dict.t V) (k : string) (v : V).

Lemma dict_set_fresh d k v :
  ~ In k (Dict.keys d) -> Dict.set k v d = (d ++ [(k, v)])%list.
Proof.
  induction d as [|[k' v'] d IH]; cbn [Dict.set Dict.keys map fst app];
    [reflexivity|].
  intros Hn. destruct (String.eqb_spec k k') as [->|Hne].
  - exfalso. apply Hn. now left.
  - f_equal. apply IH. intros Hin. apply Hn. now right.
Qed.

Lemma dict_In_get d k v :
  List.NoDup (Dict.keys d) -> In (k, v) d -> Dict.get k d = Some v.
Proof.
  induction d as [|[k' v'] d IH]; cbn [Dict.get Dict.keys map fst];
    [contradiction|].
  intros Hnd [Heq|Hin].
  - injection Heq as -> ->. now rewrite String.eqb_refl.
  - inversion Hnd as [|? ? Hn Hd]; subst.
    destruct (String.eqb_spec k k') as [->|Hne].
    + exfalso. apply Hn. apply in_map_iff. now exists (k', v).
    + now apply IH.
Qed.

End DictOrder.

Lemma collect_checks_fresh : forall pairs acc,
  List.NoDup (Dict.keys acc ++ map fst pairs) ->
  collect_checks (map Ok pairs) acc = (acc ++ pairs)%list.
Proof.
  induction pairs as [|[u b] pairs IH]; intros acc Hnd; cbn [map collect_checks].
  - now rewrite app_nil_r.
  - cbn [map fst] in Hnd. rewrite dict_set_fresh.
    + rewrite IH.
      * now rewrite <- app_assoc.
      * unfold Dict.keys in *. rewrite map_app, <- app_assoc. exact Hnd.
    + intros Hin. apply NoDup_remove_2 in Hnd. apply Hnd.
      apply in_or_app. now left.
Qed.

Lemma health_check_request_inj u u' :
  health_check_request u = health_check_request u' -> u = u'.
Proof. now intros [= ->]. Qed.



(** ** Statistics and listing *)

Lemma sum_values_set (d : Dict.t Z) k v :
  sum_values (Dict.set k v d) = (sum_values d - default 0 (Dict.get k d) + v)%Z.
Proof.
  unfold sum_values, Dict.values.
  induction d as [|[k' v'] d IH]; cbn [Dict.set Dict.get map snd fold_right].
  - cbn. lia.
  - destruct (String.eqb k k'); cbn [map snd fold_right].
    + cbn. lia.
    + rewrite IH. lia.
Qed.

Lemma sum_values_count_up (d : Dict.t Z) k :
  sum_values (count_up k d) = (sum_values d + 1)%Z.
Proof. unfold count_up. rewrite sum_values_set. lia. Qed.

Lemma get_count_up (d : Dict.t Z) k c :
  default 0%Z (Dict.get c (count_up k d))
  = (default 0 (Dict.get c d) + if String.eqb k c then 1 else 0)%Z.
Proof.
  unfold count_up. rewrite dict_get_set.
  destruct (String.eqb_spec k c) as [->|Hne]; cbn; lia.
Qed.

Lemma count_fold (f : ProxyInfo -> string) : forall l acc,
  sum_values (fold_left (fun acc p => count_up (f p) acc) l acc)
  = (sum_values acc + Z.of_nat (length l))%Z
  /\ forall c,
       default 0%Z
         (Dict.get c (fold_left (fun acc p => count_up (f p) acc) l acc))
       = (default 0 (Dict.get c acc)
          + count_where (fun p => String.eqb (f p) c) l)%Z.
Proof.
  unfold count_where.
  induction l as [|p l IH]; intros acc; cbn [fold_left length List.filter].
  - split; [lia | intros; cbn; lia].
  - destruct (IH (count_up (f p) acc)) as [Hs Hc]. split.
    + rewrite Hs, sum_values_count_up. lia.
    + intros c. rewrite Hc, get_count_up.
      destruct (String.eqb (f p) c); cbn [length]; lia.
Qed.

Lemma count_fold_pair (f g : ProxyInfo -> string) : forall l a b,
  fold_left
    (fun '(x, y) p => (count_up (f p) x, count_up (g p) y)) l (a, b)
  = (fold_left (fun acc p => count_up (f p) acc) l a,
     fold_left (fun acc p => count_up (g p) acc) l b).
Proof.
  induction l as [|p l IH]; intros a b; cbn [fold_left]; [reflexivity|].
  apply IH.
Qed.

(** X15: The statistics of the pool read the state without changing it.  The
    healthy and the unhealthy count add up to the total and neither is
    negative; the healthy count is the length of the ranking used for
    selection; the count of a country (of an anonymity level) is the number
    of records with that country (level), and the counts by country, like
    those by anonymity, add up to the total. *)
Theorem get_stats_counts w :
  exists s,
    get_stats w = (Ok s, w)
    /\ total_proxies s = Z.of_nat (length (w_proxies w))
    /\ healthy_proxies s
       = Z.of_nat (length (_get_healthy_proxies (w_proxies w)))
    /\ (healthy_proxies s + unhealthy_proxies s = total_proxies s)%Z
    /\ (0 <= unhealthy_proxies s)%Z
    /\ sum_values (by_country s) = total_proxies s
    /\ sum_values (by_anonymity s) = total_proxies s
    /\ (forall c,
          default 0%Z (Dict.get c (by_country s))
          = count_where (fun p => String.eqb (country p) c)
              (Dict.values (w_proxies w)))
    /\ (forall a,
          default 0%Z (Dict.get a (by_anonymity s))
          = count_where (fun p => String.eqb (anonymity p) a)
              (Dict.values (w_proxies w))).
Proof.
  unfold get_stats, bind, get_world. rewrite count_fold_pair.
  eexists. split; [reflexivity|].
  cbn [total_proxies healthy_proxies unhealthy_proxies by_country by_anonymity].
  destruct (count_fold country (Dict.values (w_proxies w)) []) as [Hsc Hcc].
  destruct (count_fold anonymity (Dict.values (w_proxies w)) []) as [Hsa Hca].
  assert (Hlen : length (Dict.values (w_proxies w)) = length (w_proxies w))
    by apply length_map.
  split; [reflexivity|]. split.
  { f_equal. destruct (healthy_ranking_facts (w_proxies w)) as [Hperm _].
    apply (Permutation_length Hperm). }
  split; [lia|]. split.
  { pose proof (filter_length_le is_healthy (Dict.values (w_proxies w))). lia. }
  split; [rewrite Hsc, Hlen; cbn; lia|].
  split; [rewrite Hsa, Hlen; cbn; lia|].
  split; intros c; [rewrite Hcc | rewrite Hca]; cbn; lia.
Qed.

Lemma insert_by_health_perm x l : Permutation (x :: l) (insert_by_health x l).
Proof.
  induction l as [|y l IH]; cbn [insert_by_health]; [reflexivity|].
  destruct (Py.Qltb (health_score x) (health_score y)); [|reflexivity].
  rewrite perm_swap. now apply perm_skip.
Qed.

Lemma sort_by_health_perm l : Permutation l (sort_by_health l).
Proof.
  induction l as [|x l IH]; cbn [sort_by_health fold_right]; [reflexivity|].
  rewrite <- insert_by_health_perm. now apply perm_skip.
Qed.

Lemma insert_by_health_sorted x l :
  StronglySorted (fun a b => (health_score b <= health_score a)%Q) l ->
  StronglySorted (fun a b => (health_score b <= health_score a)%Q)
    (insert_by_health x l).
Proof.
  induction 1 as [|y l Hs IH Hy]; cbn [insert_by_health].
  - repeat constructor.
  - destruct (Py.Qltb (health_score x) (health_score y)) eqn:E.
    + apply Qltb_lt in E. constructor; [exact IH|].
      apply List.Forall_forall. intros z Hz.
      apply (Permutation_in _ (Permutation_sym (insert_by_health_perm x l))) in Hz.
      destruct Hz as [<-|Hz]; [now apply Qlt_le_weak|].
      rewrite List.Forall_forall in Hy. now apply Hy.
    + apply Qltb_ge in E. constructor; [now constructor|].
      constructor; [exact E|].
      apply List.Forall_forall. intros z Hz. rewrite List.Forall_forall in Hy.
      eapply Qle_trans; [now apply Hy | exact E].
Qed.

Lemma sort_by_health_sorted l :
  StronglySorted (fun a b => (health_score b <= health_score a)%Q)
    (sort_by_health l).
Proof.
  induction l as [|x l IH]; cbn [sort_by_health fold_right]; [constructor|].
  now apply insert_by_health_sorted.
Qed.

Lemma strongly_sorted_map {A B} (f : A -> B) (R : B -> B -> Prop) (l : list A) :
  StronglySorted (fun a b => R (f a) (f b)) l -> StronglySorted R (map f l).
Proof.
  induction 1 as [|a l Hs IH Ha]; cbn [map]; constructor; [exact IH|].
  rewrite List.Forall_forall in *. intros y Hy.
  apply in_map_iff in Hy as (x & <- & Hx). now apply Ha.
Qed.

(** X16: The listing of the pool reads the state without changing it.  It
    has one row per record of the pool, ordered so that no row comes before
    one with a greater health score; a row carries the health score of its
    record and its average response time rounded to two decimals, within
    0.005 of the stored value. *)
Theorem get_proxy_list_ordered w :
  exists rows,
    get_proxy_list w = (Ok rows, w)
    /\ Permutation (map row_of (Dict.values (w_proxies w))) rows
    /\ length rows = length (w_proxies w)
    /\ StronglySorted
         (fun a b => (row_health_score b <= row_health_score a)%Q) rows
    /\ forall row,
         In row rows ->
         exists p,
           In p (Dict.values (w_proxies w))
           /\ row_url row = url p
           /\ row_health_score row = health_score p
           /\ (row_avg_response_time row - avg_response_time p <= 1 # 200)%Q
           /\ (avg_response_time p - row_avg_response_time row <= 1 # 200)%Q.
Proof.
  unfold get_proxy_list, bind, get_world.
  eexists. split; [reflexivity|].
  pose proof (sort_by_health_perm (Dict.values (w_proxies w))) as Hperm.
  split; [now apply Permutation_map|]. split.
  - rewrite length_map, <- (Permutation_length Hperm). apply length_map.
  - split.
    + apply strongly_sorted_map. cbn [row_of row_health_score].
      apply sort_by_health_sorted.
    + intros row Hrow. apply in_map_iff in Hrow as (p & <- & Hp).
      apply (Permutation_in _ (Permutation_sym Hperm)) in Hp.
      exists p. cbn [row_of row_url row_health_score row_avg_response_time].
      destruct (round2_close (avg_response_time p)) as [H1 H2].
      now repeat split.
Qed.

(** ** Which proxy a call goes through *)

Lemma bind_proxy_to_token_nonempty env token_id exclude_urls max_attempts w res w' :
  bind_proxy_to_token env token_id exclude_urls max_attempts w = (Ok res, w') ->
  res <> Some "".
Proof.
  unfold bind_proxy_to_token. unfold bind at 1, get_world at 1.
  match goal with
  | |- bind_loop env ?n token_id ?tried w = _ -> _ =>
      destruct (bind_loop_run env token_id n tried w)
        as (res' & w'' & new & E & _ & _ & Hres)
  end.
  rewrite E. intros [= <- <-]. destruct res' as [u|]; [|discriminate].
  destruct Hres as (_ & _ & Hne & _). congruence.
Qed.

Lemma global_fallback_cases w :
  exists p,
    global_fallback w = (Ok p, w)
    /\ (p = (cfg_proxy_url (Database.proxy_config (w_db w)), Some "global")
        /\ proxy_enabled (Database.proxy_config (w_db w)) = true
        /\ Py.truthy_str (cfg_proxy_url (Database.proxy_config (w_db w))) = true
        \/ p = (None, None)).
Proof.
  unfold global_fallback, bind, get_world.
  destruct (proxy_enabled (Database.proxy_config (w_db w))) eqn:E1;
    destruct (Py.truthy_str (cfg_proxy_url (Database.proxy_config (w_db w))))
      eqn:E2; cbn [andb]; eexists; split; try reflexivity; auto.
Qed.

(** X17: The proxy of a call is resolved in a fixed order and the resolver
    never raises.  A non-empty proxy given by the caller is returned as it
    is; otherwise a non-empty proxy stored with the credential is returned;
    in both cases nothing is requested or written.  Otherwise the action
    tells what happened: ["bound"] only when a credential id was given, the
    credential exists, the free pool is switched on, and the returned proxy
    is not empty, answered a health check of this call with 200 and is now
    stored with the credential; ["global"] only with the enabled, non-empty
    global proxy; no action only with no proxy.  In the last two cases no
    health check of the call was answered 200 and the storage is
    unchanged. *)
Theorem get_proxy_url_precedence env token_id proxy_url w :
  exists p w' new,
    get_proxy_url env token_id proxy_url w = (Ok p, w')
    /\ w_log w' = (new ++ w_log w)%list
    /\ if Py.truthy_str proxy_url then p = (proxy_url, None) /\ w' = w
       else if Py.truthy_str (stored_proxy token_id (w_db w)) then
         p = (stored_proxy token_id (w_db w), None) /\ w' = w
       else
         match snd p with
         | Some action =>
             (action = "bound"
              /\ exists tid tk u,
                   token_id = Some tid
                   /\ Database.get_token tid (w_db w) = Some tk
                   /\ w_free_proxy_enabled w = true
                   /\ w_free_proxy_manager w = true
                   /\ fst p = Some u /\ u <> "" /\ probed_ok u new
                   /\ w_db w'
                      = Database.update_token tid (bind_fields u) (w_db w))
             \/ (action = "global"
                 /\ fst p = cfg_proxy_url (Database.proxy_config (w_db w))
                 /\ proxy_enabled (Database.proxy_config (w_db w)) = true
                 /\ Py.truthy_str (fst p) = true
                 /\ w_db w' = w_db w
                 /\ forall u, ~ probed_ok u new)
         | None =>
             fst p = None /\ w_db w' = w_db w /\ forall u, ~ probed_ok u new
         end.
Proof.
  unfold get_proxy_url.
  destruct (Py.truthy_str proxy_url) eqn:Ep.
  { exists (proxy_url, None), w, []. now repeat split. }
  assert (Hfb : forall w2 new,
            w_log w2 = (new ++ w_log w)%list -> w_db w2 = w_db w ->
            (forall u, ~ probed_ok u new) ->
            exists p w' new,
              global_fallback w2 = (Ok p, w')
              /\ w_log w' = (new ++ w_log w)%list
              /\ match snd p with
                 | Some action =>
                     (action = "bound"
                      /\ exists tid tk u,
                           token_id = Some tid
                           /\ Database.get_token tid (w_db w) = Some tk
                           /\ w_free_proxy_enabled w = true
                           /\ w_free_proxy_manager w = true
                           /\ fst p = Some u /\ u <> "" /\ probed_ok u new
                           /\ w_db w'
                              = Database.update_token tid (bind_fields u) (w_db w))
                     \/ (action = "global"
                         /\ fst p = cfg_proxy_url (Database.proxy_config (w_db w))
                         /\ proxy_enabled (Database.proxy_config (w_db w)) = true
                         /\ Py.truthy_str (fst p) = true
                         /\ w_db w' = w_db w
                         /\ forall u, ~ probed_ok u new)
                 | None =>
                     fst p = None /\ w_db w' = w_db w
                     /\ forall u, ~ probed_ok u new
                 end).
  { intros w2 new Hlog Hdb Hnp.
    destruct (global_fallback_cases w2) as (p & E & Hcase).
    exists p, w2, new. split; [exact E|]. split; [exact Hlog|].
    rewrite Hdb in Hcase. destruct Hcase as [(-> & He & Ht)| ->]; cbn [fst snd].
    - right. now repeat split.
    - now repeat split. }
  assert (Hnone : forall u, ~ probed_ok u []) by (intros u (r & [] & _)).
  destruct token_id as [tid|]; cbn [stored_proxy];
    [|exact (Hfb w [] eq_refl eq_refl Hnone)].
  unfold bind at 1, get_world at 1.
  destruct (Database.get_token tid (w_db w)) as [tk|] eqn:Etk; cbn [Py.truthy_str];
    [|exact (Hfb w [] eq_refl eq_refl Hnone)].
  destruct (Py.truthy_str (Token.proxy_url tk)) eqn:Es.
  { exists (Token.proxy_url tk, None), w, []. now repeat split. }
  destruct (w_free_proxy_enabled w) eqn:Ee; cbn [andb];
    [|exact (Hfb w [] eq_refl eq_refl Hnone)].
  destruct (w_free_proxy_manager w) eqn:Em;
    [|exact (Hfb w [] eq_refl eq_refl Hnone)].
  destruct (initialize_frame env w) as (w1 & E1 & Hdb1 & new1 & Hlog1).
  assert (Hq1 : quiet new1).
  { destruct (initialize_once_facts env w) as (w1' & E1' & Hq).
    rewrite E1 in E1'. injection E1' as <-. destruct Hq as (new1' & Hl & Hq).
    rewrite Hlog1 in Hl. apply app_inv_tail in Hl. now subst. }
  rewrite (bind_ok _ _ _ _ _ E1).
  destruct (bind_proxy_to_token_run env tid None 10 w1)
    as (res & w2 & new2 & E2 & Hlog2 & _ & H2).
  pose proof (bind_proxy_to_token_nonempty _ _ _ _ _ _ _ E2) as Hne.
  rewrite (bind_ok _ _ _ _ _ E2).
  assert (Hlog : w_log w2 = ((new2 ++ new1) ++ w_log w)%list).
  { now rewrite Hlog2, Hlog1, app_assoc. }
  destruct res as [u|].
  - destruct H2 as (Hp & _ & _ & Hdb2).
    assert (Hu : u <> "") by congruence.
    cbn [Py.truthy_str]. destruct (String.eqb_spec u "") as [|_]; [contradiction|].
    cbn [negb]. exists (Some u, Some "bound"), w2, (new2 ++ new1)%list.
    split; [reflexivity|]. split; [exact Hlog|]. cbn [fst snd]. left.
    split; [reflexivity|]. exists tid, tk, u.
    do 6 (split; [first [reflexivity | assumption]|]).
    split; [now apply probed_ok_app_l | now rewrite Hdb2, Hdb1].
  - destruct H2 as (Hnp & Hdb2). cbn [Py.truthy_str].
    apply (Hfb w2 (new2 ++ new1)%list Hlog); [now rewrite Hdb2, Hdb1|].
    intros u Hp. apply probed_ok_app_inv in Hp as [Hp|Hp];
      [exact (Hnp u Hp) | exact (quiet_not_probed _ _ Hq1 Hp)].
Qed.

(** ** Reports keyed by credential *)

(** X18: A failure report for a credential rebinds only proxies of the free
    pool.  Without a manager, with no credential id or the id 0, for an
    unknown credential, for a credential without a proxy, or when the stored
    proxy is the URL of no record of the pool, nothing is returned and the
    state is left exactly as it was: no failure is counted and nothing is
    probed.  Otherwise the failure is handed to the rebinding: a proxy
    returned differs from the one stored, answered a health check of this
    call with 200 and is now stored with the credential; when none is
    returned the storage is unchanged.  The report never raises. *)
Theorem report_proxy_failure_scope env token_id w :
  let stored := stored_proxy token_id (w_db w) in
  let from_pool :=
    w_free_proxy_manager w && truthy_id token_id && Py.truthy_str stored
    && str_in (default "" stored) (map url (Dict.values (w_proxies w))) in
  exists res w' new,
    report_proxy_failure env token_id w = (Ok res, w')
    /\ w_log w' = (new ++ w_log w)%list
    /\ if from_pool then
         rebind_proxy_on_failure env (default 0%Z token_id) (default "" stored) w
         = (Ok res, w')
         /\ match res with
            | Some u =>
                Some u <> stored /\ probed_ok u new
                /\ w_db w'
                   = Database.update_token (default 0%Z token_id) (bind_fields u)
                       (w_db w)
            | None => w_db w' = w_db w
            end
       else res = None /\ w' = w.
Proof.
  intros stored from_pool. subst stored from_pool.
  unfold report_proxy_failure, bind at 1, get_world at 1.
  destruct (w_free_proxy_manager w); cbn [negb orb andb];
    [|exists None, w, []; now repeat split].
  destruct token_id as [tid|]; cbn [truthy_id negb andb];
    [|exists None, w, []; now repeat split].
  change (default 0%Z (Some tid)) with tid.
  destruct (tid =? 0)%Z; cbn [negb andb stored_proxy];
    [exists None, w, []; now repeat split|].
  destruct (Database.get_token tid (w_db w)) as [tk|]; cbn [Py.truthy_str andb];
    [|exists None, w, []; now repeat split].
  destruct (Py.truthy_str (Token.proxy_url tk)) eqn:Et; cbn [negb andb];
    [|exists None, w, []; now repeat split].
  destruct (str_in (default "" (Token.proxy_url tk))
              (map url (Dict.values (w_proxies w))));
    [|exists None, w, []; now repeat split].
  destruct (rebind_run env tid (default "" (Token.proxy_url tk)) w)
    as (res & w' & w1 & new & _ & Hrun & Hlog & _ & _ & Hres).
  exists res, w', new. split; [exact Hrun|]. split; [exact Hlog|].
  split; [exact Hrun|]. destruct res as [u|].
  - destruct Hres as (Hne & Hp & _ & Hdb). split; [|now split].
    intros Heq. apply Hne. now rewrite <- Heq.
  - now destruct Hres.
Qed.

(** X19: A success report for a credential never raises, requests nothing
    and leaves the storage as it is.  It changes at most one record of the
    pool, the one under the proxy stored with the credential, and only when a
    manager is set and the credential id is neither missing nor 0; that
    record then receives the success report. *)
Theorem report_proxy_success_scope env token_id response_time w :
  exists w',
    report_proxy_success env token_id response_time w = (Ok tt, w')
    /\ w_db w' = w_db w
    /\ w_log w' = w_log w
    /\ forall u,
         Dict.get u (w_proxies w') <> Dict.get u (w_proxies w) ->
         w_free_proxy_manager w = true
         /\ truthy_id token_id = true
         /\ stored_proxy token_id (w_db w) = Some u
         /\ exists proxy,
              Dict.get u (w_proxies w) = Some proxy
              /\ Dict.get u (w_proxies w')
                 = Some (record_success_on proxy (clock env (w_ticks w))
                           (clock env (S (w_ticks w))) response_time).
Proof.
  unfold report_proxy_success, bind at 1, get_world at 1.
  destruct (w_free_proxy_manager w); cbn [negb orb];
    [|exists w; repeat split; congruence].
  destruct token_id as [tid|]; cbn [truthy_id negb];
    [|exists w; repeat split; congruence].
  change (default 0%Z (Some tid)) with tid.
  destruct (tid =? 0)%Z eqn:E0; cbn [negb stored_proxy];
    [exists w; repeat split; congruence|].
  destruct (Database.get_token tid (w_db w)) as [tk|];
    [|exists w; repeat split; congruence].
  destruct (Token.proxy_url tk) as [s|] eqn:Es; cbn [Py.truthy_str default];
    [|exists w; repeat split; congruence].
  destruct (String.eqb s ""); cbn [negb];
    [exists w; repeat split; congruence|].
  destruct (Dict.get s (w_proxies w)) as [proxy|] eqn:Eg.
  - rewrite (report_success_present _ _ _ _ _ Eg). eexists.
    split; [reflexivity|]. split; [reflexivity|]. split; [reflexivity|].
    cbn [w_proxies with_proxies with_tick]. intros u Hu.
    destruct (String.eqb_spec s u) as [<-|Hne].
    + repeat split. exists proxy. split; [exact Eg|]. apply dict_get_set_eq.
    + exfalso. apply Hu. now apply dict_get_set_ne.
  - rewrite (report_success_absent _ _ _ _ Eg). exists w.
    repeat split; congruence.
Qed.

(** X20: Configuration of the resolver.  After the free pool is switched
    off with [set_free_proxy_manager] and the global proxy is written with
    [update_proxy_config], the configuration read back is the one written and
    the credentials, their statistics and the pool are untouched.  Every
    resolution without a proxy of the caller then requests and writes
    nothing: it returns the non-empty proxy stored with the credential, if
    there is one; otherwise the configured proxy with the action ["global"]
    exactly when the configuration is enabled and its proxy is not empty; and
    no proxy otherwise. *)
Theorem resolver_configuration env enabled proxy_url w :
  exists w',
    (set_free_proxy_manager false ;; update_proxy_config enabled proxy_url) w
    = (Ok tt, w')
    /\ get_proxy_config w' = (Ok (mkProxyConfig enabled proxy_url), w')
    /\ Database.tokens (w_db w') = Database.tokens (w_db w)
    /\ Database.stats (w_db w') = Database.stats (w_db w)
    /\ w_proxies w' = w_proxies w
    /\ forall token_id,
         get_proxy_url env token_id None w'
         = (Ok (if Py.truthy_str (stored_proxy token_id (w_db w))
                then (stored_proxy token_id (w_db w), None)
                else if enabled && Py.truthy_str proxy_url
                     then (proxy_url, Some "global") else (None, None)),
            w').
Proof.
  eexists. split; [reflexivity|]. split; [reflexivity|].
  split; [reflexivity|]. split; [reflexivity|]. split; [reflexivity|].
  intros token_id.
  set (w' := with_db (Database.update_proxy_config enabled proxy_url)
               (with_free_proxy true false w)).
  assert (Hfb : global_fallback w'
                = (Ok (if enabled && Py.truthy_str proxy_url
                       then (proxy_url, Some "global") else (None, None)), w')).
  { unfold global_fallback, bind, get_world.
    change (Database.proxy_config (w_db w'))
      with (mkProxyConfig enabled proxy_url).
    cbn [proxy_enabled cfg_proxy_url].
    now destruct (enabled && Py.truthy_str proxy_url). }
  unfold get_proxy_url. cbn [Py.truthy_str].
  destruct token_id as [tid|]; cbn [stored_proxy Py.truthy_str]; [|exact Hfb].
  unfold bind at 1, get_world at 1.
  change (Database.get_token tid (w_db w'))
    with (Database.get_token tid (w_db w)).
  destruct (Database.get_token tid (w_db w)) as [tk|]; cbn [Py.truthy_str];
    [|exact Hfb].
  destruct (Py.truthy_str (Token.proxy_url tk)); [reflexivity|].
  change (w_free_proxy_enabled w') with false. exact Hfb.
Qed.

(** ** What the account lookup reports *)

Lemma prefix_lacks c : forall needle hay,
  String.prefix needle hay = true -> lacks c hay = true -> lacks c needle = true.
Proof.
  induction needle as [|a needle IH]; intros hay; [reflexivity|].
  destruct hay as [|b hay]; cbn [String.prefix lacks]; [discriminate|].
  destruct (ascii_dec a b) as [->|Hne]; [|discriminate].
  intros Hp Hl. apply andb_true_iff in Hl as [Hc Hl].
  rewrite Hc. cbn [andb]. now apply (IH hay).
Qed.

Lemma contains_lacks_inner c needle hay :
  lacks c hay = true -> lacks c needle = false -> Py.contains needle hay = false.
Proof.
  intros Hl Hn. induction hay as [|a hay IH]; cbn [Py.contains].
  - destruct (String.prefix needle "") eqn:E; [|reflexivity].
    pose proof (prefix_lacks c _ _ E Hl). congruence.
  - destruct (String.prefix needle (String a hay)) eqn:E.
    + pose proof (prefix_lacks c _ _ E Hl). congruence.
    + apply IH. cbn [lacks] in Hl. now apply andb_true_iff in Hl as [_ Hl].
Qed.

Lemma lower_char_underscore (a : ascii) :
  Ascii.eqb "_" (lower_char a) = Ascii.eqb "_" a.
Proof. destruct a as [[] [] [] [] [] [] [] []]; reflexivity. Qed.

Lemma lacks_underscore_lower (s : string) : lacks "_" (lower s) = lacks "_" s.
Proof.
  induction s as [|a s IH]; cbn [lower lacks]; [reflexivity|].
  now rewrite lower_char_underscore, IH.
Qed.

Lemma lacks_underscore_uint d : lacks "_" (NilEmpty.string_of_uint d) = true.
Proof. induction d; simpl; auto. Qed.

Lemma lacks_underscore_str_of_int z : lacks "_" (Py.str_of_int z) = true.
Proof.
  unfold Py.str_of_int, NilZero.string_of_int, NilZero.string_of_uint.
  destruct (Z.to_int z) as [d|d]; destruct d; simpl;
    auto using lacks_underscore_uint.
Qed.

Lemma get_user_info_failure env access_token token_id proxy_url w p w1 r :
  get_proxy_url env token_id proxy_url w = (Ok p, w1) ->
  remote env (length (w_log w1))
    (mkRequest EpMe access_token (Some (PyTuple (fst p) (snd p)))) = Response r ->
  status_code r <> 200%Z ->
  exists e,
    fst (get_user_info env access_token token_id proxy_url w) = Raise e
    /\ Py.contains "token_invalidated" (lower (exn_msg e)) = false
    /\ (match json r with
        | Some (JArray _) | Some JNull => status_code r <> 401%Z
        | _ => True
        end ->
        e = mkExn ValueError
              ("Failed to get user info: " ++ Py.str_of_int (status_code r))).
Proof.
  intros Hp Hr Hs. unfold get_user_info. rewrite (bind_ok _ _ _ _ _ Hp).
  rewrite proxy_kwarg_of_pair. unfold bind at 1, session_request. rewrite Hr.
  destruct (Z.eqb_spec (status_code r) 200) as [|_]; [contradiction|].
  cbn [negb].
  assert (Hmsg : Py.contains "token_invalidated"
                   (lower ("Failed to get user info: "
                           ++ Py.str_of_int (status_code r))) = false).
  { apply (contains_lacks_inner "_"); [|reflexivity].
    rewrite lacks_underscore_lower, lacks_app, lacks_underscore_str_of_int.
    reflexivity. }
  destruct (Z.eqb_spec (status_code r) 401) as [E|E].
  - unfold bind, try_except, response_json.
    destruct (json r) as [[items|d|]|]; cbn.
    + eexists. split; [reflexivity|]. split; [reflexivity|]. intros H. now elim H.
    + destruct (String.eqb _ "token_invalidated"); cbn;
        (eexists; split; [reflexivity|]; split; [exact Hmsg | reflexivity]).
    + eexists. split; [reflexivity|]. split; [reflexivity|]. intros H. now elim H.
    + eexists. split; [reflexivity|]. split; [exact Hmsg | reflexivity].
  - unfold bind, ret, raise. cbn.
    eexists. split; [reflexivity|]. split; [exact Hmsg | reflexivity].
Qed.



Lemma maybe_bound_is_expired token_id db db' tk :
  maybe_bound (Some token_id) db db' ->
  Database.get_token token_id db = Some tk ->
  exists tk',
    Database.get_token token_id db' = Some tk'
    /\ Token.is_expired tk' = Token.is_expired tk
    /\ Token.is_active tk' = Token.is_active tk.
Proof.
  intros [->|(tid & u & [= <-] & ->)] Hget.
  - now exists tk.
  - exists (Database.apply_fields (bind_fields u) tk).
    unfold Database.get_token, Database.update_token in *. simpl.
    rewrite lookup_alter_eq, Hget. auto.
Qed.

(** X22: A test does not notice an invalidated credential.  For a stored
    credential without session and refresh credentials, when the account
    endpoint answers the test with 401 and the error code
    [token_invalidated], [test_token] returns the invalid result with the
    message ["Token is invalid: Failed to get user info: 401"]; it makes no
    further request, and the credential is not marked expired: its expired
    and active flags are as before. *)
Theorem test_token_ignores_invalidation env token_id w token_data p w1 r :
  Database.get_token token_id (w_db w) = Some token_data ->
  Py.truthy_str (Token.st token_data) = false ->
  Py.truthy_str (Token.rt token_data) = false ->
  get_proxy_url env (Some token_id) None w = (Ok p, w1) ->
  remote env (length (w_log w1))
    (mkRequest EpMe (Token.token token_data) (Some (PyTuple (fst p) (snd p))))
  = Response r ->
  status_code r = 401%Z ->
  error_code_of r = Some "token_invalidated" ->
  test_token env token_id w
  = (Ok (mkTestResult false "Token is invalid: Failed to get user info: 401"),
     with_logged
       (mkRequest EpMe (Token.token token_data) (Some (PyTuple (fst p) (snd p))))
       (Response r) w1)
  /\ exists tk',
       Database.get_token token_id (w_db w1) = Some tk'
       /\ Token.is_expired tk' = Token.is_expired token_data
       /\ Token.is_active tk' = Token.is_active token_data.
Proof.
  intros Hget Hst Hrt Hp Hr Hs Hcode. split.
  - assert (Hgi :
      get_user_info env (Token.token token_data) (Some token_id) None w
      = (Raise (mkExn ValueError "Failed to get user info: 401"),
         with_logged
           (mkRequest EpMe (Token.token token_data)
              (Some (PyTuple (fst p) (snd p))))
           (Response r) w1)).
    { assert (Hne : status_code r <> 200%Z) by (rewrite Hs; discriminate).
      destruct (get_user_info_failure env (Token.token token_data)
                  (Some token_id) None w p w1 r Hp Hr Hne)
        as (e & Hrun & _ & He).
      pose proof (get_user_info_log env (Token.token token_data)
                    (Some token_id) None w p w1 Hp) as Hw.
      cbv zeta in Hw. rewrite Hr in Hw. rewrite He, Hs in Hrun.
      2:{ unfold error_code_of in Hcode. destruct (json r) as [[| |]|]; auto;
          discriminate. }
      destruct (get_user_info env (Token.token token_data) (Some token_id)
                  None w) as [res w'].
      cbn [fst snd] in Hrun, Hw. now subst. }
    unfold test_token. unfold bind at 1, get_world at 1. rewrite Hget.
    rewrite Hst. unfold bind at 1, ret at 1. rewrite Hrt. cbn [negb andb].
    unfold bind at 1, ret at 1. unfold try_except. unfold bind at 1.
    rewrite Hgi. reflexivity.
  - destruct (get_proxy_url_frame env (Some token_id) None w)
      as (p' & w1' & Hp' & Hmb & _).
    rewrite Hp in Hp'. injection Hp' as <- <-.
    exact (maybe_bound_is_expired _ _ _ _ Hmb Hget).
Qed.

Lemma test_token_ignores_invalidation_witness :
  fst (test_token Scenario.env_invalidated 1
         (with_db (Database.update_token 1
                     (Database.mkFields None (Some "") (Some "") None None
                        None None None)) Sample.world1))
  = Ok (mkTestResult false "Token is invalid: Failed to get user info: 401").
Proof.
  match goal with
  | |- fst (test_token _ _ ?w) = _ =>
      destruct (test_token_ignores_invalidation Scenario.env_invalidated 1 w
                  (Database.apply_fields
                     (Database.mkFields None (Some "") (Some "") None None
                        None None None) Sample.token1)
                  (Some "socks5://10.0.0.9:1080", None) w
                  (mkHttpResponse 401 "{}" (Some (JObject Scenario.invalidated))))
        as [Hrun _]
  end.
  - reflexivity.
  - reflexivity.
  - reflexivity.
  - reflexivity.
  - reflexivity.
  - reflexivity.
  - reflexivity.
  - rewrite Hrun. reflexivity.
Defined.

(** ** Registration: rejections and the offline mode *)

Lemma get_all_tokens_In db tk :
  In tk (Database.get_all_tokens db) <->
  exists k, Database.get_token k db = Some tk.
Proof.
  unfold Database.get_all_tokens, Database.get_token. rewrite in_map_iff. split.
  - intros ([k x] & <- & Hin). exists k.
    apply list_elem_of_In, elem_of_map_to_list in Hin. exact Hin.
  - intros (k & Hk). exists (k, tk). split; [reflexivity|].
    apply list_elem_of_In, elem_of_map_to_list. exact Hk.
Qed.

Lemma get_token_by_value_Some v db tk :
  Database.get_token_by_value v db = Some tk ->
  In tk (Database.get_all_tokens db) /\ Token.token tk = v.
Proof.
  unfold Database.get_token_by_value. intros H. apply find_some in H as [Hin He].
  split; [exact Hin | now apply String.eqb_eq in He].
Qed.

Lemma get_token_by_value_None v db :
  Database.get_token_by_value v db = None ->
  forall tk, In tk (Database.get_all_tokens db) -> Token.token tk <> v.
Proof.
  unfold Database.get_token_by_value. intros H tk Hin Heq.
  apply (find_none _ _ H) in Hin. rewrite Heq, String.eqb_refl in Hin.
  discriminate.
Qed.

Lemma add_token_duplicate env token_value st rt client_id proxy_url
    skip_status_update email w :
  match Database.get_token_by_value token_value (w_db w) with
  | Some existing =>
      add_token env token_value st rt client_id proxy_url false
        skip_status_update email w
      = (Raise (mkExn ValueError
                  ("Token 已存在（邮箱: " ++ Token.email existing
                   ++ "）。如需更新，请先删除旧 Token 或使用更新功能。")),
         w)
  | None => True
  end.
Proof.
  destruct (Database.get_token_by_value token_value (w_db w)) as [existing|] eqn:E;
    [|exact I].
  unfold add_token, bind, get_world. now rewrite E.
Qed.

(** X23: A registration is rejected before anything is requested or
    written, whatever the other arguments are: when a row with the same
    primary credential exists and updating was not asked for, with a
    [ValueError] that quotes the address of that row; and when no such row
    exists and the credential cannot be decoded, with the [ValueError]
    ["Invalid JWT token: ..."].  The row is looked up among all rows by the
    value of the credential. *)
Theorem add_token_rejections env token_value st rt client_id proxy_url
    update_if_exists skip_status_update email w :
  match Database.get_token_by_value token_value (w_db w) with
  | Some existing =>
      In existing (Database.get_all_tokens (w_db w))
      /\ Token.token existing = token_value
      /\ (update_if_exists = false ->
          add_token env token_value st rt client_id proxy_url update_if_exists
            skip_status_update email w
          = (Raise (mkExn ValueError
                      ("Token 已存在（邮箱: " ++ Token.email existing
                       ++ "）。如需更新，请先删除旧 Token 或使用更新功能。")),
             w))
  | None =>
      (forall tk, In tk (Database.get_all_tokens (w_db w)) ->
                  Token.token tk <> token_value)
      /\ forall msg,
           jwt_decode env token_value = inr msg ->
           add_token env token_value st rt client_id proxy_url update_if_exists
             skip_status_update email w
           = (Raise (mkExn ValueError ("Invalid JWT token: " ++ msg)), w)
  end.
Proof.
  destruct (Database.get_token_by_value token_value (w_db w)) as [existing|] eqn:E.
  - destruct (get_token_by_value_Some _ _ _ E) as [Hin Htok].
    split; [exact Hin|]. split; [exact Htok|]. intros ->.
    unfold add_token, bind, get_world. now rewrite E.
  - split; [now apply get_token_by_value_None|]. intros msg Hdec.
    unfold add_token. unfold bind at 1, get_world at 1. rewrite E.
    unfold bind at 1, decode_jwt. now rewrite Hdec.
Qed.

Lemma db_wf_get db k tk :
  db_wf db = true -> Database.get_token k db = Some tk -> Token.id tk = k.
Proof.
  unfold db_wf, Database.get_token. rewrite forallb_forall. intros Hall Hget.
  apply elem_of_map_to_list, list_elem_of_In in Hget.
  specialize (Hall _ Hget). cbn [fst snd] in Hall. now apply Z.eqb_eq in Hall.
Qed.

Lemma le_fold_max (l : list Z) (x : Z) : In x l -> (x <= fold_right Z.max 0 l)%Z.
Proof.
  induction l as [|a l IH]; [contradiction|]. cbn [fold_right].
  intros [<-|H]; [lia|]. specialize (IH H). lia.
Qed.

Lemma next_id_fresh db :
  db_wf db = true -> Database.get_token (Database.next_id db) db = None.
Proof.
  intros Hwf. destruct (Database.get_token (Database.next_id db) db) as [tk|] eqn:E;
    [|reflexivity].
  exfalso. pose proof (db_wf_get _ _ _ Hwf E) as Hid.
  assert (Hin : In (Token.id tk) (map Token.id (Database.get_all_tokens db))).
  { apply in_map, get_all_tokens_In. now exists (Database.next_id db). }
  apply le_fold_max in Hin. unfold Database.next_id in Hid. lia.
Qed.

Lemma database_add_token_facts tk db :
  let '(i, db') := Database.add_token tk db in
  i = Database.next_id db
  /\ Database.get_token i db' = Some (Database.set_id i tk)
  /\ (forall tid, tid <> i -> Database.get_token tid db' = Database.get_token tid db)
  /\ is_Some (Database.get_token_by_value (Token.token tk) db').
Proof.
  unfold Database.add_token. split; [reflexivity|].
  assert (Hget : Database.get_token (Database.next_id db)
                   (Database.with_stats
                      (insert (Database.next_id db) (mkTokenStats 0 0))
                      (Database.with_tokens
                         (insert (Database.next_id db)
                            (Database.set_id (Database.next_id db) tk)) db))
                 = Some (Database.set_id (Database.next_id db) tk)).
  { unfold Database.get_token. cbn. apply lookup_insert_eq. }
  split; [exact Hget|]. split.
  - intros tid Hne. unfold Database.get_token. cbn. now apply lookup_insert_ne.
  - match goal with
    | |- is_Some (Database.get_token_by_value ?v ?d) =>
        destruct (Database.get_token_by_value v d) as [found|] eqn:Ef
    end; [now eexists|].
    exfalso.
    apply (get_token_by_value_None _ _ Ef
             (Database.set_id (Database.next_id db) tk));
      [apply get_all_tokens_In; eexists; exact Hget | reflexivity].
Qed.



(** ** Error accounting *)

Lemma record_error_run token_id is_overload w s tk :
  Database.get_token_stats token_id (w_db w) = Some s ->
  Database.get_token token_id (w_db w) = Some tk ->
  exists w',
    record_error token_id is_overload w = (Ok tt, w')
    /\ w_log w' = w_log w
    /\ Database.error_ban_threshold (w_db w')
       = Database.error_ban_threshold (w_db w)
    /\ Database.get_token_stats token_id (w_db w')
       = Some (mkTokenStats (error_count s + 1)
                 (if is_overload then consecutive_error_count s
                  else consecutive_error_count s + 1)%N)
    /\ Database.get_token token_id (w_db w')
       = Some (if negb is_overload
                  && (Database.error_ban_threshold (w_db w)
                      <=? consecutive_error_count s + 1)%N
               then Database.set_is_active false tk else tk).
Proof.
  intros Hs Htk. unfold record_error, bind, modify, get_world.
  assert (Hs' : Database.get_token_stats token_id
                  (Database.increment_error_count token_id (negb is_overload)
                     (w_db w))
                = Some (mkTokenStats (error_count s + 1)
                          (if is_overload then consecutive_error_count s
                           else consecutive_error_count s + 1)%N)).
  { unfold Database.get_token_stats, Database.increment_error_count in *.
    cbn. rewrite lookup_alter_eq, Hs. now destruct is_overload. }
  destruct is_overload; cbn [negb andb] in *.
  - eexists. split; [reflexivity|]. cbn [w_log w_db with_db].
    repeat split; auto.
  - cbn [w_db with_db]. rewrite Hs'.
    cbn [consecutive_error_count Database.error_ban_threshold
         Database.increment_error_count Database.with_stats].
    destruct (Database.error_ban_threshold (w_db w)
              <=? consecutive_error_count s + 1)%N.
    + eexists. split; [reflexivity|]. cbn [w_log w_db with_db].
      split; [reflexivity|]. split; [reflexivity|]. split; [exact Hs'|].
      unfold Database.get_token, Database.update_token_status in *. cbn.
      rewrite lookup_alter_eq. cbn in Htk. now rewrite Htk.
    + eexists. split; [reflexivity|]. cbn [w_log w_db with_db].
      repeat split; auto.
Qed.

Lemma record_errors_run token_id : forall overloads w s tk,
  Database.get_token_stats token_id (w_db w) = Some s ->
  Database.get_token token_id (w_db w) = Some tk ->
  exists w',
    record_errors token_id overloads w = (Ok tt, w')
    /\ w_log w' = w_log w
    /\ Database.error_ban_threshold (w_db w')
       = Database.error_ban_threshold (w_db w)
    /\ Database.get_token_stats token_id (w_db w')
       = Some (mkTokenStats (error_count s + N.of_nat (length overloads))
                 (consecutive_error_count s + counted overloads))
    /\ Database.get_token token_id (w_db w')
       = Some (if (0 <? counted overloads)%N
                  && (Database.error_ban_threshold (w_db w)
                      <=? consecutive_error_count s + counted overloads)%N
               then Database.set_is_active false tk else tk).
Proof.
  induction overloads as [|o rest IH]; intros w s tk Hs Htk;
    cbn [record_errors].
  - exists w. split; [reflexivity|]. split; [reflexivity|].
    split; [reflexivity|]. unfold counted. cbn [List.filter length N.of_nat].
    rewrite !N.add_0_r. split; [now destruct s | exact Htk].
  - destruct (record_error_run token_id o w s tk Hs Htk)
      as (w1 & E1 & Hlog1 & Hthr1 & Hs1 & Htk1).
    rewrite (bind_ok _ _ _ _ _ E1).
    destruct (IH w1 _ _ Hs1 Htk1) as (w2 & E2 & Hlog2 & Hthr2 & Hs2 & Htk2).
    exists w2. split; [exact E2|]. split; [congruence|]. split; [congruence|].
    cbn [error_count consecutive_error_count] in Hs2, Htk2.
    rewrite Hthr1 in Htk2. split.
    + rewrite Hs2. f_equal. f_equal; [cbn [length]; lia|].
      unfold counted. destruct o; cbn [List.filter negb length]; lia.
    + rewrite Htk2. f_equal. unfold counted.
      set (thr := Database.error_ban_threshold (w_db w)).
      set (c := consecutive_error_count s).
      destruct o; cbn [List.filter negb length andb]; [reflexivity|].
      set (k := length (List.filter negb rest)).
      replace (0 <? N.of_nat (S k))%N with true by (symmetry; apply N.ltb_lt; lia).
      cbn [andb].
      destruct (N.leb_spec thr (c + 1)) as [H1|H1];
        destruct (N.leb_spec thr (c + N.of_nat (S k))) as [H2|H2];
        destruct (N.leb_spec thr (c + 1 + N.of_nat k)) as [H3|H3];
        destruct (N.ltb_spec 0 (N.of_nat k)) as [H4|H4];
        cbn [andb]; try reflexivity; try lia.
Qed.

(** X25: Error accounting over a run of error reports on a credential that
    has a row and a statistics row.  Every report adds one to the total error
    count; only the reports that are not overload errors add to the
    consecutive count.  The credential is disabled exactly when the run has
    an error that is not an overload error and the consecutive count reaches
    the ban threshold; otherwise its row is untouched.  Overload errors alone
    never disable a credential.  Nothing is requested and nothing is
    raised. *)
Theorem record_errors_ban token_id overloads w s tk :
  Database.get_token_stats token_id (w_db w) = Some s ->
  Database.get_token token_id (w_db w) = Some tk ->
  exists w',
    record_errors token_id overloads w = (Ok tt, w')
    /\ w_log w' = w_log w
    /\ Database.get_token_stats token_id (w_db w')
       = Some (mkTokenStats (error_count s + N.of_nat (length overloads))
                 (consecutive_error_count s + counted overloads))
    /\ Database.get_token token_id (w_db w')
       = Some (if (0 <? counted overloads)%N
                  && (Database.error_ban_threshold (w_db w)
                      <=? consecutive_error_count s + counted overloads)%N
               then Database.set_is_active false tk else tk).
Proof.
  intros Hs Htk.
  destruct (record_errors_run token_id overloads w s tk Hs Htk)
    as (w' & E & Hlog & _ & Hs' & Htk').
  now exists w'.
Qed.

Lemma record_errors_ban_witness :
  exists w',
    record_errors 1 [true; false] Sample.world1 = (Ok tt, w')
    /\ Database.get_token_stats 1 (w_db w') = Some (mkTokenStats 9 3)
    /\ Token.is_active <$> Database.get_token 1 (w_db w') = Some false.
Proof.
  destruct (record_errors_ban 1 [true; false] Sample.world1 (mkTokenStats 7 2)
              Sample.token1)
    as (w' & Hrun & _ & Hs & Htk).
  - reflexivity.
  - reflexivity.
  - exists w'. split; [exact Hrun|]. split; [exact Hs|]. rewrite Htk.
    reflexivity.
Defined.

(** X26: Enabling a credential restarts the ban count.  After
    [enable_token] the credential is active and not expired and its
    consecutive error count is zero, the total error count being kept; in a
    run of error reports that follows, the credential is disabled again
    exactly when the errors of the run that are not overload errors, at least
    one, reach the ban threshold.  Nothing is requested and nothing is
    raised. *)
Theorem enable_token_restarts_count token_id overloads w s tk :
  Database.get_token_stats token_id (w_db w) = Some s ->
  Database.get_token token_id (w_db w) = Some tk ->
  exists w' tk',
    (enable_token token_id ;; record_errors token_id overloads) w = (Ok tt, w')
    /\ w_log w' = w_log w
    /\ Database.get_token_stats token_id (w_db w')
       = Some (mkTokenStats (error_count s + N.of_nat (length overloads))
                 (counted overloads))
    /\ Database.get_token token_id (w_db w') = Some tk'
    /\ Token.is_expired tk' = false
    /\ Token.is_active tk'
       = negb ((0 <? counted overloads)%N
               && (Database.error_ban_threshold (w_db w)
                   <=? counted overloads)%N).
Proof.
  intros Hs Htk. unfold enable_token.
  unfold bind at 1. unfold bind at 1, modify at 1. unfold bind at 1, modify at 1.
  unfold modify at 1.
  match goal with
  | |- context [record_errors token_id overloads ?w1] =>
      destruct (record_errors_run token_id overloads w1
                  (mkTokenStats (error_count s) 0)
                  (Database.set_is_expired false
                     (Database.set_is_active true tk)))
        as (w' & E & Hlog & _ & Hs' & Htk')
  end.
  - unfold Database.get_token_stats in *. cbn. rewrite lookup_alter_eq.
    cbn in Hs. now rewrite Hs.
  - unfold Database.get_token in *. cbn. rewrite lookup_alter_eq.
    rewrite lookup_alter_eq. cbn in Htk. now rewrite Htk.
  - cbn [error_count consecutive_error_count] in Hs', Htk'.
    rewrite N.add_0_l in Hs', Htk'.
    eexists w', _. split; [exact E|]. split; [exact Hlog|].
    split; [exact Hs'|]. split; [exact Htk'|].
    cbn [w_db with_db Database.error_ban_threshold Database.clear_token_expired
         Database.reset_error_count Database.update_token_status
         Database.with_tokens Database.with_stats].
    destruct ((0 <? counted overloads)%N
              && (Database.error_ban_threshold (w_db w) <=? counted overloads)%N);
      split; reflexivity.
Qed.

Lemma enable_token_restarts_count_witness :
  exists w' tk',
    (enable_token 1 ;; record_errors 1 [false; false]) Sample.world1
    = (Ok tt, w')
    /\ Database.get_token 1 (w_db w') = Some tk'
    /\ Token.is_active tk' = true.
Proof.
  destruct (enable_token_restarts_count 1 [false; false] Sample.world1
              (mkTokenStats 7 2) Sample.token1)
    as (w' & tk' & Hrun & _ & _ & Htk & _ & Ha).
  - reflexivity.
  - reflexivity.
  - exists w', tk'. split; [exact Hrun|]. split; [exact Htk|]. rewrite Ha.
    reflexivity.
Defined.

(** ** The end of a quota cooldown *)

(** X27: The refresh at the end of a quota cooldown never raises and never
    changes whether the credential is active: a credential that was disabled
    when its quota ran out stays disabled.  For a stored credential, nothing
    at all happens when it has no cooldown or does not support Sora2, and
    only the clock is read when the cooldown still lies ahead.  Once the
    cooldown has passed, the quota is asked for once: a successful answer
    stores the remaining count and clears the cooldown; any other outcome
    leaves the cooldown as it was. *)
Theorem cooldown_refresh_keeps_disabled env token_id w token_data :
  Database.get_token token_id (w_db w) = Some token_data ->
  exists w' tk',
    refresh_sora2_remaining_if_cooldown_expired env token_id w = (Ok tt, w')
    /\ Database.get_token token_id (w_db w') = Some tk'
    /\ Token.is_active tk' = Token.is_active token_data
    /\ match Token.sora2_cooldown_until token_data with
       | Some cooldown =>
           if bool_decide (Token.sora2_supported token_data = Some true) then
             if Py.Qltb (clock env (w_ticks w)) cooldown then w' = with_tick w
             else
               exists p w1,
                 get_proxy_url env (Some token_id) None (with_tick w)
                 = (Ok p, w1)
                 /\ let rq :=
                      mkRequest EpNfCheck (Token.token token_data)
                        (Some (PyTuple (fst p) (snd p))) in
                    let o := remote env (length (w_log w1)) rq in
                    w_log w' = (rq, o) :: w_log w1
                    /\ match quota_answer o with
                       | Ok info =>
                           if ri_success info then
                             Token.sora2_cooldown_until tk' = None
                             /\ Token.sora2_remaining_count tk'
                                = ri_remaining_count info
                           else Token.sora2_cooldown_until tk' = Some cooldown
                       | Raise _ =>
                           Token.sora2_cooldown_until tk' = Some cooldown
                       end
           else w' = w
       | None => w' = w
       end.
Proof.
  intros Hget. unfold refresh_sora2_remaining_if_cooldown_expired.
  unfold try_except at 1. unfold bind at 1, get_world at 1. rewrite Hget.
  destruct (bool_decide (Token.sora2_supported token_data = Some true)) eqn:Esup;
    cbn [negb].
  2:{ exists w, token_data. split; [reflexivity|]. split; [exact Hget|].
      split; [reflexivity|]. now destruct (Token.sora2_cooldown_until token_data). }
  destruct (Token.sora2_cooldown_until token_data) as [cooldown|] eqn:Ecool.
  2:{ exists w, token_data. now repeat split. }
  unfold bind at 1, time_time at 1.
  destruct (Py.Qltb (clock env (w_ticks w)) cooldown) eqn:Edue; cbn [negb].
  { exists (with_tick w), token_data. now repeat split. }
  set (w0 := with_tick w).
  destruct (get_proxy_url_frame env (Some token_id) None w0)
    as (p & w1 & Ep & Hbound & _).
  destruct (maybe_bound_get_token token_id (w_db w0) (w_db w1) token_data Hbound)
    as (_ & tk1 & Hget1 & Hcool1 & Hact1).
  { exact Hget. }
  pose proof (get_sora2_remaining_count_run env (Token.token token_data)
                (Some token_id) None w0 p w1 Ep) as Hrun.
  cbv zeta in Hrun.
  set (rq := mkRequest EpNfCheck (Token.token token_data)
               (Some (PyTuple (fst p) (snd p)))) in *.
  set (o := remote env (length (w_log w1)) rq) in *.
  unfold try_except. unfold bind at 1. rewrite Hrun.
  destruct (quota_answer o) as [info|e] eqn:Eq.
  2:{ cbn [is_Exception]. eexists _, tk1. split; [reflexivity|].
      cbn [w_db with_logged w_log]. split; [exact Hget1|].
      split; [exact Hact1|]. exists p, w1. split; [exact Ep|].
      cbv zeta. fold rq o. rewrite Eq. split; [reflexivity|]. congruence. }
  destruct (ri_success info) eqn:Esucc.
  - unfold bind, modify. eexists _, _. split; [reflexivity|].
    cbn [w_db with_db with_logged w_log].
    unfold Database.get_token, Database.update_token_sora2_cooldown,
      Database.update_token_sora2_remaining in *.
    cbn [Database.tokens Database.with_tokens].
    rewrite !lookup_alter_eq, Hget1. cbn [fmap option_fmap option_map].
    split; [reflexivity|]. split; [exact Hact1|].
    exists p, w1. split; [exact Ep|]. cbv zeta. fold rq o. rewrite Eq, Esucc.
    split; [reflexivity|]. split; reflexivity.
  - eexists _, tk1. split; [reflexivity|].
    cbn [w_db with_logged w_log]. split; [exact Hget1|].
    split; [exact Hact1|]. exists p, w1. split; [exact Ep|].
    cbv zeta. fold rq o. rewrite Eq, Esucc. split; [reflexivity|]. congruence.
Qed.

Lemma cooldown_refresh_keeps_disabled_witness :
  exists w' tk',
    refresh_sora2_remaining_if_cooldown_expired Sample.env_quota 1
      Scenario.world_cooled = (Ok tt, w')
    /\ Database.get_token 1 (w_db w') = Some tk'
    /\ Token.is_active tk' = false
    /\ Token.sora2_cooldown_until tk' = None
    /\ Token.sora2_remaining_count tk' = 1%Z.
Proof.
  destruct (cooldown_refresh_keeps_disabled Sample.env_quota 1
              Scenario.world_cooled Scenario.cooled_token)
    as (w' & tk' & Hrun & Hget & Hact & Hcase).
  - reflexivity.
  - exists w', tk'. split; [exact Hrun|]. split; [exact Hget|].
    split; [exact Hact|].
    cbn [Token.sora2_cooldown_until Scenario.cooled_token] in Hcase.
    rewrite bool_decide_eq_true_2 in Hcase by reflexivity.
    change (Py.Qltb (clock Sample.env_quota (w_ticks Scenario.world_cooled)) 500)
      with false in Hcase.
    destruct Hcase as (p & w1 & Hp & _ & Hq).
    vm_compute in Hp. injection Hp as <- <-. exact Hq.
Defined.

(** ** Maintenance never raises *)

Lemma rows_preserving_with_stats f : rows_preserving (Database.with_stats f).
Proof. intros db tid H. exact H. Qed.

#[local] Hint Extern 2 (keeps_rows (modify (with_db _))) =>
  apply keeps_rows_modify, rows_preserving_with_stats : keeps_rows.
#[local] Hint Resolve keeps_rows_test_token : keeps_rows.

Lemma keeps_rows_update_token env token_id token st rt skip_status_update :
  keeps_rows (update_token env token_id token st rt skip_status_update).
Proof. unfold update_token. keeps_rows_auto. Qed.

Lemma keeps_rows_record_success env token_id is_video :
  keeps_rows (record_success env token_id is_video).
Proof. unfold record_success, disable_token. keeps_rows_auto. Qed.

#[local] Hint Resolve keeps_rows_update_token : keeps_rows.

Lemma keeps_rows_auto_refresh env token_id :
  keeps_rows (auto_refresh_expiring_token env token_id).
Proof. unfold auto_refresh_expiring_token, disable_token. keeps_rows_auto. Qed.

Lemma keeps_rows_cooldown_refresh env token_id :
  keeps_rows (refresh_sora2_remaining_if_cooldown_expired env token_id).
Proof. unfold refresh_sora2_remaining_if_cooldown_expired. keeps_rows_auto. Qed.

(** X28: The maintenance operations on a credential never raise and never
    delete a row, whatever the network answers and whether or not the
    credential is known: testing, updating, recording a success, refreshing
    an expiring credential and refreshing the quota after a cooldown all end
    with a result.  For an unknown credential id the test returns the invalid
    result ["Token not found"] and the refresh returns false, both without
    any request or change. *)
Theorem maintenance_never_raises env token_id :
  total (test_token env token_id)
  /\ (forall token st rt skip_status_update,
        total (update_token env token_id token st rt skip_status_update))
  /\ (forall is_video, total (record_success env token_id is_video))
  /\ total (auto_refresh_expiring_token env token_id)
  /\ total (refresh_sora2_remaining_if_cooldown_expired env token_id)
  /\ keeps_rows (test_token env token_id)
  /\ (forall token st rt skip_status_update,
        keeps_rows (update_token env token_id token st rt skip_status_update))
  /\ (forall is_video, keeps_rows (record_success env token_id is_video))
  /\ keeps_rows (auto_refresh_expiring_token env token_id)
  /\ keeps_rows (refresh_sora2_remaining_if_cooldown_expired env token_id)
  /\ forall w,
       Database.get_token token_id (w_db w) = None ->
       test_token env token_id w = (Ok (mkTestResult false "Token not found"), w)
       /\ auto_refresh_expiring_token env token_id w = (Ok (Some false), w)
       /\ refresh_sora2_remaining_if_cooldown_expired env token_id w
          = (Ok tt, w).
Proof.
  split; [unfold test_token; cbv zeta; total_auto|].
  split; [intros; unfold update_token; total_auto|].
  split; [intros; unfold record_success; total_auto|].
  split; [unfold auto_refresh_expiring_token; total_auto|].
  split; [unfold refresh_sora2_remaining_if_cooldown_expired; total_auto|].
  split; [apply keeps_rows_test_token|].
  split; [intros; apply keeps_rows_update_token|].
  split; [intros; apply keeps_rows_record_success|].
  split; [apply keeps_rows_auto_refresh|].
  split; [apply keeps_rows_cooldown_refresh|].
  intros w Hnone. split; [|split].
  - unfold test_token, bind, get_world. now rewrite Hnone.
  - unfold auto_refresh_expiring_token, try_except, bind, get_world.
    now rewrite Hnone.
  - unfold refresh_sora2_remaining_if_cooldown_expired, try_except, bind,
      get_world. now rewrite Hnone.
Qed.

(** ** What an exchange accepts *)


(** X30: The exchange of a refresh credential makes exactly one request, to
    the token endpoint with the client id given or, when none or an empty
    one is given, with the default client id.  It succeeds exactly when the
    answer has status 200, a body that is not blank, JSON that is an object,
    and in it a non-empty [access_token]; the result then carries that
    credential with the refresh credential and the lifetime of the answer.
    In every other case it raises. *)
Theorem rt_to_at_outcome env refresh_token client_id proxy_url w :
  let p := resolve_direct proxy_url (w_db w) in
  let rq :=
    mkRequest
      (EpOAuthToken
         (match client_id with
          | Some c => if String.eqb c "" then DEFAULT_CLIENT_ID else c
          | None => DEFAULT_CLIENT_ID
          end))
      refresh_token (Some (PyTuple (fst p) (snd p))) in
  let o := remote env (length (w_log w)) rq in
  exists res,
    rt_to_at env refresh_token client_id proxy_url w = (res, with_logged rq o w)
    /\ forall result,
         res = Ok result <->
         exists r d,
           o = Response r /\ status_code r = 200%Z
           /\ is_blank (text r) = false
           /\ json r = Some (JObject d)
           /\ j_access_token d = Some (rt_access_token result)
           /\ rt_access_token result <> ""
           /\ rt_refresh_token result = j_refresh_token d
           /\ rt_expires_in result = j_expires_in d.
Proof.
  intros p rq o. unfold rt_to_at.
  rewrite (bind_ok _ _ _ _ _ (get_proxy_url_direct env proxy_url w)).
  rewrite proxy_kwarg_of_pair. fold p.
  replace (if Py.truthy_str client_id then default "" client_id
           else DEFAULT_CLIENT_ID)
    with (match client_id with
          | Some c => if String.eqb c "" then DEFAULT_CLIENT_ID else c
          | None => DEFAULT_CLIENT_ID
          end)
    by (destruct client_id as [c|]; cbn; [now destruct (String.eqb c "")|reflexivity]).
  fold rq.
  unfold try_except at 1, bind at 1, session_request. fold o.
  destruct o as [msg|r] eqn:Eo.
  { eexists. split; [reflexivity|]. intros result. split; [discriminate|].
    intros (r' & d' & H & _). discriminate. }
  destruct (status_code r =? 200)%Z eqn:Es; cbn [negb].
  2:{ eexists. split; [reflexivity|]. intros result. split; [discriminate|].
      intros (r' & d' & [= <-] & Hs & _). apply Z.eqb_neq in Es. contradiction. }
  destruct (is_blank (text r)) eqn:Eb.
  { eexists. split; [reflexivity|]. intros result. split; [discriminate|].
    intros (r' & d' & [= <-] & _ & Hb & _). congruence. }
  unfold bind at 1, try_except at 1, response_json.
  destruct (json r) as [[items|d|]|] eqn:Ej; cbn.
  - eexists. split; [reflexivity|]. intros result. split; [discriminate|].
    intros (r' & d' & [= <-] & _ & _ & Hj & _). congruence.
  - destruct (j_access_token d) as [access_token|] eqn:Ea; cbn.
    + destruct (String.eqb_spec access_token "") as [->|Hne]; cbn.
      * eexists. split; [reflexivity|]. intros result. split; [discriminate|].
        intros (r' & d' & [= <-] & _ & _ & Hj & Ha & Hn & _).
        rewrite Ej in Hj. injection Hj as <-. rewrite Ea in Ha. congruence.
      * eexists. split; [reflexivity|]. intros result. split.
        -- intros [= <-]. exists r, d. apply Z.eqb_eq in Es.
           now repeat split.
        -- intros (r' & d' & [= <-] & _ & _ & Hj & Ha & _ & He & Hx).
           rewrite Ej in Hj. injection Hj as <-. rewrite Ea in Ha.
           injection Ha as Ha. destruct result as [a e x]. cbn in *.
           now subst.
    + eexists. split; [reflexivity|]. intros result. split; [discriminate|].
      intros (r' & d' & [= <-] & _ & _ & Hj & Ha & _).
      rewrite Ej in Hj. injection Hj as <-. congruence.
  - eexists. split; [reflexivity|]. intros result. split; [discriminate|].
    intros (r' & d' & [= <-] & _ & _ & Hj & _). congruence.
  - eexists. split; [reflexivity|]. intros result. split; [discriminate|].
    intros (r' & d' & [= <-] & _ & _ & Hj & _). congruence.
Qed.
